(** * Transaction construction, canonical encoding, signing and multisig

    A shallow embedding of the transaction core ([Transaction]: constructor,
    [get_obj_for_encoding], [from_obj_for_encoding], [estimateSize], [txID],
    [signTxn], [attachSignature], and the functions that encode and decode
    unsigned and signed transactions), of the multisig coordinator
    ([createMultisigTransaction], the partial signers,
    [mergeMultisigTransactions], [verifyMultisig], and the functions that
    sign and append) and of [AlgoAmount] of the JavaScript Algorand SDK.

    Conventions of the embedding:
    - a [Uint8Array] is a [list byte]; a [bigint] or integral [number] is a [Z];
    - an optional property ([x?: T]) is an [option];
    - a function that can [throw] returns a [result]; the statements of one
      source block are sequenced with [x <- e ;; k] in source order, so the
      first failing check decides the error, as in the source;
    - record projections that would clash are prefixed by a short tag of the
      interface they come from ([pay_], [kr_], [ac_], [ax_], [af_], [ap_],
      [stpf_] for the fields interfaces; [p_], [sp_], [pp_], [kp_], [acp_],
      [atp_], [afp_], [app_], [spp_] for the parameter interfaces); the wire
      keys of the encoded forms live in module [Enc] under their own names. *)

From Stdlib Require Import ZArith List String Bool Lia Permutation.
From Stdlib.Strings Require Import Byte.
From Stdlib Require DecimalString DecimalPos DecimalFacts.
Import ListNotations.
Local Open Scope string_scope.
Local Open Scope Z_scope.

(** ** Errors *)

Inductive result (A : Type) : Type :=
| Ok (a : A)
| Err (msg : string).
Arguments Ok {A} a.
Arguments Err {A} msg.

Declare Scope result_scope.
Delimit Scope result_scope with result.
Notation "x <- c ;; k" :=
  (match c with Ok x => k | Err msg => Err msg end)
  (at level 61, c at next level, right associativity) : result_scope.
Local Open Scope result_scope.

Definition is_ok {A} (r : result A) : bool :=
  match r with Ok _ => true | Err _ => false end.

Definition throws {A} (r : result A) : Prop := exists msg, r = Err msg.

(** [xs.map(f)] where [f] may throw: elements are visited left to right. *)
Fixpoint mapM {A B} (f : A -> result B) (xs : list A) : result (list B) :=
  match xs with
  | [] => Ok []
  | x :: rest => y <- f x ;; ys <- mapM f rest ;; Ok (y :: ys)
  end.

(** ** Bytes and constants *)

Definition bytes := list byte.

Definition ALGORAND_TRANSACTION_LENGTH : nat := 52.
Definition ALGORAND_MIN_TX_FEE : Z := 1000.
Definition ALGORAND_TRANSACTION_LEASE_LENGTH : nat := 32.
Definition NUM_ADDL_BYTES_AFTER_SIGNING : Z := 75.
Definition ASSET_METADATA_HASH_LENGTH : nat := 32.
Definition KEYREG_VOTE_KEY_LENGTH : nat := 32.
Definition KEYREG_SELECTION_KEY_LENGTH : nat := 32.
Definition KEYREG_STATE_PROOF_KEY_LENGTH : nat := 64.
Definition ALGORAND_TRANSACTION_GROUP_LENGTH : nat := 32.

Definition TX_TAG : bytes := ["T"%byte; "X"%byte].

Definition uint8ArrayIsEmpty (input : bytes) : bool :=
  forallb (fun value => Byte.eqb value x00) input.

(** Modelled from the spec: [utils.arrayEqual] is not part of the sources at
    hand; the spec asks for signatures and keys to be "byte-equal". *)
Definition arrayEqual (a b : bytes) : bool :=
  if list_eq_dec Byte.byte_eq_dec a b then true else false.

(** Modelled from the spec: [utils.ensureUint64] is not part of the sources at
    hand.  "Coerce and bounds-check every numeric into an unsigned 64-bit
    value; reject negative, non-integer, or overflowing inputs."  Inputs are
    integers here, so only the range check remains. *)
Definition MAX_UINT_64 : Z := 2 ^ 64 - 1.

Definition ensureUint64 (value : Z) : result Z :=
  if (0 <=? value) && (value <=? MAX_UINT_64) then Ok value
  else Err "Input is not a 64-bit unsigned integer".

Definition optionalUint64 (input : option Z) : result (option Z) :=
  match input with
  | None => Ok None
  | Some value => x <- ensureUint64 value ;; Ok (Some x)
  end.

Definition optionalUint8Array (input : option bytes) : result (option bytes) :=
  Ok input.

Definition ensureUint8Array (input : bytes) : result bytes := Ok input.

Definition ensureBoolean (input : bool) : result bool := Ok input.

Definition ensureArray {A} (input : list A) : result (list A) := Ok input.

Definition optionalFixedLengthByteArray
    (input : option bytes) (length : nat) (name : string)
  : result (option bytes) :=
  b <- optionalUint8Array input ;;
  match b with
  | None => Ok None
  | Some bytes =>
      if negb (Nat.eqb (List.length bytes) length) then
        Err (name ++ " has the wrong length")
      else if uint8ArrayIsEmpty bytes then Ok None
      else Ok (Some bytes)
  end.

(** JavaScript truthiness of the values the encoder tests. *)
Definition truthyZ (x : Z) : option Z := if x =? 0 then None else Some x.
Definition truthyBool (b : bool) : option bool := if b then Some true else None.
Definition truthyString (str : string) : option string :=
  if String.eqb str "" then None else Some str.
Definition nonEmpty {A} (l : list A) : option (list A) :=
  match l with [] => None | _ => Some l end.
Definition orElse {A} (o : option A) (d : A) : A :=
  match o with Some x => x | None => d end.
Definition isSome {A} (o : option A) : bool :=
  match o with Some _ => true | None => false end.

(** ** Data model *)

Record Address := { publicKey : bytes; checksum : bytes }.

(** An address argument is either its textual form or an [Address] object. *)
Inductive AddressInput :=
| AddressString (text : string)
| AddressObject (addr : Address).

(** A key-registration key is given as bytes or as a base64 string. *)
Inductive KeyInput :=
| KeyBytes (b : bytes)
| KeyBase64 (text : string).

Module TransactionType.
Definition pay : string := "pay".
Definition keyreg : string := "keyreg".
Definition acfg : string := "acfg".
Definition axfer : string := "axfer".
Definition afrz : string := "afrz".
Definition appl : string := "appl".
Definition stpf : string := "stpf".
End TransactionType.

(** Modelled from the spec: [isTransactionType] is declared outside the
    sources at hand; "[type]: one of {pay, keyreg, acfg, axfer, afrz, appl,
    stpf}". *)
Definition isTransactionType (s : string) : bool :=
  existsb (String.eqb s)
    [TransactionType.pay; TransactionType.keyreg; TransactionType.acfg;
     TransactionType.axfer; TransactionType.afrz; TransactionType.appl;
     TransactionType.stpf].

Record TransactionBoxReference := { box_appIndex : Z; box_name : bytes }.

Record PaymentTransactionFields := {
  pay_receiver : Address;
  pay_amount : Z;
  pay_closeRemainderTo : option Address }.

Record KeyRegistrationTransactionFields := {
  kr_voteKey : option bytes;
  kr_selectionKey : option bytes;
  kr_stateProofKey : option bytes;
  kr_voteFirst : option Z;
  kr_voteLast : option Z;
  kr_voteKeyDilution : option Z;
  kr_nonParticipation : bool }.

Record AssetConfigTransactionFields := {
  ac_assetId : Z;
  ac_assetTotal : Z;
  ac_assetDecimals : Z;
  ac_assetDefaultFrozen : bool;
  ac_assetManager : option Address;
  ac_assetReserve : option Address;
  ac_assetFreeze : option Address;
  ac_assetClawback : option Address;
  ac_assetUnitName : string;
  ac_assetName : string;
  ac_assetURL : string;
  ac_assetMetadataHash : option bytes }.

Record AssetTransferTransactionFields := {
  ax_assetId : Z;
  ax_amount : Z;
  ax_sender : option Address;
  ax_receiver : Address;
  ax_closeRemainderTo : option Address }.

Record AssetFreezeTransactionFields := {
  af_assetId : Z;
  af_freezeAccount : Address;
  af_assetFrozen : bool }.

Record ApplicationTransactionFields := {
  ap_appId : Z;
  ap_appOnComplete : Z;
  ap_appLocalInts : Z;
  ap_appLocalByteSlices : Z;
  ap_appGlobalInts : Z;
  ap_appGlobalByteSlices : Z;
  ap_extraPages : Z;
  ap_appApprovalProgram : bytes;
  ap_appClearProgram : bytes;
  ap_appArgs : list bytes;
  ap_appAccounts : list Address;
  ap_appForeignApps : list Z;
  ap_appForeignAssets : list Z;
  ap_boxes : list TransactionBoxReference }.

Record StateProofTransactionFields := {
  stpf_stateProofType : Z;
  stpf_stateProof : bytes;
  stpf_stateProofMessage : bytes }.

Record Transaction := {
  type : string;
  sender : Address;
  note : bytes;
  lease : option bytes;
  rekeyTo : option Address;
  group : bytes;
  fee : Z;
  firstValid : Z;
  lastValid : Z;
  genesisID : option string;
  genesisHash : bytes;
  payment : option PaymentTransactionFields;
  keyreg : option KeyRegistrationTransactionFields;
  assetConfig : option AssetConfigTransactionFields;
  assetTransfer : option AssetTransferTransactionFields;
  assetFreeze : option AssetFreezeTransactionFields;
  applicationCall : option ApplicationTransactionFields;
  stateProof : option StateProofTransactionFields }.

(** *** Construction parameters *)

Record SuggestedParams := {
  sp_flatFee : option bool;
  sp_fee : Z;
  sp_minFee : Z;
  sp_firstValid : Z;
  sp_lastValid : Z;
  sp_genesisID : option string;
  sp_genesisHash : string }.

Record BoxReference := { br_appIndex : Z; br_name : bytes }.

Record PaymentTransactionParams := {
  pp_receiver : AddressInput;
  pp_amount : Z;
  pp_closeRemainderTo : option AddressInput }.

Record KeyRegistrationTransactionParams := {
  kp_voteKey : option KeyInput;
  kp_selectionKey : option KeyInput;
  kp_stateProofKey : option KeyInput;
  kp_voteFirst : option Z;
  kp_voteLast : option Z;
  kp_voteKeyDilution : option Z;
  kp_nonParticipation : option bool }.

Record AssetConfigurationTransactionParams := {
  acp_assetIndex : option Z;
  acp_total : option Z;
  acp_decimals : option Z;
  acp_defaultFrozen : option bool;
  acp_manager : option AddressInput;
  acp_reserve : option AddressInput;
  acp_freeze : option AddressInput;
  acp_clawback : option AddressInput;
  acp_unitName : option string;
  acp_assetName : option string;
  acp_assetURL : option string;
  acp_assetMetadataHash : option bytes }.

Record AssetTransferTransactionParams := {
  atp_assetIndex : Z;
  atp_amount : Z;
  atp_assetSender : option AddressInput;
  atp_receiver : AddressInput;
  atp_closeRemainderTo : option AddressInput }.

Record AssetFreezeTransactionParams := {
  afp_assetIndex : Z;
  afp_freezeTarget : AddressInput;
  afp_assetFrozen : bool }.

Record ApplicationCallTransactionParams := {
  app_appId : Z;
  app_onComplete : Z;
  app_numLocalInts : option Z;
  app_numLocalByteSlices : option Z;
  app_numGlobalInts : option Z;
  app_numGlobalByteSlices : option Z;
  app_extraPages : option Z;
  app_approvalProgram : option bytes;
  app_clearProgram : option bytes;
  app_appArgs : option (list bytes);
  app_accounts : option (list AddressInput);
  app_foreignApps : option (list Z);
  app_foreignAssets : option (list Z);
  app_boxes : option (list BoxReference) }.

Record StateProofTransactionParams := {
  spp_stateProofType : option Z;
  spp_stateProof : option bytes;
  spp_stateProofMessage : option bytes }.

Record TransactionParams := {
  p_type : string;
  p_sender : AddressInput;
  p_note : option bytes;
  p_lease : option bytes;
  p_rekeyTo : option AddressInput;
  p_suggestedParams : SuggestedParams;
  p_paymentParams : option PaymentTransactionParams;
  p_keyregParams : option KeyRegistrationTransactionParams;
  p_assetConfigParams : option AssetConfigurationTransactionParams;
  p_assetTransferParams : option AssetTransferTransactionParams;
  p_assetFreezeParams : option AssetFreezeTransactionParams;
  p_appCallParams : option ApplicationCallTransactionParams;
  p_stateProofParams : option StateProofTransactionParams }.

(** *** Encoded (wire) forms: one optional property per key *)

Module Enc.

Record EncodedAssetParams := {
  t : option Z; dc : option Z; df : option bool;
  m : option bytes; r : option bytes; f : option bytes; c : option bytes;
  un : option string; an : option string; au : option string;
  am : option bytes }.

Record EncodedStateSchema := { nui : option Z; nbs : option Z }.

Record EncodedBoxReference := { i : option Z; n : option bytes }.

Record EncodedTransaction := {
  fee : option Z; fv : option Z; lv : Z; note : option bytes;
  snd : option bytes; type : string; gen : option string; gh : bytes;
  lx : option bytes; grp : option bytes; rekey : option bytes;
  amt : option Z; rcv : option bytes; close : option bytes;
  votekey : option bytes; selkey : option bytes; sprfkey : option bytes;
  votefst : option Z; votelst : option Z; votekd : option Z;
  nonpart : option bool;
  caid : option Z; apar : option EncodedAssetParams;
  xaid : option Z; aamt : option Z; arcv : option bytes;
  aclose : option bytes; asnd : option bytes;
  faid : option Z; afrz : option bool; fadd : option bytes;
  apid : option Z; apan : option Z; apaa : option (list bytes);
  apat : option (list bytes); apas : option (list Z);
  apfa : option (list Z); apbx : option (list EncodedBoxReference);
  apap : option bytes; apsu : option bytes;
  apls : option EncodedStateSchema; apgs : option EncodedStateSchema;
  apep : option Z;
  sptype : option Z; spmsg : option bytes; sp : option bytes }.

Record EncodedSubsig := { pk : bytes; s : option bytes }.

Record EncodedMultisig := { v : Z; thr : Z; subsig : list EncodedSubsig }.

(** [lsig] is passed through untouched; it is kept as opaque bytes. *)
Record EncodedSignedTransaction := {
  sig : option bytes;
  txn : EncodedTransaction;
  msig : option EncodedMultisig;
  lsig : option bytes;
  sgnr : option bytes }.

End Enc.

(** ** External collaborators

    The msgpack codec, the Ed25519 and hash primitives, the base32/base64
    codecs and the address codec are consumed through these interfaces.

    [encode_transaction] is [encoding.encode] at the type of a transaction
    object.  That function is not part of the sources at hand and it can
    throw, so it returns a [result]: nothing is assumed about the objects it
    accepts.  [safeUnsignedMax] is the largest value that
    [utils.ensureSafeUnsignedInteger] accepts, a constant of that helper. *)

Class Externals := {
  base64ToBytes : string -> result bytes;
  bytesToBase64 : bytes -> string;
  encodeAddress : bytes -> string;
  decodeAddress : string -> result Address;
  ALGORAND_ZERO_ADDRESS_STRING : string;
  fromMultisigPreImg : Z -> Z -> list bytes -> result bytes;
  genericHash : bytes -> bytes;
  base32_encode : bytes -> string;
  nacl_verify : bytes -> bytes -> bytes -> bool;
  encode_transaction : Enc.EncodedTransaction -> result bytes;
  encode_signed : Enc.EncodedSignedTransaction -> bytes;
  decode_signed : bytes -> result Enc.EncodedSignedTransaction;
  safeUnsignedMax : Z }.

(** ** The transaction core *)

Section Model.

Context {E : Externals}.

Definition getKeyregKey (input : option KeyInput) (inputName : string)
    (length : nat) : result (option bytes) :=
  match input with
  | None => Ok None
  | Some given =>
      inputBytes <- match given with
                    | KeyBase64 text => base64ToBytes text
                    | KeyBytes b => Ok b
                    end ;;
      if negb (Nat.eqb (List.length inputBytes) length) then
        Err (inputName ++ " must be a byte array or base64 string of the required length")
      else Ok (Some inputBytes)
  end.

Definition ensureAddress (input : AddressInput) : result Address :=
  match input with
  | AddressString text => decodeAddress text
  | AddressObject addr => Ok addr
  end.

Definition optionalAddress (input : option AddressInput)
  : result (option Address) :=
  match input with
  | None => Ok None
  | Some given =>
      addr <- match given with
              | AddressObject a => Ok a
              | AddressString text => decodeAddress text
              end ;;
      if uint8ArrayIsEmpty (publicKey addr) then
        Err "Invalid use of the zero address. To omit this value, pass in undefined"
      else Ok (Some addr)
  end.

(** Modelled from the spec: [utils.ensureSafeUnsignedInteger] is not part of
    the sources at hand.  "Coerce and bounds-check every numeric into an
    unsigned 64-bit value (or a safe unsigned 32-bit for counts); reject
    negative, non-integer, or overflowing inputs."  Inputs are integers here,
    so only the range check remains; the upper end of the range is the
    helper's own constant [safeUnsignedMax], left open, so that what is
    proved holds for the spec's 2^32 - 1 as for any other bound. *)
Definition ensureSafeUnsignedInteger (value : Z) : result Z :=
  if (0 <=? value) && (value <=? safeUnsignedMax) then Ok value
  else Err "Input is not a safe unsigned integer".

Definition ensureBoxReference (input : BoxReference)
  : result TransactionBoxReference :=
  appIndex <- ensureUint64 (br_appIndex input) ;;
  name <- ensureUint8Array (br_name input) ;;
  Ok {| box_appIndex := appIndex; box_name := name |}.

(** Zero-based position of the first occurrence, as [Array.indexOf]. *)
Fixpoint indexOf (x : Z) (l : list Z) : option Z :=
  match l with
  | [] => None
  | y :: rest =>
      if y =? x then Some 0
      else match indexOf x rest with
           | Some k => Some (k + 1)
           | None => None
           end
  end.

(** Modelled from the spec: [translateBoxReferences] (boxStorage) is not part
    of the sources at hand.  "each [{appIndex, name}] where
    [appIndex == calledAppId] or [appIndex == 0] becomes [{i:0, n:name}];
    otherwise [i] is the 1-based index of [appIndex] within [foreignApps] and
    [n] the name."  The two rules overlap on a reference to the called
    application (or to application 0) that is also listed in [foreignApps];
    there the source decides, in the comment of [from_obj_for_encoding]:
    "translateBoxReferences would translate the app index to a nonzero value
    if the called app is also in the foreign app array".  So [foreignApps] is
    searched first, and index 0 is written for a reference to the called
    application or to application 0 that is not found there.  An [appIndex]
    that is neither has no index at all; that case is an error here. *)
Definition translateBoxReference (foreignApps : list Z) (appIndex : Z)
    (reference : TransactionBoxReference) : result Enc.EncodedBoxReference :=
  match indexOf (box_appIndex reference) foreignApps with
  | Some k => Ok {| Enc.i := Some (k + 1); Enc.n := Some (box_name reference) |}
  | None =>
      if (box_appIndex reference =? appIndex) || (box_appIndex reference =? 0)
      then Ok {| Enc.i := Some 0; Enc.n := Some (box_name reference) |}
      else Err "Box ref with appId not in foreign-apps"
  end.

Definition translateBoxReferences (references : list TransactionBoxReference)
    (foreignApps : list Z) (appIndex : Z)
  : result (list Enc.EncodedBoxReference) :=
  mapM (translateBoxReference foreignApps appIndex) references.

(** *** get_obj_for_encoding *)

Definition truthyOptZ (o : option Z) : option Z :=
  match o with Some x => truthyZ x | None => None end.

Definition addressKey (a : Address) : option bytes :=
  if uint8ArrayIsEmpty (publicKey a) then None else Some (publicKey a).

(** [Object.keys(assetParams).length] *)
Definition assetParams_keys (ap : Enc.EncodedAssetParams) : nat :=
  let one {A} (o : option A) : nat := if isSome o then 1%nat else 0%nat in
  (one (Enc.t ap) + one (Enc.dc ap) + one (Enc.df ap) + one (Enc.m ap)
   + one (Enc.r ap) + one (Enc.f ap) + one (Enc.c ap) + one (Enc.un ap)
   + one (Enc.an ap) + one (Enc.au ap) + one (Enc.am ap))%nat.

(** The state of [forEncoding] before the type-specific blocks. *)
Definition forEncoding_common (this : Transaction) : Enc.EncodedTransaction :=
  {| Enc.type := type this;
     Enc.gh := genesisHash this;
     Enc.lv := lastValid this;
     Enc.snd := addressKey (sender this);
     Enc.gen := match genesisID this with
                | Some g => truthyString g
                | None => None
                end;
     Enc.fee := truthyZ (fee this);
     Enc.fv := truthyZ (firstValid this);
     Enc.note := nonEmpty (note this);
     Enc.lx := lease this;
     Enc.rekey := option_map publicKey (rekeyTo this);
     Enc.grp := nonEmpty (group this);
     Enc.amt := None; Enc.rcv := None; Enc.close := None;
     Enc.votekey := None; Enc.selkey := None; Enc.sprfkey := None;
     Enc.votefst := None; Enc.votelst := None; Enc.votekd := None;
     Enc.nonpart := None;
     Enc.caid := None; Enc.apar := None;
     Enc.xaid := None; Enc.aamt := None; Enc.arcv := None;
     Enc.aclose := None; Enc.asnd := None;
     Enc.faid := None; Enc.afrz := None; Enc.fadd := None;
     Enc.apid := None; Enc.apan := None; Enc.apaa := None; Enc.apat := None;
     Enc.apas := None; Enc.apfa := None; Enc.apbx := None; Enc.apap := None;
     Enc.apsu := None; Enc.apls := None; Enc.apgs := None; Enc.apep := None;
     Enc.sptype := None; Enc.spmsg := None; Enc.sp := None |}.

(** The block [if (this.payment) { ... return forEncoding; }]. *)
Definition forEncoding_payment (o : Enc.EncodedTransaction)
    (pay : PaymentTransactionFields) : Enc.EncodedTransaction :=
  {| Enc.type := Enc.type o; Enc.gh := Enc.gh o; Enc.lv := Enc.lv o;
     Enc.snd := Enc.snd o; Enc.gen := Enc.gen o; Enc.fee := Enc.fee o;
     Enc.fv := Enc.fv o; Enc.note := Enc.note o; Enc.lx := Enc.lx o;
     Enc.rekey := Enc.rekey o; Enc.grp := Enc.grp o;
     Enc.amt := truthyZ (pay_amount pay);
     Enc.rcv := addressKey (pay_receiver pay);
     Enc.close := option_map publicKey (pay_closeRemainderTo pay);
     Enc.votekey := None; Enc.selkey := None; Enc.sprfkey := None;
     Enc.votefst := None; Enc.votelst := None; Enc.votekd := None;
     Enc.nonpart := None;
     Enc.caid := None; Enc.apar := None;
     Enc.xaid := None; Enc.aamt := None; Enc.arcv := None;
     Enc.aclose := None; Enc.asnd := None;
     Enc.faid := None; Enc.afrz := None; Enc.fadd := None;
     Enc.apid := None; Enc.apan := None; Enc.apaa := None; Enc.apat := None;
     Enc.apas := None; Enc.apfa := None; Enc.apbx := None; Enc.apap := None;
     Enc.apsu := None; Enc.apls := None; Enc.apgs := None; Enc.apep := None;
     Enc.sptype := None; Enc.spmsg := None; Enc.sp := None |}.

(** The block [if (this.keyreg) { ... }]. *)
Definition forEncoding_keyreg (o : Enc.EncodedTransaction)
    (kr : KeyRegistrationTransactionFields) : Enc.EncodedTransaction :=
  {| Enc.type := Enc.type o; Enc.gh := Enc.gh o; Enc.lv := Enc.lv o;
     Enc.snd := Enc.snd o; Enc.gen := Enc.gen o; Enc.fee := Enc.fee o;
     Enc.fv := Enc.fv o; Enc.note := Enc.note o; Enc.lx := Enc.lx o;
     Enc.rekey := Enc.rekey o; Enc.grp := Enc.grp o;
     Enc.amt := None; Enc.rcv := None; Enc.close := None;
     Enc.votekey := kr_voteKey kr;
     Enc.selkey := kr_selectionKey kr;
     Enc.sprfkey := kr_stateProofKey kr;
     Enc.votefst := truthyOptZ (kr_voteFirst kr);
     Enc.votelst := truthyOptZ (kr_voteLast kr);
     Enc.votekd := truthyOptZ (kr_voteKeyDilution kr);
     Enc.nonpart := truthyBool (kr_nonParticipation kr);
     Enc.caid := None; Enc.apar := None;
     Enc.xaid := None; Enc.aamt := None; Enc.arcv := None;
     Enc.aclose := None; Enc.asnd := None;
     Enc.faid := None; Enc.afrz := None; Enc.fadd := None;
     Enc.apid := None; Enc.apan := None; Enc.apaa := None; Enc.apat := None;
     Enc.apas := None; Enc.apfa := None; Enc.apbx := None; Enc.apap := None;
     Enc.apsu := None; Enc.apls := None; Enc.apgs := None; Enc.apep := None;
     Enc.sptype := None; Enc.spmsg := None; Enc.sp := None |}.

Definition assetParams_of (ac : AssetConfigTransactionFields)
  : Enc.EncodedAssetParams :=
  {| Enc.t := truthyZ (ac_assetTotal ac);
     Enc.dc := truthyZ (ac_assetDecimals ac);
     Enc.df := truthyBool (ac_assetDefaultFrozen ac);
     Enc.m := option_map publicKey (ac_assetManager ac);
     Enc.r := option_map publicKey (ac_assetReserve ac);
     Enc.f := option_map publicKey (ac_assetFreeze ac);
     Enc.c := option_map publicKey (ac_assetClawback ac);
     Enc.un := truthyString (ac_assetUnitName ac);
     Enc.an := truthyString (ac_assetName ac);
     Enc.au := truthyString (ac_assetURL ac);
     Enc.am := ac_assetMetadataHash ac |}.

(** The block [if (this.assetConfig) { ... }]. *)
Definition forEncoding_assetConfig (o : Enc.EncodedTransaction)
    (ac : AssetConfigTransactionFields) : Enc.EncodedTransaction :=
  let assetParams := assetParams_of ac in
  {| Enc.type := Enc.type o; Enc.gh := Enc.gh o; Enc.lv := Enc.lv o;
     Enc.snd := Enc.snd o; Enc.gen := Enc.gen o; Enc.fee := Enc.fee o;
     Enc.fv := Enc.fv o; Enc.note := Enc.note o; Enc.lx := Enc.lx o;
     Enc.rekey := Enc.rekey o; Enc.grp := Enc.grp o;
     Enc.amt := None; Enc.rcv := None; Enc.close := None;
     Enc.votekey := None; Enc.selkey := None; Enc.sprfkey := None;
     Enc.votefst := None; Enc.votelst := None; Enc.votekd := None;
     Enc.nonpart := None;
     Enc.caid := truthyZ (ac_assetId ac);
     Enc.apar := if Nat.eqb (assetParams_keys assetParams) 0 then None
                 else Some assetParams;
     Enc.xaid := None; Enc.aamt := None; Enc.arcv := None;
     Enc.aclose := None; Enc.asnd := None;
     Enc.faid := None; Enc.afrz := None; Enc.fadd := None;
     Enc.apid := None; Enc.apan := None; Enc.apaa := None; Enc.apat := None;
     Enc.apas := None; Enc.apfa := None; Enc.apbx := None; Enc.apap := None;
     Enc.apsu := None; Enc.apls := None; Enc.apgs := None; Enc.apep := None;
     Enc.sptype := None; Enc.spmsg := None; Enc.sp := None |}.

(** The block [if (this.assetTransfer) { ... }]. *)
Definition forEncoding_assetTransfer (o : Enc.EncodedTransaction)
    (ax : AssetTransferTransactionFields) : Enc.EncodedTransaction :=
  {| Enc.type := Enc.type o; Enc.gh := Enc.gh o; Enc.lv := Enc.lv o;
     Enc.snd := Enc.snd o; Enc.gen := Enc.gen o; Enc.fee := Enc.fee o;
     Enc.fv := Enc.fv o; Enc.note := Enc.note o; Enc.lx := Enc.lx o;
     Enc.rekey := Enc.rekey o; Enc.grp := Enc.grp o;
     Enc.amt := None; Enc.rcv := None; Enc.close := None;
     Enc.votekey := None; Enc.selkey := None; Enc.sprfkey := None;
     Enc.votefst := None; Enc.votelst := None; Enc.votekd := None;
     Enc.nonpart := None;
     Enc.caid := None; Enc.apar := None;
     Enc.xaid := truthyZ (ax_assetId ax);
     Enc.aamt := truthyZ (ax_amount ax);
     Enc.arcv := addressKey (ax_receiver ax);
     Enc.aclose := option_map publicKey (ax_closeRemainderTo ax);
     Enc.asnd := option_map publicKey (ax_sender ax);
     Enc.faid := None; Enc.afrz := None; Enc.fadd := None;
     Enc.apid := None; Enc.apan := None; Enc.apaa := None; Enc.apat := None;
     Enc.apas := None; Enc.apfa := None; Enc.apbx := None; Enc.apap := None;
     Enc.apsu := None; Enc.apls := None; Enc.apgs := None; Enc.apep := None;
     Enc.sptype := None; Enc.spmsg := None; Enc.sp := None |}.

(** The block [if (this.assetFreeze) { ... }]. *)
Definition forEncoding_assetFreeze (o : Enc.EncodedTransaction)
    (af : AssetFreezeTransactionFields) : Enc.EncodedTransaction :=
  {| Enc.type := Enc.type o; Enc.gh := Enc.gh o; Enc.lv := Enc.lv o;
     Enc.snd := Enc.snd o; Enc.gen := Enc.gen o; Enc.fee := Enc.fee o;
     Enc.fv := Enc.fv o; Enc.note := Enc.note o; Enc.lx := Enc.lx o;
     Enc.rekey := Enc.rekey o; Enc.grp := Enc.grp o;
     Enc.amt := None; Enc.rcv := None; Enc.close := None;
     Enc.votekey := None; Enc.selkey := None; Enc.sprfkey := None;
     Enc.votefst := None; Enc.votelst := None; Enc.votekd := None;
     Enc.nonpart := None;
     Enc.caid := None; Enc.apar := None;
     Enc.xaid := None; Enc.aamt := None; Enc.arcv := None;
     Enc.aclose := None; Enc.asnd := None;
     Enc.faid := truthyZ (af_assetId af);
     Enc.afrz := truthyBool (af_assetFrozen af);
     Enc.fadd := addressKey (af_freezeAccount af);
     Enc.apid := None; Enc.apan := None; Enc.apaa := None; Enc.apat := None;
     Enc.apas := None; Enc.apfa := None; Enc.apbx := None; Enc.apap := None;
     Enc.apsu := None; Enc.apls := None; Enc.apgs := None; Enc.apep := None;
     Enc.sptype := None; Enc.spmsg := None; Enc.sp := None |}.

Definition stateSchema_of (ints byteSlices : Z)
  : option Enc.EncodedStateSchema :=
  if negb (ints =? 0) || negb (byteSlices =? 0) then
    Some {| Enc.nui := truthyZ ints; Enc.nbs := truthyZ byteSlices |}
  else None.

(** The block [if (this.applicationCall) { ... }]; the translation of the box
    references is the only step that can throw. *)
Definition forEncoding_applicationCall (o : Enc.EncodedTransaction)
    (ap : ApplicationTransactionFields) : result Enc.EncodedTransaction :=
  boxes <- match ap_boxes ap with
           | [] => Ok None
           | _ => b <- translateBoxReferences (ap_boxes ap)
                         (ap_appForeignApps ap) (ap_appId ap) ;;
                  Ok (Some b)
           end ;;
  Ok
  {| Enc.type := Enc.type o; Enc.gh := Enc.gh o; Enc.lv := Enc.lv o;
     Enc.snd := Enc.snd o; Enc.gen := Enc.gen o; Enc.fee := Enc.fee o;
     Enc.fv := Enc.fv o; Enc.note := Enc.note o; Enc.lx := Enc.lx o;
     Enc.rekey := Enc.rekey o; Enc.grp := Enc.grp o;
     Enc.amt := None; Enc.rcv := None; Enc.close := None;
     Enc.votekey := None; Enc.selkey := None; Enc.sprfkey := None;
     Enc.votefst := None; Enc.votelst := None; Enc.votekd := None;
     Enc.nonpart := None;
     Enc.caid := None; Enc.apar := None;
     Enc.xaid := None; Enc.aamt := None; Enc.arcv := None;
     Enc.aclose := None; Enc.asnd := None;
     Enc.faid := None; Enc.afrz := None; Enc.fadd := None;
     Enc.apid := truthyZ (ap_appId ap);
     Enc.apan := truthyZ (ap_appOnComplete ap);
     Enc.apaa := nonEmpty (ap_appArgs ap);
     Enc.apat := nonEmpty (map publicKey (ap_appAccounts ap));
     Enc.apas := nonEmpty (ap_appForeignAssets ap);
     Enc.apfa := nonEmpty (ap_appForeignApps ap);
     Enc.apbx := boxes;
     Enc.apap := nonEmpty (ap_appApprovalProgram ap);
     Enc.apsu := nonEmpty (ap_appClearProgram ap);
     Enc.apls := stateSchema_of (ap_appLocalInts ap) (ap_appLocalByteSlices ap);
     Enc.apgs := stateSchema_of (ap_appGlobalInts ap) (ap_appGlobalByteSlices ap);
     Enc.apep := truthyZ (ap_extraPages ap);
     Enc.sptype := None; Enc.spmsg := None; Enc.sp := None |}.

(** The block [if (this.stateProof) { ... }]: [spmsg] and [sp] are assigned
    without a test. *)
Definition forEncoding_stateProof (o : Enc.EncodedTransaction)
    (stp : StateProofTransactionFields) : Enc.EncodedTransaction :=
  {| Enc.type := Enc.type o; Enc.gh := Enc.gh o; Enc.lv := Enc.lv o;
     Enc.snd := Enc.snd o; Enc.gen := Enc.gen o; Enc.fee := Enc.fee o;
     Enc.fv := Enc.fv o; Enc.note := Enc.note o; Enc.lx := Enc.lx o;
     Enc.rekey := Enc.rekey o; Enc.grp := Enc.grp o;
     Enc.amt := None; Enc.rcv := None; Enc.close := None;
     Enc.votekey := None; Enc.selkey := None; Enc.sprfkey := None;
     Enc.votefst := None; Enc.votelst := None; Enc.votekd := None;
     Enc.nonpart := None;
     Enc.caid := None; Enc.apar := None;
     Enc.xaid := None; Enc.aamt := None; Enc.arcv := None;
     Enc.aclose := None; Enc.asnd := None;
     Enc.faid := None; Enc.afrz := None; Enc.fadd := None;
     Enc.apid := None; Enc.apan := None; Enc.apaa := None; Enc.apat := None;
     Enc.apas := None; Enc.apfa := None; Enc.apbx := None; Enc.apap := None;
     Enc.apsu := None; Enc.apls := None; Enc.apgs := None; Enc.apep := None;
     Enc.sptype := truthyZ (stpf_stateProofType stp);
     Enc.spmsg := Some (stpf_stateProofMessage stp);
     Enc.sp := Some (stpf_stateProof stp) |}.

Definition get_obj_for_encoding (this : Transaction)
  : result Enc.EncodedTransaction :=
  let forEncoding := forEncoding_common this in
  match payment this with
  | Some pay => Ok (forEncoding_payment forEncoding pay)
  | None =>
  match keyreg this with
  | Some kr => Ok (forEncoding_keyreg forEncoding kr)
  | None =>
  match assetConfig this with
  | Some ac => Ok (forEncoding_assetConfig forEncoding ac)
  | None =>
  match assetTransfer this with
  | Some ax => Ok (forEncoding_assetTransfer forEncoding ax)
  | None =>
  match assetFreeze this with
  | Some af => Ok (forEncoding_assetFreeze forEncoding af)
  | None =>
  match applicationCall this with
  | Some ap => forEncoding_applicationCall forEncoding ap
  | None =>
  match stateProof this with
  | Some stp => Ok (forEncoding_stateProof forEncoding stp)
  | None => Err "Unexpected transaction type"
  end end end end end end end.

Definition toByte (this : Transaction) : result bytes :=
  obj <- get_obj_for_encoding this ;; encode_transaction obj.

Definition estimateSize (this : Transaction) : result Z :=
  encoded <- toByte this ;;
  Ok (Z.of_nat (List.length encoded) + NUM_ADDL_BYTES_AFTER_SIGNING).

Definition bytesToSign (this : Transaction) : result bytes :=
  encodedMsg <- toByte this ;; Ok (TX_TAG ++ encodedMsg)%list.

Definition rawTxID (this : Transaction) : result bytes :=
  enMsg <- toByte this ;; Ok (genericHash (TX_TAG ++ enMsg)%list).

Definition txID (this : Transaction) : result string :=
  hash <- rawTxID this ;;
  Ok (substring 0 ALGORAND_TRANSACTION_LENGTH (base32_encode hash)).

(** *** The constructor

    [this] is built field by field in the source; each type-specific block
    below is the body of the corresponding [if (params.xxxParams) { ... }]. *)

Definition constructor_payment (pp : PaymentTransactionParams)
  : result PaymentTransactionFields :=
  receiver <- ensureAddress (pp_receiver pp) ;;
  amount <- ensureUint64 (pp_amount pp) ;;
  closeRemainderTo <- optionalAddress (pp_closeRemainderTo pp) ;;
  Ok {| pay_receiver := receiver; pay_amount := amount;
        pay_closeRemainderTo := closeRemainderTo |}.

(** "*ANY* participating fields are present" *)
Definition keyreg_anyPresent (kr : KeyRegistrationTransactionFields) : bool :=
  isSome (kr_voteKey kr) || isSome (kr_selectionKey kr)
  || isSome (kr_stateProofKey kr) || isSome (kr_voteFirst kr)
  || isSome (kr_voteLast kr) || isSome (kr_voteKeyDilution kr).

(** "*ALL* participating fields must be present (with an exception for
    stateProofKey)" *)
Definition keyreg_allPresent (kr : KeyRegistrationTransactionFields) : bool :=
  isSome (kr_voteKey kr) && isSome (kr_selectionKey kr)
  && isSome (kr_voteFirst kr) && isSome (kr_voteLast kr)
  && isSome (kr_voteKeyDilution kr).

Definition constructor_keyreg (kp : KeyRegistrationTransactionParams)
  : result KeyRegistrationTransactionFields :=
  voteKey <- getKeyregKey (kp_voteKey kp) "voteKey" KEYREG_VOTE_KEY_LENGTH ;;
  selectionKey <- getKeyregKey (kp_selectionKey kp) "selectionKey"
                    KEYREG_SELECTION_KEY_LENGTH ;;
  stateProofKey <- getKeyregKey (kp_stateProofKey kp) "stateProofKey"
                     KEYREG_STATE_PROOF_KEY_LENGTH ;;
  voteFirst <- optionalUint64 (kp_voteFirst kp) ;;
  voteLast <- optionalUint64 (kp_voteLast kp) ;;
  voteKeyDilution <- optionalUint64 (kp_voteKeyDilution kp) ;;
  nonParticipation <- ensureBoolean (orElse (kp_nonParticipation kp) false) ;;
  let kr := {| kr_voteKey := voteKey; kr_selectionKey := selectionKey;
               kr_stateProofKey := stateProofKey; kr_voteFirst := voteFirst;
               kr_voteLast := voteLast; kr_voteKeyDilution := voteKeyDilution;
               kr_nonParticipation := nonParticipation |} in
  if kr_nonParticipation kr && keyreg_anyPresent kr then
    Err "nonParticipation is true but participation params are present."
  else if negb (kr_nonParticipation kr) && keyreg_anyPresent kr
          && negb (keyreg_allPresent kr) then
    Err "Online key registration missing at least one of the following fields: voteKey, selectionKey, voteFirst, voteLast, voteKeyDilution"
  else Ok kr.

Definition constructor_assetConfig (acp : AssetConfigurationTransactionParams)
  : result AssetConfigTransactionFields :=
  assetId <- ensureUint64 (orElse (acp_assetIndex acp) 0) ;;
  assetTotal <- ensureUint64 (orElse (acp_total acp) 0) ;;
  assetDecimals <- ensureSafeUnsignedInteger (orElse (acp_decimals acp) 0) ;;
  assetDefaultFrozen <- ensureBoolean (orElse (acp_defaultFrozen acp) false) ;;
  assetManager <- optionalAddress (acp_manager acp) ;;
  assetReserve <- optionalAddress (acp_reserve acp) ;;
  assetFreeze <- optionalAddress (acp_freeze acp) ;;
  assetClawback <- optionalAddress (acp_clawback acp) ;;
  assetMetadataHash <- optionalFixedLengthByteArray (acp_assetMetadataHash acp)
                         ASSET_METADATA_HASH_LENGTH "assetMetadataHash" ;;
  Ok {| ac_assetId := assetId; ac_assetTotal := assetTotal;
        ac_assetDecimals := assetDecimals;
        ac_assetDefaultFrozen := assetDefaultFrozen;
        ac_assetManager := assetManager; ac_assetReserve := assetReserve;
        ac_assetFreeze := assetFreeze; ac_assetClawback := assetClawback;
        ac_assetUnitName := orElse (acp_unitName acp) "";
        ac_assetName := orElse (acp_assetName acp) "";
        ac_assetURL := orElse (acp_assetURL acp) "";
        ac_assetMetadataHash := assetMetadataHash |}.

Definition constructor_assetTransfer (atp : AssetTransferTransactionParams)
  : result AssetTransferTransactionFields :=
  assetId <- ensureUint64 (atp_assetIndex atp) ;;
  amount <- ensureUint64 (atp_amount atp) ;;
  sender_ <- optionalAddress (atp_assetSender atp) ;;
  receiver <- ensureAddress (atp_receiver atp) ;;
  closeRemainderTo <- optionalAddress (atp_closeRemainderTo atp) ;;
  Ok {| ax_assetId := assetId; ax_amount := amount; ax_sender := sender_;
        ax_receiver := receiver; ax_closeRemainderTo := closeRemainderTo |}.

Definition constructor_assetFreeze (afp : AssetFreezeTransactionParams)
  : result AssetFreezeTransactionFields :=
  assetId <- ensureUint64 (afp_assetIndex afp) ;;
  freezeAccount <- ensureAddress (afp_freezeTarget afp) ;;
  assetFrozen <- ensureBoolean (afp_assetFrozen afp) ;;
  Ok {| af_assetId := assetId; af_freezeAccount := freezeAccount;
        af_assetFrozen := assetFrozen |}.

Definition constructor_applicationCall (app : ApplicationCallTransactionParams)
  : result ApplicationTransactionFields :=
  appId <- ensureUint64 (app_appId app) ;;
  let appOnComplete := app_onComplete app in
  appLocalInts <- ensureSafeUnsignedInteger (orElse (app_numLocalInts app) 0) ;;
  appLocalByteSlices <-
    ensureSafeUnsignedInteger (orElse (app_numLocalByteSlices app) 0) ;;
  appGlobalInts <- ensureSafeUnsignedInteger (orElse (app_numGlobalInts app) 0) ;;
  appGlobalByteSlices <-
    ensureSafeUnsignedInteger (orElse (app_numGlobalByteSlices app) 0) ;;
  extraPages <- ensureSafeUnsignedInteger (orElse (app_extraPages app) 0) ;;
  appApprovalProgram <- ensureUint8Array (orElse (app_approvalProgram app) []) ;;
  appClearProgram <- ensureUint8Array (orElse (app_clearProgram app) []) ;;
  appArgs <- (a <- ensureArray (orElse (app_appArgs app) []) ;;
              mapM ensureUint8Array a) ;;
  appAccounts <- (a <- ensureArray (orElse (app_accounts app) []) ;;
                  mapM ensureAddress a) ;;
  appForeignApps <- (a <- ensureArray (orElse (app_foreignApps app) []) ;;
                     mapM ensureUint64 a) ;;
  appForeignAssets <- (a <- ensureArray (orElse (app_foreignAssets app) []) ;;
                       mapM ensureUint64 a) ;;
  boxes <- (a <- ensureArray (orElse (app_boxes app) []) ;;
            mapM ensureBoxReference a) ;;
  Ok {| ap_appId := appId; ap_appOnComplete := appOnComplete;
        ap_appLocalInts := appLocalInts;
        ap_appLocalByteSlices := appLocalByteSlices;
        ap_appGlobalInts := appGlobalInts;
        ap_appGlobalByteSlices := appGlobalByteSlices;
        ap_extraPages := extraPages;
        ap_appApprovalProgram := appApprovalProgram;
        ap_appClearProgram := appClearProgram;
        ap_appArgs := appArgs; ap_appAccounts := appAccounts;
        ap_appForeignApps := appForeignApps;
        ap_appForeignAssets := appForeignAssets; ap_boxes := boxes |}.

Definition constructor_stateProof (spp : StateProofTransactionParams)
  : result StateProofTransactionFields :=
  stateProofType <-
    ensureSafeUnsignedInteger (orElse (spp_stateProofType spp) 0) ;;
  stateProof_ <- ensureUint8Array (orElse (spp_stateProof spp) []) ;;
  stateProofMessage <-
    ensureUint8Array (orElse (spp_stateProofMessage spp) []) ;;
  Ok {| stpf_stateProofType := stateProofType; stpf_stateProof := stateProof_;
        stpf_stateProofMessage := stateProofMessage |}.

(** [if (params.xxxParams) { this.xxx = ... }] *)
Definition whenPresent {A B} (o : option A) (body : A -> result B)
  : result (option B) :=
  match o with
  | None => Ok None
  | Some a => b <- body a ;; Ok (Some b)
  end.

Definition fieldsPresent (params : TransactionParams) : list string :=
  ((if isSome (p_paymentParams params) then [TransactionType.pay] else [])
   ++ (if isSome (p_keyregParams params) then [TransactionType.keyreg] else [])
   ++ (if isSome (p_assetConfigParams params) then [TransactionType.acfg] else [])
   ++ (if isSome (p_assetTransferParams params) then [TransactionType.axfer] else [])
   ++ (if isSome (p_assetFreezeParams params) then [TransactionType.afrz] else [])
   ++ (if isSome (p_appCallParams params) then [TransactionType.appl] else [])
   ++ (if isSome (p_stateProofParams params) then [TransactionType.stpf] else []))%list.

Definition set_fee (this : Transaction) (value : Z) : Transaction :=
  {| type := type this; sender := sender this; note := note this;
     lease := lease this; rekeyTo := rekeyTo this; group := group this;
     fee := value;
     firstValid := firstValid this; lastValid := lastValid this;
     genesisID := genesisID this; genesisHash := genesisHash this;
     payment := payment this; keyreg := keyreg this;
     assetConfig := assetConfig this; assetTransfer := assetTransfer this;
     assetFreeze := assetFreeze this; applicationCall := applicationCall this;
     stateProof := stateProof this |}.

Definition set_group (this : Transaction) (value : bytes) : Transaction :=
  {| type := type this; sender := sender this; note := note this;
     lease := lease this; rekeyTo := rekeyTo this; group := value;
     fee := fee this;
     firstValid := firstValid this; lastValid := lastValid this;
     genesisID := genesisID this; genesisHash := genesisHash this;
     payment := payment this; keyreg := keyreg this;
     assetConfig := assetConfig this; assetTransfer := assetTransfer this;
     assetFreeze := assetFreeze this; applicationCall := applicationCall this;
     stateProof := stateProof this |}.

(** The block "Determine fee": [this] already carries every other field and
    [this.fee] holds the suggested fee when [estimateSize] runs. *)
Definition determine_fee (this : Transaction) (suggested : SuggestedParams)
  : result Transaction :=
  fee0 <- ensureUint64 (sp_fee suggested) ;;
  let this := set_fee this fee0 in
  feeDependsOnSize <-
    (b <- ensureBoolean (orElse (sp_flatFee suggested) false) ;; Ok (negb b)) ;;
  if feeDependsOnSize then
    minFee <- ensureUint64 (sp_minFee suggested) ;;
    size <- estimateSize this ;;
    let this := set_fee this (fee this * size) in
    if fee this <? minFee then Ok (set_fee this minFee) else Ok this
  else Ok this.

(** Everything the constructor does before the block "Determine fee";
    [this.fee] is not assigned yet and is shown as [0]. *)
Definition constructor_fields (params : TransactionParams)
  : result Transaction :=
  if negb (isTransactionType (p_type params)) then
    Err "Invalid transaction type"
  else
  (* Common fields *)
  sender_ <- ensureAddress (p_sender params) ;;
  note_ <- ensureUint8Array (orElse (p_note params) []) ;;
  lease_ <- optionalFixedLengthByteArray (p_lease params)
              ALGORAND_TRANSACTION_LEASE_LENGTH "lease" ;;
  rekeyTo_ <- optionalAddress (p_rekeyTo params) ;;
  (* Suggested params fields *)
  let suggested := p_suggestedParams params in
  firstValid_ <- ensureUint64 (sp_firstValid suggested) ;;
  lastValid_ <- ensureUint64 (sp_lastValid suggested) ;;
  let genesisID_ := match sp_genesisID suggested with
                    | Some g => truthyString g
                    | None => None
                    end in
  if String.eqb (sp_genesisHash suggested) "" then
    Err "Genesis hash must be specified"
  else
  genesisHash_ <- base64ToBytes (sp_genesisHash suggested) ;;
  let present := fieldsPresent params in
  if negb (Nat.eqb (List.length present) 1) then
    Err "Transaction has wrong number of type fields present"
  else if negb (String.eqb (p_type params) (hd "" present)) then
    Err "Transaction has one type but fields present for another"
  else
  payment_ <- whenPresent (p_paymentParams params) constructor_payment ;;
  keyreg_ <- whenPresent (p_keyregParams params) constructor_keyreg ;;
  assetConfig_ <- whenPresent (p_assetConfigParams params)
                    constructor_assetConfig ;;
  assetTransfer_ <- whenPresent (p_assetTransferParams params)
                      constructor_assetTransfer ;;
  assetFreeze_ <- whenPresent (p_assetFreezeParams params)
                    constructor_assetFreeze ;;
  applicationCall_ <- whenPresent (p_appCallParams params)
                        constructor_applicationCall ;;
  stateProof_ <- whenPresent (p_stateProofParams params)
                   constructor_stateProof ;;
  Ok {| type := p_type params; sender := sender_; note := note_;
        lease := lease_; rekeyTo := rekeyTo_;
        group := [];
        fee := 0;
        firstValid := firstValid_; lastValid := lastValid_;
        genesisID := genesisID_; genesisHash := genesisHash_;
        payment := payment_; keyreg := keyreg_; assetConfig := assetConfig_;
        assetTransfer := assetTransfer_; assetFreeze := assetFreeze_;
        applicationCall := applicationCall_; stateProof := stateProof_ |}.

Definition new_Transaction (params : TransactionParams) : result Transaction :=
  this <- constructor_fields params ;;
  determine_fee this (p_suggestedParams params).

(** *** from_obj_for_encoding *)

Definition addressText (key : bytes) : AddressInput :=
  AddressString (encodeAddress key).

Definition addressTextOrZero (key : option bytes) : AddressInput :=
  match key with
  | Some k => AddressString (encodeAddress k)
  | None => AddressString ALGORAND_ZERO_ADDRESS_STRING
  end.

(** The callback of [txnForEnc.apbx.map]. *)
Definition decode_box (foreignApps : option (list Z))
    (box : Enc.EncodedBoxReference) : result BoxReference :=
  index <- ensureSafeUnsignedInteger (orElse (Enc.i box) 0) ;;
  let name := orElse (Enc.n box) [] in
  if index =? 0 then Ok {| br_appIndex := 0; br_name := name |}
  else
    match foreignApps with
    | None => Err "Cannot find foreign app index"
    | Some apps =>
        if Z.of_nat (List.length apps) <? index then
          Err "Cannot find foreign app index"
        else Ok {| br_appIndex := nth (Z.to_nat (index - 1)) apps 0;
                   br_name := name |}
    end.

Definition decode_paymentParams (txnForEnc : Enc.EncodedTransaction)
  : PaymentTransactionParams :=
  {| pp_amount := orElse (Enc.amt txnForEnc) 0;
     pp_receiver := addressTextOrZero (Enc.rcv txnForEnc);
     pp_closeRemainderTo := option_map addressText (Enc.close txnForEnc) |}.

Definition decode_keyregParams (txnForEnc : Enc.EncodedTransaction)
  : KeyRegistrationTransactionParams :=
  {| kp_voteKey := option_map KeyBytes (Enc.votekey txnForEnc);
     kp_selectionKey := option_map KeyBytes (Enc.selkey txnForEnc);
     kp_stateProofKey := option_map KeyBytes (Enc.sprfkey txnForEnc);
     kp_voteFirst := Enc.votefst txnForEnc;
     kp_voteLast := Enc.votelst txnForEnc;
     kp_voteKeyDilution := Enc.votekd txnForEnc;
     kp_nonParticipation := Enc.nonpart txnForEnc |}.

Definition decode_assetConfigParams (txnForEnc : Enc.EncodedTransaction)
  : AssetConfigurationTransactionParams :=
  match Enc.apar txnForEnc with
  | Some apar =>
      {| acp_assetIndex := Enc.caid txnForEnc;
         acp_total := Enc.t apar;
         acp_decimals := Enc.dc apar;
         acp_defaultFrozen := Enc.df apar;
         acp_unitName := Enc.un apar;
         acp_assetName := Enc.an apar;
         acp_assetURL := Enc.au apar;
         acp_assetMetadataHash := Enc.am apar;
         acp_manager := option_map addressText (Enc.m apar);
         acp_reserve := option_map addressText (Enc.r apar);
         acp_freeze := option_map addressText (Enc.f apar);
         acp_clawback := option_map addressText (Enc.c apar) |}
  | None =>
      {| acp_assetIndex := Enc.caid txnForEnc;
         acp_total := None; acp_decimals := None; acp_defaultFrozen := None;
         acp_unitName := None; acp_assetName := None; acp_assetURL := None;
         acp_assetMetadataHash := None;
         acp_manager := None; acp_reserve := None; acp_freeze := None;
         acp_clawback := None |}
  end.

Definition decode_assetTransferParams (txnForEnc : Enc.EncodedTransaction)
  : AssetTransferTransactionParams :=
  {| atp_assetIndex := orElse (Enc.xaid txnForEnc) 0;
     atp_amount := orElse (Enc.aamt txnForEnc) 0;
     atp_receiver := addressTextOrZero (Enc.arcv txnForEnc);
     atp_closeRemainderTo := option_map addressText (Enc.aclose txnForEnc);
     atp_assetSender := option_map addressText (Enc.asnd txnForEnc) |}.

Definition decode_assetFreezeParams (txnForEnc : Enc.EncodedTransaction)
  : AssetFreezeTransactionParams :=
  {| afp_assetIndex := orElse (Enc.faid txnForEnc) 0;
     afp_freezeTarget := addressTextOrZero (Enc.fadd txnForEnc);
     afp_assetFrozen := orElse (Enc.afrz txnForEnc) false |}.

Definition decode_appCallParams (txnForEnc : Enc.EncodedTransaction)
  : result ApplicationCallTransactionParams :=
  onComplete <- ensureSafeUnsignedInteger (orElse (Enc.apan txnForEnc) 0) ;;
  let foreignApps := Enc.apfa txnForEnc in
  boxes <- match Enc.apbx txnForEnc with
           | Some apbx => b <- mapM (decode_box foreignApps) apbx ;; Ok (Some b)
           | None => Ok None
           end ;;
  Ok {| app_appId := orElse (Enc.apid txnForEnc) 0;
        app_onComplete := onComplete;
        app_appArgs := Enc.apaa txnForEnc;
        app_accounts := Some (map addressText (orElse (Enc.apat txnForEnc) []));
        app_foreignAssets := Enc.apas txnForEnc;
        app_foreignApps := foreignApps;
        app_approvalProgram := Enc.apap txnForEnc;
        app_clearProgram := Enc.apsu txnForEnc;
        app_numLocalInts :=
          match Enc.apls txnForEnc with Some x => Enc.nui x | None => None end;
        app_numLocalByteSlices :=
          match Enc.apls txnForEnc with Some x => Enc.nbs x | None => None end;
        app_numGlobalInts :=
          match Enc.apgs txnForEnc with Some x => Enc.nui x | None => None end;
        app_numGlobalByteSlices :=
          match Enc.apgs txnForEnc with Some x => Enc.nbs x | None => None end;
        app_extraPages := Enc.apep txnForEnc;
        app_boxes := boxes |}.

Definition decode_stateProofParams (txnForEnc : Enc.EncodedTransaction)
  : StateProofTransactionParams :=
  {| spp_stateProofType := Enc.sptype txnForEnc;
     spp_stateProof := Enc.sp txnForEnc;
     spp_stateProofMessage := Enc.spmsg txnForEnc |}.

Definition decode_suggestedParams (txnForEnc : Enc.EncodedTransaction)
  : SuggestedParams :=
  {| sp_minFee := 0;
     sp_flatFee := Some true;
     sp_fee := orElse (Enc.fee txnForEnc) 0;
     sp_firstValid := orElse (Enc.fv txnForEnc) 0;
     sp_lastValid := Enc.lv txnForEnc;
     sp_genesisHash := bytesToBase64 (Enc.gh txnForEnc);
     sp_genesisID := Enc.gen txnForEnc |}.

(** The parameter record handed to the constructor by the decoder. *)
Definition decode_params (txnForEnc : Enc.EncodedTransaction)
  : result TransactionParams :=
  let suggestedParams := decode_suggestedParams txnForEnc in
  if negb (isTransactionType (Enc.type txnForEnc)) then
    Err "Unrecognized transaction type"
  else
  let params pay kr ac ax af app stp :=
    {| p_type := Enc.type txnForEnc;
       p_sender := addressTextOrZero (Enc.snd txnForEnc);
       p_note := Enc.note txnForEnc;
       p_lease := Enc.lx txnForEnc;
       p_suggestedParams := suggestedParams;
       p_rekeyTo := option_map addressText (Enc.rekey txnForEnc);
       p_paymentParams := pay; p_keyregParams := kr;
       p_assetConfigParams := ac; p_assetTransferParams := ax;
       p_assetFreezeParams := af; p_appCallParams := app;
       p_stateProofParams := stp |} in
  let ty := Enc.type txnForEnc in
  if String.eqb ty TransactionType.pay then
    Ok (params (Some (decode_paymentParams txnForEnc))
          None None None None None None)
  else if String.eqb ty TransactionType.keyreg then
    Ok (params None (Some (decode_keyregParams txnForEnc))
          None None None None None)
  else if String.eqb ty TransactionType.acfg then
    Ok (params None None (Some (decode_assetConfigParams txnForEnc))
          None None None None)
  else if String.eqb ty TransactionType.axfer then
    Ok (params None None None (Some (decode_assetTransferParams txnForEnc))
          None None None)
  else if String.eqb ty TransactionType.afrz then
    Ok (params None None None None (Some (decode_assetFreezeParams txnForEnc))
          None None)
  else if String.eqb ty TransactionType.appl then
    appCallParams <- decode_appCallParams txnForEnc ;;
    Ok (params None None None None None (Some appCallParams) None)
  else if String.eqb ty TransactionType.stpf then
    Ok (params None None None None None None
          (Some (decode_stateProofParams txnForEnc)))
  else Err "Unexpected transaction type".

Definition from_obj_for_encoding (txnForEnc : Enc.EncodedTransaction)
  : result Transaction :=
  params <- decode_params txnForEnc ;;
  txn <- new_Transaction params ;;
  match Enc.grp txnForEnc with
  | Some grp =>
      group_ <- ensureUint8Array grp ;;
      if negb (Nat.eqb (List.length group_) ALGORAND_TRANSACTION_GROUP_LENGTH)
      then Err "Invalid group length"
      else Ok (set_group txn group_)
  | None => Ok txn
  end.

(** ** The multisig coordinator *)

Definition MULTISIG_MERGE_LESSTHANTWO_ERROR_MSG : string :=
  "Not enough multisig transactions to merge. Need at least two".
Definition MULTISIG_MERGE_MISMATCH_ERROR_MSG : string :=
  "Cannot merge txs. txIDs differ".
Definition MULTISIG_MERGE_MISMATCH_AUTH_ADDR_MSG : string :=
  "Cannot merge txs. Auth addrs differ".
Definition MULTISIG_MERGE_WRONG_PREIMAGE_ERROR_MSG : string :=
  "Cannot merge txs. Multisig preimages differ".
Definition MULTISIG_MERGE_SIG_MISMATCH_ERROR_MSG : string :=
  "Cannot merge txs. subsigs are mismatched.".

(** [sgnr ? address.encodeAddress(sgnr) : undefined] *)
Definition authAddrOf (signedTxn : Enc.EncodedSignedTransaction)
  : option string :=
  option_map encodeAddress (Enc.sgnr signedTxn).

Definition optionStringEqb (a b : option string) : bool :=
  match a, b with
  | None, None => true
  | Some x, Some y => String.eqb x y
  | _, _ => false
  end.

(** [address.encodeAddress(address.fromMultisigPreImg(preimg))] for the
    pre-image read off a multisig record. *)
Definition msigAddrOf (msig : Enc.EncodedMultisig) : result string :=
  addr <- fromMultisigPreImg (Enc.v msig) (Enc.thr msig)
            (map Enc.pk (Enc.subsig msig)) ;;
  Ok (encodeAddress addr).

(** [unisig.msig.subsig.forEach((uniSubsig, index) => ...)]: the two lists
    are walked in step, [current] being [newSubsigs[index]].  A slot of the
    partial beyond the end of [newSubsigs] has no [current]; reading its [s]
    is a [TypeError]. *)
Fixpoint mergeSubsigs (newSubsigs uniSubsigs : list Enc.EncodedSubsig)
  : result (list Enc.EncodedSubsig) :=
  match uniSubsigs with
  | [] => Ok newSubsigs
  | uniSubsig :: uniRest =>
      match Enc.s uniSubsig with
      | None =>
          match newSubsigs with
          | [] => mergeSubsigs [] uniRest
          | current :: rest =>
              merged <- mergeSubsigs rest uniRest ;; Ok (current :: merged)
          end
      | Some uniS =>
          match newSubsigs with
          | [] => Err "TypeError: current is undefined"
          | current :: rest =>
              if match Enc.s current with
                 | Some curS => negb (arrayEqual uniS curS)
                 | None => false
                 end
              then Err MULTISIG_MERGE_SIG_MISMATCH_ERROR_MSG
              else
                merged <- mergeSubsigs rest uniRest ;;
                Ok ({| Enc.pk := Enc.pk current; Enc.s := Some uniS |} :: merged)
          end
      end
  end.

(** One turn of the loop [for (let i = 1; i < multisigTxnBlobs.length; i++)]. *)
Definition merge_step (refMsig : Enc.EncodedMultisig) (refTxID : string)
    (refAuthAddr : option string) (refMsigAddr : string)
    (newSubsigs : list Enc.EncodedSubsig) (blob : bytes)
  : result (list Enc.EncodedSubsig) :=
  unisig <- decode_signed blob ;;
  match Enc.msig unisig with
  | None => Err "Invalid multisig transaction, multisig structure missing"
  | Some uniMsig =>
      unisigAlgoTxn <- from_obj_for_encoding (Enc.txn unisig) ;;
      uniTxID <- txID unisigAlgoTxn ;;
      if negb (String.eqb uniTxID refTxID) then
        Err MULTISIG_MERGE_MISMATCH_ERROR_MSG
      else
      let authAddr := authAddrOf unisig in
      if negb (optionStringEqb refAuthAddr authAddr) then
        Err MULTISIG_MERGE_MISMATCH_AUTH_ADDR_MSG
      else if negb (Nat.eqb (List.length (Enc.subsig uniMsig))
                      (List.length (Enc.subsig refMsig))) then
        Err MULTISIG_MERGE_WRONG_PREIMAGE_ERROR_MSG
      else
      msgigAddr <- msigAddrOf uniMsig ;;
      if negb (String.eqb refMsigAddr msgigAddr) then
        Err MULTISIG_MERGE_WRONG_PREIMAGE_ERROR_MSG
      else mergeSubsigs newSubsigs (Enc.subsig uniMsig)
  end.

Fixpoint merge_loop (refMsig : Enc.EncodedMultisig) (refTxID : string)
    (refAuthAddr : option string) (refMsigAddr : string)
    (newSubsigs : list Enc.EncodedSubsig) (blobs : list bytes)
  : result (list Enc.EncodedSubsig) :=
  match blobs with
  | [] => Ok newSubsigs
  | blob :: rest =>
      newSubsigs' <- merge_step refMsig refTxID refAuthAddr refMsigAddr
                       newSubsigs blob ;;
      merge_loop refMsig refTxID refAuthAddr refMsigAddr newSubsigs' rest
  end.

(** [mergeMultisigTransactions] up to, and without, the final
    [encoding.encode(signedTxn)]. *)
Definition mergeMultisigTransactions_signedTxn (multisigTxnBlobs : list bytes)
  : result Enc.EncodedSignedTransaction :=
  if (List.length multisigTxnBlobs <? 2)%nat then
    Err MULTISIG_MERGE_LESSTHANTWO_ERROR_MSG
  else
  match multisigTxnBlobs with
  | [] => Err MULTISIG_MERGE_LESSTHANTWO_ERROR_MSG
  | blob0 :: others =>
      refSigTx <- decode_signed blob0 ;;
      match Enc.msig refSigTx with
      | None =>
          Err "Invalid multisig transaction, multisig structure missing at index 0"
      | Some refMsig =>
          refTxn <- from_obj_for_encoding (Enc.txn refSigTx) ;;
          refTxID <- txID refTxn ;;
          let refAuthAddr := authAddrOf refSigTx in
          refMsigAddr <- msigAddrOf refMsig ;;
          newSubsigs <- merge_loop refMsig refTxID refAuthAddr refMsigAddr
                          (Enc.subsig refMsig) others ;;
          sgnr_ <- match refAuthAddr with
                   | Some a => d <- decodeAddress a ;; Ok (Some (publicKey d))
                   | None => Ok None
                   end ;;
          Ok {| Enc.msig := Some {| Enc.v := Enc.v refMsig;
                                    Enc.thr := Enc.thr refMsig;
                                    Enc.subsig := newSubsigs |};
                Enc.txn := Enc.txn refSigTx;
                Enc.sgnr := sgnr_;
                Enc.sig := None; Enc.lsig := None |}
      end
  end.

Definition mergeMultisigTransactions (multisigTxnBlobs : list bytes)
  : result bytes :=
  signedTxn <- mergeMultisigTransactions_signedTxn multisigTxnBlobs ;;
  Ok (encode_signed signedTxn).

Definition countSigned (subsigs : list Enc.EncodedSubsig) : Z :=
  fold_left (fun counter subsig =>
               if isSome (Enc.s subsig) then counter + 1 else counter)
            subsigs 0.

Definition countVerified (toBeVerified : bytes)
    (subsigs : list Enc.EncodedSubsig) : Z :=
  fold_left (fun verifiedCounter subsig =>
               match Enc.s subsig with
               | Some sg =>
                   if nacl_verify toBeVerified sg (Enc.pk subsig)
                   then verifiedCounter + 1 else verifiedCounter
               | None => verifiedCounter
               end)
            subsigs 0.

Definition verifyMultisig (toBeVerified : bytes) (msig : Enc.EncodedMultisig)
    (publicKey_ : bytes) : bool :=
  let version := Enc.v msig in
  let threshold := Enc.thr msig in
  let subsigs := Enc.subsig msig in
  let pks := map Enc.pk subsigs in
  if Z.of_nat (List.length (Enc.subsig msig)) <? threshold then false
  else
    match fromMultisigPreImg version threshold pks with
    | Err _ => false
    | Ok pk =>
        if negb (arrayEqual pk publicKey_) then false
        else
          let counter := countSigned subsigs in
          if counter <? threshold then false
          else
            let verifiedCounter := countVerified toBeVerified subsigs in
            if verifiedCounter <? threshold then false else true
    end.

End Model.

(** ** A small executable instance of the external interfaces

    Stand-ins that make the model run on concrete inputs: text and bytes are
    converted character by character, an address text is the text of its 32
    key bytes, a signature of [m] under [pk] is [pk ++ m], the transaction
    encoding keeps the genesis hash, the fee and the note, and a signed blob
    is a tag byte followed by one byte per subsig slot.  The transaction
    encoder refuses an object whose [lv] is zero or whose [gh], [sp] or
    [spmsg] is empty. *)

Module Sample.

Definition zeroKey : bytes := repeat x00 32.
Definition key (b : byte) : bytes := repeat b 32.

Definition parseAddress (text : string) : result Address :=
  let raw := list_byte_of_string text in
  if Nat.eqb (List.length raw) 32 then
    Ok {| publicKey := raw; checksum := [] |}
  else Err "address seems to be malformed".

Definition digits (x : Z) : bytes := repeat x01 (Z.to_nat (Z.log2_up (x + 1))).

Definition pack_transaction (o : Enc.EncodedTransaction) : bytes :=
  (Enc.gh o ++ digits (orElse (Enc.fee o) 0) ++ orElse (Enc.note o) [])%list.

Definition refused (o : Enc.EncodedTransaction) : bool :=
  (Enc.lv o =? 0)
  || match Enc.gh o with [] => true | _ => false end
  || match Enc.sp o with Some [] => true | _ => false end
  || match Enc.spmsg o with Some [] => true | _ => false end.

Definition encode (o : Enc.EncodedTransaction) : result bytes :=
  if refused o then Err "The object contains empty or 0 values"
  else Ok (pack_transaction o).

Definition encoded_payment (noteBytes grpBytes : option bytes)
  : Enc.EncodedTransaction :=
  {| Enc.type := TransactionType.pay; Enc.gh := key x01; Enc.lv := 1001;
     Enc.snd := Some (key x0a); Enc.gen := Some "testnet-v1.0";
     Enc.fee := Some 1000; Enc.fv := Some 1; Enc.note := noteBytes;
     Enc.lx := None; Enc.rekey := None; Enc.grp := grpBytes;
     Enc.amt := Some 1000; Enc.rcv := Some (key x0b); Enc.close := None;
     Enc.votekey := None; Enc.selkey := None; Enc.sprfkey := None;
     Enc.votefst := None; Enc.votelst := None; Enc.votekd := None;
     Enc.nonpart := None;
     Enc.caid := None; Enc.apar := None;
     Enc.xaid := None; Enc.aamt := None; Enc.arcv := None;
     Enc.aclose := None; Enc.asnd := None;
     Enc.faid := None; Enc.afrz := None; Enc.fadd := None;
     Enc.apid := None; Enc.apan := None; Enc.apaa := None; Enc.apat := None;
     Enc.apas := None; Enc.apfa := None; Enc.apbx := None; Enc.apap := None;
     Enc.apsu := None; Enc.apls := None; Enc.apgs := None; Enc.apep := None;
     Enc.sptype := None; Enc.spmsg := None; Enc.sp := None |}.

Definition slot (b : byte) : Enc.EncodedSubsig :=
  {| Enc.pk := []; Enc.s := if Byte.eqb b x00 then None else Some [b] |}.

Definition slot_byte (ss : Enc.EncodedSubsig) : byte :=
  match Enc.s ss with
  | Some [b] => b
  | _ => x00
  end.

(** Tag [x00]: a multisig blob over [encoded_payment None None]; tag [x01]: the
    same without its [msig]; tag [x02]: the same with an auth-address; tag
    [x03]: a multisig blob over another transaction. *)
Definition unpack_signed (blob : bytes) : result Enc.EncodedSignedTransaction :=
  match blob with
  | [] => Err "nothing to decode"
  | tag :: slots =>
      let msig := {| Enc.v := 1; Enc.thr := 1; Enc.subsig := map slot slots |} in
      Ok {| Enc.sig := None;
            Enc.txn := encoded_payment
                         (if Byte.eqb tag x03 then Some [x01] else None) None;
            Enc.msig := if Byte.eqb tag x01 then None else Some msig;
            Enc.lsig := None;
            Enc.sgnr := if Byte.eqb tag x02 then Some (key x0c) else None |}
  end.

Definition pack_signed (signedTxn : Enc.EncodedSignedTransaction) : bytes :=
  match Enc.msig signedTxn with
  | Some msig => x00 :: map slot_byte (Enc.subsig msig)
  | None => [x01]
  end.

#[export] Instance externals : Externals :=
  {| base64ToBytes := fun text => Ok (list_byte_of_string text);
     bytesToBase64 := string_of_list_byte;
     encodeAddress := string_of_list_byte;
     decodeAddress := parseAddress;
     ALGORAND_ZERO_ADDRESS_STRING := string_of_list_byte zeroKey;
     fromMultisigPreImg := fun version threshold pks => Ok (List.concat pks);
     genericHash := fun msg => msg;
     base32_encode := string_of_list_byte;
     nacl_verify := fun msg sg pk => arrayEqual sg (pk ++ msg)%list;
     encode_transaction := encode;
     encode_signed := pack_signed;
     decode_signed := unpack_signed;
     safeUnsignedMax := 2 ^ 32 - 1 |}.

Definition suggested_with (flat : option bool) (suggestedFee : Z)
    (genesisHashText : string) : SuggestedParams :=
  {| sp_flatFee := flat; sp_fee := suggestedFee; sp_minFee := 1000;
     sp_firstValid := 1; sp_lastValid := 1001;
     sp_genesisID := Some "testnet-v1.0";
     sp_genesisHash := genesisHashText |}.

Definition suggested (flat : option bool) (suggestedFee : Z) : SuggestedParams :=
  suggested_with flat suggestedFee (string_of_list_byte (key x01)).

Definition params_of (ty : string) (suggestedParams : SuggestedParams)
    (rekey : option AddressInput)
    (pay : option PaymentTransactionParams)
    (kr : option KeyRegistrationTransactionParams)
    (app : option ApplicationCallTransactionParams)
    (stp : option StateProofTransactionParams) : TransactionParams :=
  {| p_type := ty;
     p_sender := AddressObject {| publicKey := key x0a; checksum := [] |};
     p_note := None; p_lease := None; p_rekeyTo := rekey;
     p_suggestedParams := suggestedParams;
     p_paymentParams := pay; p_keyregParams := kr;
     p_assetConfigParams := None; p_assetTransferParams := None;
     p_assetFreezeParams := None; p_appCallParams := app;
     p_stateProofParams := stp |}.

Definition payTo (receiver : byte) (amount : Z) : PaymentTransactionParams :=
  {| pp_receiver := AddressObject {| publicKey := key receiver; checksum := [] |};
     pp_amount := amount; pp_closeRemainderTo := None |}.

Definition payment_params (flat : option bool) (suggestedFee : Z)
  : TransactionParams :=
  params_of TransactionType.pay (suggested flat suggestedFee) None
    (Some (payTo x0b 1000)) None None None.

Definition keyreg_votes (nonParticipation : option bool)
    (voteFirst : option Z) : KeyRegistrationTransactionParams :=
  {| kp_voteKey := Some (KeyBytes (key x01));
     kp_selectionKey := Some (KeyBytes (key x02));
     kp_stateProofKey := None;
     kp_voteFirst := voteFirst; kp_voteLast := Some 1000;
     kp_voteKeyDilution := Some 10;
     kp_nonParticipation := nonParticipation |}.

Definition keyreg_params (flat : option bool)
    (kp : KeyRegistrationTransactionParams) : TransactionParams :=
  params_of TransactionType.keyreg (suggested flat 1000) None
    None (Some kp) None None.

Definition stateProof_params : TransactionParams :=
  params_of TransactionType.stpf (suggested (Some true) 1000) None
    None None None
    (Some {| spp_stateProofType := None; spp_stateProof := None;
             spp_stateProofMessage := None |}).

(** A flat-fee payment of nothing to the zero address, fee zero. *)
Definition zero_payment_params : TransactionParams :=
  params_of TransactionType.pay (suggested (Some true) 0) None
    (Some (payTo x00 0)) None None None.

(** An application call to application 7 with one box reference. *)
Definition boxOf (appIndex : Z) : BoxReference :=
  {| br_appIndex := appIndex; br_name := [x01] |}.

Definition appCall_params (foreignApps : option (list Z)) (box : BoxReference)
  : TransactionParams :=
  params_of TransactionType.appl (suggested (Some true) 1000) None
    None None
    (Some {| app_appId := 7; app_onComplete := 0;
             app_numLocalInts := None; app_numLocalByteSlices := None;
             app_numGlobalInts := None; app_numGlobalByteSlices := None;
             app_extraPages := None;
             app_approvalProgram := None; app_clearProgram := None;
             app_appArgs := None; app_accounts := None;
             app_foreignApps := foreignApps; app_foreignAssets := None;
             app_boxes := Some [box] |})
    None.

End Sample.

(** ** Vocabulary of the statements *)

Definition zeroKey : bytes := repeat x00 32.

Section Vocabulary.

Context {E : Externals}.

(** An address argument that denotes the zero address. *)
Definition isZeroAddressInput (input : AddressInput) : Prop :=
  match input with
  | AddressObject addr => publicKey addr = zeroKey
  | AddressString text =>
      exists addr, decodeAddress text = Ok addr /\ publicKey addr = zeroKey
  end.

(** The optional Address slots of a parameter record. *)
Definition optionalAddressSlots (params : TransactionParams)
  : list (option AddressInput) :=
  ([p_rekeyTo params]
   ++ match p_paymentParams params with
      | Some pp => [pp_closeRemainderTo pp]
      | None => []
      end
   ++ match p_assetConfigParams params with
      | Some acp => [acp_manager acp; acp_reserve acp; acp_freeze acp;
                     acp_clawback acp]
      | None => []
      end
   ++ match p_assetTransferParams params with
      | Some atp => [atp_assetSender atp; atp_closeRemainderTo atp]
      | None => []
      end)%list.

(** *** Key registration shapes, read off the parameter record *)











(** *** Multisig verification *)

Definition slot_signed (subsig : Enc.EncodedSubsig) : bool :=
  isSome (Enc.s subsig).

Definition slot_verifies (toBeVerified : bytes) (subsig : Enc.EncodedSubsig)
  : bool :=
  match Enc.s subsig with
  | Some sg => nacl_verify toBeVerified sg (Enc.pk subsig)
  | None => false
  end.

(** Number of slots that carry a signature. *)
Definition signed_slots (msig : Enc.EncodedMultisig) : Z :=
  Z.of_nat (List.length (filter slot_signed (Enc.subsig msig))).

(** Number of slots that carry a signature that verifies. *)
Definition verified_slots (toBeVerified : bytes) (msig : Enc.EncodedMultisig)
  : Z :=
  Z.of_nat (List.length (filter (slot_verifies toBeVerified) (Enc.subsig msig))).

Definition every_signed_slot_verifies (toBeVerified : bytes)
    (msig : Enc.EncodedMultisig) : Prop :=
  forall subsig sg,
    In subsig (Enc.subsig msig) ->
    Enc.s subsig = Some sg ->
    nacl_verify toBeVerified sg (Enc.pk subsig) = true.

(** The address derived from the pre-image [(v, thr, pks in order)] is
    [expected]. *)
Definition preimage_address_is (msig : Enc.EncodedMultisig) (expected : bytes)
  : Prop :=
  fromMultisigPreImg (Enc.v msig) (Enc.thr msig)
    (map Enc.pk (Enc.subsig msig)) = Ok expected.

(** *** Keys of the canonical encoding and defaults of the fields behind them *)

Inductive Key :=
| K_fee | K_fv | K_lv | K_note | K_snd | K_type | K_gen | K_gh | K_lx | K_grp
| K_rekey
| K_amt | K_rcv | K_close
| K_votekey | K_selkey | K_sprfkey | K_votefst | K_votelst | K_votekd
| K_nonpart
| K_caid | K_apar | K_apar_t | K_apar_dc | K_apar_df | K_apar_m | K_apar_r
| K_apar_f | K_apar_c | K_apar_un | K_apar_an | K_apar_au | K_apar_am
| K_xaid | K_aamt | K_arcv | K_aclose | K_asnd
| K_faid | K_afrz | K_fadd
| K_apid | K_apan | K_apaa | K_apat | K_apas | K_apfa | K_apbx | K_apap
| K_apsu | K_apls | K_apls_nui | K_apls_nbs | K_apgs | K_apgs_nui
| K_apgs_nbs | K_apep
| K_sptype | K_spmsg | K_sp.

Definition inApar {A} (o : Enc.EncodedTransaction)
    (field : Enc.EncodedAssetParams -> option A) : bool :=
  match Enc.apar o with Some apar => isSome (field apar) | None => false end.

Definition inSchema {A} (schema : option Enc.EncodedStateSchema)
    (field : Enc.EncodedStateSchema -> option A) : bool :=
  match schema with Some x => isSome (field x) | None => false end.

(** Whether the encoded object has the key ([lv], [type] and [gh] are not
    optional in the encoded form). *)
Definition key_present (k : Key) (o : Enc.EncodedTransaction) : bool :=
  match k with
  | K_fee => isSome (Enc.fee o) | K_fv => isSome (Enc.fv o)
  | K_lv => true | K_note => isSome (Enc.note o)
  | K_snd => isSome (Enc.snd o) | K_type => true
  | K_gen => isSome (Enc.gen o) | K_gh => true
  | K_lx => isSome (Enc.lx o) | K_grp => isSome (Enc.grp o)
  | K_rekey => isSome (Enc.rekey o)
  | K_amt => isSome (Enc.amt o) | K_rcv => isSome (Enc.rcv o)
  | K_close => isSome (Enc.close o)
  | K_votekey => isSome (Enc.votekey o) | K_selkey => isSome (Enc.selkey o)
  | K_sprfkey => isSome (Enc.sprfkey o) | K_votefst => isSome (Enc.votefst o)
  | K_votelst => isSome (Enc.votelst o) | K_votekd => isSome (Enc.votekd o)
  | K_nonpart => isSome (Enc.nonpart o)
  | K_caid => isSome (Enc.caid o) | K_apar => isSome (Enc.apar o)
  | K_apar_t => inApar o Enc.t | K_apar_dc => inApar o Enc.dc
  | K_apar_df => inApar o Enc.df | K_apar_m => inApar o Enc.m
  | K_apar_r => inApar o Enc.r | K_apar_f => inApar o Enc.f
  | K_apar_c => inApar o Enc.c | K_apar_un => inApar o Enc.un
  | K_apar_an => inApar o Enc.an | K_apar_au => inApar o Enc.au
  | K_apar_am => inApar o Enc.am
  | K_xaid => isSome (Enc.xaid o) | K_aamt => isSome (Enc.aamt o)
  | K_arcv => isSome (Enc.arcv o) | K_aclose => isSome (Enc.aclose o)
  | K_asnd => isSome (Enc.asnd o)
  | K_faid => isSome (Enc.faid o) | K_afrz => isSome (Enc.afrz o)
  | K_fadd => isSome (Enc.fadd o)
  | K_apid => isSome (Enc.apid o) | K_apan => isSome (Enc.apan o)
  | K_apaa => isSome (Enc.apaa o) | K_apat => isSome (Enc.apat o)
  | K_apas => isSome (Enc.apas o) | K_apfa => isSome (Enc.apfa o)
  | K_apbx => isSome (Enc.apbx o) | K_apap => isSome (Enc.apap o)
  | K_apsu => isSome (Enc.apsu o)
  | K_apls => isSome (Enc.apls o)
  | K_apls_nui => inSchema (Enc.apls o) Enc.nui
  | K_apls_nbs => inSchema (Enc.apls o) Enc.nbs
  | K_apgs => isSome (Enc.apgs o)
  | K_apgs_nui => inSchema (Enc.apgs o) Enc.nui
  | K_apgs_nbs => inSchema (Enc.apgs o) Enc.nbs
  | K_apep => isSome (Enc.apep o)
  | K_sptype => isSome (Enc.sptype o) | K_spmsg => isSome (Enc.spmsg o)
  | K_sp => isSome (Enc.sp o)
  end.

(** Defaults: zero for integers, empty for byte strings, texts and arrays,
    all-zero for addresses, false for booleans; an absent optional value is
    at its default. *)
Definition default_Z (x : Z) : bool := x =? 0.
Definition default_bytes (b : bytes) : bool :=
  match b with [] => true | _ => false end.
Definition default_list {A} (l : list A) : bool :=
  match l with [] => true | _ => false end.
Definition default_string (str : string) : bool := String.eqb str "".
Definition default_bool (b : bool) : bool := negb b.
Definition default_address (a : Address) : bool :=
  uint8ArrayIsEmpty (publicKey a).
Definition default_opt {A} (default : A -> bool) (o : option A) : bool :=
  match o with Some x => default x | None => true end.

(** Whether the field of the transaction that feeds key [k] holds its
    default; a field of a type-specific record that the transaction does not
    have counts as holding it. *)
Definition field_holds_default (k : Key) (txn : Transaction) : bool :=
  let pay {A} (field : PaymentTransactionFields -> A) d :=
    default_opt (fun x => d (field x)) (payment txn) in
  let kr {A} (field : KeyRegistrationTransactionFields -> A) d :=
    default_opt (fun x => d (field x)) (keyreg txn) in
  let ac {A} (field : AssetConfigTransactionFields -> A) d :=
    default_opt (fun x => d (field x)) (assetConfig txn) in
  let ax {A} (field : AssetTransferTransactionFields -> A) d :=
    default_opt (fun x => d (field x)) (assetTransfer txn) in
  let af {A} (field : AssetFreezeTransactionFields -> A) d :=
    default_opt (fun x => d (field x)) (assetFreeze txn) in
  let ap {A} (field : ApplicationTransactionFields -> A) d :=
    default_opt (fun x => d (field x)) (applicationCall txn) in
  let stp {A} (field : StateProofTransactionFields -> A) d :=
    default_opt (fun x => d (field x)) (stateProof txn) in
  match k with
  | K_fee => default_Z (fee txn) | K_fv => default_Z (firstValid txn)
  | K_lv => default_Z (lastValid txn) | K_note => default_bytes (note txn)
  | K_snd => default_address (sender txn)
  | K_type => default_string (type txn)
  | K_gen => default_opt default_string (genesisID txn)
  | K_gh => default_bytes (genesisHash txn)
  | K_lx => default_opt default_bytes (lease txn)
  | K_grp => default_bytes (group txn)
  | K_rekey => default_opt default_address (rekeyTo txn)
  | K_amt => pay pay_amount default_Z
  | K_rcv => pay pay_receiver default_address
  | K_close => pay pay_closeRemainderTo (default_opt default_address)
  | K_votekey => kr kr_voteKey (default_opt default_bytes)
  | K_selkey => kr kr_selectionKey (default_opt default_bytes)
  | K_sprfkey => kr kr_stateProofKey (default_opt default_bytes)
  | K_votefst => kr kr_voteFirst (default_opt default_Z)
  | K_votelst => kr kr_voteLast (default_opt default_Z)
  | K_votekd => kr kr_voteKeyDilution (default_opt default_Z)
  | K_nonpart => kr kr_nonParticipation default_bool
  | K_caid => ac ac_assetId default_Z
  | K_apar =>
      ac ac_assetTotal default_Z && ac ac_assetDecimals default_Z
      && ac ac_assetDefaultFrozen default_bool
      && ac ac_assetManager (default_opt default_address)
      && ac ac_assetReserve (default_opt default_address)
      && ac ac_assetFreeze (default_opt default_address)
      && ac ac_assetClawback (default_opt default_address)
      && ac ac_assetUnitName default_string
      && ac ac_assetName default_string && ac ac_assetURL default_string
      && ac ac_assetMetadataHash (default_opt default_bytes)
  | K_apar_t => ac ac_assetTotal default_Z
  | K_apar_dc => ac ac_assetDecimals default_Z
  | K_apar_df => ac ac_assetDefaultFrozen default_bool
  | K_apar_m => ac ac_assetManager (default_opt default_address)
  | K_apar_r => ac ac_assetReserve (default_opt default_address)
  | K_apar_f => ac ac_assetFreeze (default_opt default_address)
  | K_apar_c => ac ac_assetClawback (default_opt default_address)
  | K_apar_un => ac ac_assetUnitName default_string
  | K_apar_an => ac ac_assetName default_string
  | K_apar_au => ac ac_assetURL default_string
  | K_apar_am => ac ac_assetMetadataHash (default_opt default_bytes)
  | K_xaid => ax ax_assetId default_Z | K_aamt => ax ax_amount default_Z
  | K_arcv => ax ax_receiver default_address
  | K_aclose => ax ax_closeRemainderTo (default_opt default_address)
  | K_asnd => ax ax_sender (default_opt default_address)
  | K_faid => af af_assetId default_Z
  | K_afrz => af af_assetFrozen default_bool
  | K_fadd => af af_freezeAccount default_address
  | K_apid => ap ap_appId default_Z | K_apan => ap ap_appOnComplete default_Z
  | K_apaa => ap ap_appArgs default_list
  | K_apat => ap ap_appAccounts default_list
  | K_apas => ap ap_appForeignAssets default_list
  | K_apfa => ap ap_appForeignApps default_list
  | K_apbx => ap ap_boxes default_list
  | K_apap => ap ap_appApprovalProgram default_bytes
  | K_apsu => ap ap_appClearProgram default_bytes
  | K_apls =>
      ap ap_appLocalInts default_Z && ap ap_appLocalByteSlices default_Z
  | K_apls_nui => ap ap_appLocalInts default_Z
  | K_apls_nbs => ap ap_appLocalByteSlices default_Z
  | K_apgs =>
      ap ap_appGlobalInts default_Z && ap ap_appGlobalByteSlices default_Z
  | K_apgs_nui => ap ap_appGlobalInts default_Z
  | K_apgs_nbs => ap ap_appGlobalByteSlices default_Z
  | K_apep => ap ap_extraPages default_Z
  | K_sptype => stp stpf_stateProofType default_Z
  | K_spmsg => stp stpf_stateProofMessage default_bytes
  | K_sp => stp stpf_stateProof default_bytes
  end.

(** The keys the encoder writes without looking at the value. *)
Definition always_emitted (k : Key) : bool :=
  match k with
  | K_type | K_gh | K_lv | K_spmsg | K_sp => true
  | _ => false
  end.

(** An optional value that is set is not at its default. *)
Definition set_not_default {A} (default : A -> bool) (o : option A) : Prop :=
  forall x, o = Some x -> default x = false.

(** What construction guarantees about the optional fields: there is no
    empty lease, key or metadata hash, and no zero address in an optional
    slot. *)
Definition presence_meaningful (txn : Transaction) : Prop :=
  set_not_default default_bytes (lease txn)
  /\ set_not_default default_address (rekeyTo txn)
  /\ (forall p, payment txn = Some p ->
        set_not_default default_address (pay_closeRemainderTo p))
  /\ (forall kr, keyreg txn = Some kr ->
        set_not_default default_bytes (kr_voteKey kr)
        /\ set_not_default default_bytes (kr_selectionKey kr)
        /\ set_not_default default_bytes (kr_stateProofKey kr))
  /\ (forall ac, assetConfig txn = Some ac ->
        set_not_default default_address (ac_assetManager ac)
        /\ set_not_default default_address (ac_assetReserve ac)
        /\ set_not_default default_address (ac_assetFreeze ac)
        /\ set_not_default default_address (ac_assetClawback ac)
        /\ set_not_default default_bytes (ac_assetMetadataHash ac))
  /\ (forall ax, assetTransfer txn = Some ax ->
        set_not_default default_address (ax_sender ax)
        /\ set_not_default default_address (ax_closeRemainderTo ax)).

(** The block of [get_obj_for_encoding] that writes a key. *)
Inductive KeyGroup :=
| G_common | G_pay | G_keyreg | G_acfg | G_axfer | G_afrz | G_appl | G_stpf.

Definition key_group (k : Key) : KeyGroup :=
  match k with
  | K_fee | K_fv | K_lv | K_note | K_snd | K_type | K_gen | K_gh | K_lx
  | K_grp | K_rekey => G_common
  | K_amt | K_rcv | K_close => G_pay
  | K_votekey | K_selkey | K_sprfkey | K_votefst | K_votelst | K_votekd
  | K_nonpart => G_keyreg
  | K_caid | K_apar | K_apar_t | K_apar_dc | K_apar_df | K_apar_m | K_apar_r
  | K_apar_f | K_apar_c | K_apar_un | K_apar_an | K_apar_au | K_apar_am =>
      G_acfg
  | K_xaid | K_aamt | K_arcv | K_aclose | K_asnd => G_axfer
  | K_faid | K_afrz | K_fadd => G_afrz
  | K_apid | K_apan | K_apaa | K_apat | K_apas | K_apfa | K_apbx | K_apap
  | K_apsu | K_apls | K_apls_nui | K_apls_nbs | K_apgs | K_apgs_nui
  | K_apgs_nbs | K_apep => G_appl
  | K_sptype | K_spmsg | K_sp => G_stpf
  end.

(** *** Merging multisig blobs *)

(** The signature carried by a slot of a [subsig] array, if any. *)
Definition sig_at (subsigs : list Enc.EncodedSubsig) (slot : nat)
  : option bytes :=
  match nth_error subsigs slot with
  | Some subsig => Enc.s subsig
  | None => None
  end.

Definition blob_sig_at (signedTxn : Enc.EncodedSignedTransaction) (slot : nat)
  : option bytes :=
  match Enc.msig signedTxn with
  | Some msig => sig_at (Enc.subsig msig) slot
  | None => None
  end.

(** The slot signatures of a signed transaction, in slot order. *)
Definition slot_signatures (signedTxn : Enc.EncodedSignedTransaction)
  : list (option bytes) :=
  match Enc.msig signedTxn with
  | Some msig => map Enc.s (Enc.subsig msig)
  | None => []
  end.

(** The slot signatures the decoder finds in a blob. *)
Definition blob_signatures (blob : bytes) : result (list (option bytes)) :=
  signedTxn <- decode_signed blob ;; Ok (slot_signatures signedTxn).

(** [blob] is the encoding of a signed transaction whose slot signatures
    are [sigs], in slot order; they are the signatures the decoder finds in
    the blob when the codec reads that encoding back. *)
Definition blob_carries (blob : bytes) (sigs : list (option bytes)) : Prop :=
  exists signedTxn,
    blob = encode_signed signedTxn
    /\ slot_signatures signedTxn = sigs
    /\ (decode_signed blob = Ok signedTxn -> blob_signatures blob = Ok sigs).

(** The transaction ID of the transaction inside a decoded blob, computed as
    the merge does: decode the transaction, then take its [txID]. *)
Definition blob_txID (signedTxn : Enc.EncodedSignedTransaction)
  : result string :=
  txn <- from_obj_for_encoding (Enc.txn signedTxn) ;; txID txn.

(** The blob at position [index] decodes to [signedTxn]. *)
Definition decodes_at (blobs : list bytes) (index : nat)
    (signedTxn : Enc.EncodedSignedTransaction) : Prop :=
  exists blob, nth_error blobs index = Some blob
               /\ decode_signed blob = Ok signedTxn.

(** The situations in which a merge must be refused.  The auth-address of a
    blob is the address text of its [sgnr], absent when there is no [sgnr]. *)
Inductive merge_rejection (blobs : list bytes) : Prop :=
| fewer_than_two :
    (List.length blobs < 2)%nat -> merge_rejection blobs
| msig_missing index signedTxn :
    decodes_at blobs index signedTxn ->
    Enc.msig signedTxn = None ->
    merge_rejection blobs
| txID_differs index first signedTxn :
    decodes_at blobs 0 first ->
    decodes_at blobs index signedTxn ->
    blob_txID signedTxn <> blob_txID first ->
    merge_rejection blobs
| authAddr_differs index first signedTxn :
    decodes_at blobs 0 first ->
    decodes_at blobs index signedTxn ->
    authAddrOf signedTxn <> authAddrOf first ->
    merge_rejection blobs
| preimage_differs index first signedTxn firstMsig msig :
    decodes_at blobs 0 first ->
    decodes_at blobs index signedTxn ->
    Enc.msig first = Some firstMsig ->
    Enc.msig signedTxn = Some msig ->
    List.length (Enc.subsig msig) <> List.length (Enc.subsig firstMsig)
    \/ msigAddrOf msig <> msigAddrOf firstMsig ->
    merge_rejection blobs
| signature_conflict i j signedTxn_i signedTxn_j slot sig_i sig_j :
    decodes_at blobs i signedTxn_i ->
    decodes_at blobs j signedTxn_j ->
    blob_sig_at signedTxn_i slot = Some sig_i ->
    blob_sig_at signedTxn_j slot = Some sig_j ->
    sig_i <> sig_j ->
    merge_rejection blobs.

(** What every blob of a successful merge has in common with the first. *)
Definition blob_matches (refTxID : string) (refAuthAddr : option string)
    (refLength : nat) (refMsigAddr : string)
    (signedTxn : Enc.EncodedSignedTransaction) (msig : Enc.EncodedMultisig)
  : Prop :=
  Enc.msig signedTxn = Some msig
  /\ blob_txID signedTxn = Ok refTxID
  /\ authAddrOf signedTxn = refAuthAddr
  /\ List.length (Enc.subsig msig) = refLength
  /\ msigAddrOf msig = Ok refMsigAddr.

(** The blob decodes and carries signature [sg] in slot [slot]. *)
Definition contributes (blob : bytes) (slot : nat) (sg : bytes) : Prop :=
  exists signedTxn, decode_signed blob = Ok signedTxn
                    /\ blob_sig_at signedTxn slot = Some sg.

(** No slot carries two different signatures across the blobs. *)
Definition conflict_free (blobs : list bytes) : Prop :=
  forall blob blob' slot sg sg',
    In blob blobs -> In blob' blobs ->
    contributes blob slot sg -> contributes blob' slot sg' ->
    sg = sg'.

(** Decoding an address text and encoding the key again gives the text
    back (the address codec on the text of a 32-byte key). *)
Definition address_text_roundtrip (text : string) : Prop :=
  forall addr, decodeAddress text = Ok addr ->
               encodeAddress (publicKey addr) = text.

(** *** Round trip through the canonical encoding *)

(** An address whose key has 32 bytes and which the address codec gives
    back from the text of its key (its checksum is the one of the key). *)
Definition canonical_address (a : Address) : Prop :=
  List.length (publicKey a) = 32%nat
  /\ decodeAddress (encodeAddress (publicKey a)) = Ok a.

Definition canonical_opt (o : option Address) : Prop :=
  forall a, o = Some a -> canonical_address a.

Definition addresses_canonical (txn : Transaction) : Prop :=
  canonical_address (sender txn)
  /\ canonical_opt (rekeyTo txn)
  /\ (forall p, payment txn = Some p ->
        canonical_address (pay_receiver p)
        /\ canonical_opt (pay_closeRemainderTo p))
  /\ (forall ac, assetConfig txn = Some ac ->
        canonical_opt (ac_assetManager ac)
        /\ canonical_opt (ac_assetReserve ac)
        /\ canonical_opt (ac_assetFreeze ac)
        /\ canonical_opt (ac_assetClawback ac))
  /\ (forall ax, assetTransfer txn = Some ax ->
        canonical_opt (ax_sender ax)
        /\ canonical_address (ax_receiver ax)
        /\ canonical_opt (ax_closeRemainderTo ax))
  /\ (forall af, assetFreeze txn = Some af ->
        canonical_address (af_freezeAccount af))
  /\ (forall ap, applicationCall txn = Some ap ->
        Forall canonical_address (ap_appAccounts ap)).

(** The zero address text is the text of the all-zero key. *)
Definition zero_address_text : Prop :=
  encodeAddress zeroKey = ALGORAND_ZERO_ADDRESS_STRING.

(** The base64 codec gives the genesis hash back, from a non-empty text. *)
Definition genesisHash_text_roundtrip (hash : bytes) : Prop :=
  bytesToBase64 hash <> "" /\ base64ToBytes (bytesToBase64 hash) = Ok hash.

(** An online key registration with a round or a dilution given as zero is
    left out: the encoder drops the zero and the decoded parameters are then
    refused as an incomplete online registration. *)
Definition keyreg_numbers_nonzero (kr : KeyRegistrationTransactionFields)
  : Prop :=
  kr_voteFirst kr <> Some 0 /\ kr_voteLast kr <> Some 0
  /\ kr_voteKeyDilution kr <> Some 0.

(** A box reference that names its application by 0, or by an application
    listed in [foreignApps] (the called one included, when it is listed). *)
Definition box_reference_stable (ap : ApplicationTransactionFields)
    (box : TransactionBoxReference) : Prop :=
  box_appIndex box = 0 \/ In (box_appIndex box) (ap_appForeignApps ap).

(** What the decoder checks and the constructor does not: the on-completion
    value, which the constructor stores as given, and the index of a box
    reference, which is at most the number of foreign applications, must be
    values that [ensureSafeUnsignedInteger] accepts.  Besides, every box
    reference is stable. *)
Definition application_stable (ap : ApplicationTransactionFields) : Prop :=
  0 <= ap_appOnComplete ap <= safeUnsignedMax
  /\ Z.of_nat (List.length (ap_appForeignApps ap)) <= safeUnsignedMax
  /\ Forall (box_reference_stable ap) (ap_boxes ap).

Definition roundtrip_ready (txn : Transaction) : Prop :=
  addresses_canonical txn
  /\ zero_address_text
  /\ genesisHash_text_roundtrip (genesisHash txn)
  /\ fee txn <= MAX_UINT_64
  /\ (forall kr, keyreg txn = Some kr -> keyreg_numbers_nonzero kr)
  /\ (forall ap, applicationCall txn = Some ap -> application_stable ap).

End Vocabulary.

(** ** Amounts

    [AlgoAmount] holds a number of microAlgos; its only field is private and
    is read through [toMicroAlgos]. *)

Definition MICROALGOS_TO_ALGOS_RATIO : Z := 1000000.

(** [BigInt.prototype.toString()]: decimal digits, a minus sign for a
    negative value. *)
Definition bigintToString (value : Z) : string :=
  DecimalString.NilZero.string_of_int (Z.to_int value).

(** [String.prototype.padStart(targetLength, padString)] for a pad of one
    character. *)
Definition padStart (targetLength : nat) (pad : Ascii.ascii) (str : string)
  : string :=
  string_of_list_ascii
    (repeat pad (targetLength - String.length str)) ++ str.

Record AlgoAmountParams := {
  aa_algos : option Z;
  aa_microAlgos : option Z }.

Record AlgoAmount := { aa_value : Z }.

Definition new_AlgoAmount (params : AlgoAmountParams) : result AlgoAmount :=
  algosBigInt <- ensureUint64 (orElse (aa_algos params) 0) ;;
  microAlgosBigInt <- ensureUint64 (orElse (aa_microAlgos params) 0) ;;
  let microAlgos :=
    algosBigInt * MICROALGOS_TO_ALGOS_RATIO + microAlgosBigInt in
  if microAlgos >? MAX_UINT_64 then
    Err ("MicroAlgos amount is too large: " ++ bigintToString microAlgos)
  else Ok {| aa_value := microAlgos |}.

Definition toMicroAlgos (this : AlgoAmount) : Z := aa_value this.

Definition wholeAlgosOnly (this : AlgoAmount) : Z :=
  Z.quot (aa_value this) MICROALGOS_TO_ALGOS_RATIO.

Definition microAlgosOnly (this : AlgoAmount) : Z :=
  Z.rem (aa_value this) MICROALGOS_TO_ALGOS_RATIO.

Definition AlgoAmount_toString (this : AlgoAmount) : string :=
  bigintToString (wholeAlgosOnly this) ++ "."
  ++ padStart 6 (Ascii.ascii_of_byte "0"%byte) (bigintToString (microAlgosOnly this)).

(** ** Signing, and building multisig blobs

    The remaining collaborators: the Ed25519 signing primitives of the
    [nacl] wrapper and the msgpack decoder read at the type of a bare
    transaction. *)

Class SigningExternals := {
  nacl_sign : bytes -> bytes -> result bytes;
  keyPairFromSecretKey : bytes -> result bytes;
  isValidSignatureLength : nat -> bool;
  bytesEqual : bytes -> bytes -> bool;
  decode_transaction : bytes -> result Enc.EncodedTransaction }.

(** The decoded form of a signed transaction ([SignedTransaction]). *)
Record SignedTransaction := {
  st_sig : option bytes;
  st_txn : Transaction;
  st_msig : option Enc.EncodedMultisig;
  st_lsig : option bytes;
  st_sgnr : option bytes }.

Record MultisigMetadata := {
  mm_version : Z;
  mm_threshold : Z;
  mm_addrs : list string }.

Record MultisigMetadataWithPks := {
  mp_version : Z;
  mp_threshold : Z;
  mp_pks : list bytes }.

Definition MULTISIG_KEY_NOT_EXIST_ERROR_MSG : string := "Key does not exist".
Definition MULTISIG_SIGNATURE_LENGTH_ERROR_MSG : string :=
  "Cannot add multisig signature. Signature is not of the correct length.".

Section Signing.

Context {E : Externals} {S : SigningExternals}.

Definition rawSignTxn (this : Transaction) (sk : bytes) : result bytes :=
  toBeSigned <- bytesToSign this ;;
  nacl_sign toBeSigned sk.

(** [signTxn] up to, and without, the final [encoding.encode(sTxn)]. *)
Definition signTxn_sTxn (this : Transaction) (sk : bytes)
  : result Enc.EncodedSignedTransaction :=
  sig_ <- rawSignTxn this sk ;;
  txn_ <- get_obj_for_encoding this ;;
  pubKeyFromSk <- keyPairFromSecretKey sk ;;
  Ok {| Enc.sig := Some sig_; Enc.txn := txn_;
        Enc.msig := None; Enc.lsig := None;
        Enc.sgnr :=
          if negb (String.eqb (encodeAddress pubKeyFromSk)
                     (encodeAddress (publicKey (sender this))))
          then Some pubKeyFromSk else None |}.

Definition signTxn (this : Transaction) (sk : bytes) : result bytes :=
  sTxn <- signTxn_sTxn this sk ;; Ok (encode_signed sTxn).

(** [attachSignature] up to, and without, the final encoding. *)
Definition attachSignature_sTxn (this : Transaction) (signerAddr : string)
    (signature : bytes) : result Enc.EncodedSignedTransaction :=
  if negb (isValidSignatureLength (List.length signature)) then
    Err "Invalid signature length"
  else
  txn_ <- get_obj_for_encoding this ;;
  sgnr_ <- (if negb (String.eqb signerAddr
                       (encodeAddress (publicKey (sender this))))
            then signer <- decodeAddress signerAddr ;;
                 Ok (Some (publicKey signer))
            else Ok None) ;;
  Ok {| Enc.sig := Some signature; Enc.txn := txn_;
        Enc.msig := None; Enc.lsig := None; Enc.sgnr := sgnr_ |}.

Definition attachSignature (this : Transaction) (signerAddr : string)
    (signature : bytes) : result bytes :=
  sTxn <- attachSignature_sTxn this signerAddr signature ;;
  Ok (encode_signed sTxn).

Definition encodeUnsignedSimulateTransaction (transactionObject : Transaction)
  : result bytes :=
  txn_ <- get_obj_for_encoding transactionObject ;;
  Ok (encode_signed {| Enc.sig := None; Enc.txn := txn_; Enc.msig := None;
                       Enc.lsig := None; Enc.sgnr := None |}).

Definition encodeUnsignedTransaction (transactionObject : Transaction)
  : result bytes :=
  objToEncode <- get_obj_for_encoding transactionObject ;;
  encode_transaction objToEncode.

Definition decodeUnsignedTransaction (transactionBuffer : bytes)
  : result Transaction :=
  partlyDecodedObject <- decode_transaction transactionBuffer ;;
  from_obj_for_encoding partlyDecodedObject.

Definition decodeSignedTransaction (transactionBuffer : bytes)
  : result SignedTransaction :=
  stxnDecoded <- decode_signed transactionBuffer ;;
  txn_ <- from_obj_for_encoding (Enc.txn stxnDecoded) ;;
  Ok {| st_sig := Enc.sig stxnDecoded; st_txn := txn_;
        st_msig := Enc.msig stxnDecoded; st_lsig := Enc.lsig stxnDecoded;
        st_sgnr := Enc.sgnr stxnDecoded |}.

(** [addrs.map((addr) => address.decodeAddress(addr).publicKey)] *)
Definition publicKeysOf (addrs : list string) : result (list bytes) :=
  mapM (fun addr => a <- decodeAddress addr ;; Ok (publicKey a)) addrs.

(** [txnForEncoding.snd ? encodeAddress(snd) : ALGORAND_ZERO_ADDRESS_STRING] *)
Definition senderAddrOf (txnForEncoding : Enc.EncodedTransaction) : string :=
  match Enc.snd txnForEncoding with
  | Some snd_ => encodeAddress snd_
  | None => ALGORAND_ZERO_ADDRESS_STRING
  end.

(** [createMultisigTransaction] up to, and without, the final encoding. *)
Definition createMultisigTransaction_signedTxn (txn : Transaction)
    (metadata : MultisigMetadata) : result Enc.EncodedSignedTransaction :=
  let version := mm_version metadata in
  let threshold := mm_threshold metadata in
  pks <- publicKeysOf (mm_addrs metadata) ;;
  let subsigs := map (fun pk_ => {| Enc.pk := pk_; Enc.s := None |}) pks in
  let msig_ := {| Enc.v := version; Enc.thr := threshold;
                  Enc.subsig := subsigs |} in
  txnForEncoding <- get_obj_for_encoding txn ;;
  msigAddr <- fromMultisigPreImg version threshold pks ;;
  let senderAddr := senderAddrOf txnForEncoding in
  Ok {| Enc.msig := Some msig_; Enc.txn := txnForEncoding;
        Enc.sig := None; Enc.lsig := None;
        Enc.sgnr := if negb (String.eqb senderAddr (encodeAddress msigAddr))
                    then Some msigAddr else None |}.

Definition createMultisigTransaction (txn : Transaction)
    (metadata : MultisigMetadata) : result bytes :=
  signedTxn <- createMultisigTransaction_signedTxn txn metadata ;;
  Ok (encode_signed signedTxn).

(** The callback of [signedTxn.msig.subsig.forEach]: a slot whose key is
    [myPk] receives [rawSig]. *)
Definition signSlot (myPk rawSig : bytes) (subsig : Enc.EncodedSubsig)
  : Enc.EncodedSubsig :=
  if bytesEqual (Enc.pk subsig) myPk then
    {| Enc.pk := Enc.pk subsig; Enc.s := Some rawSig |}
  else subsig.

(** [createMultisigTransactionWithSignature] up to, and without, the final
    encoding. *)
Definition createMultisigTransactionWithSignature_signedTxn
    (txn : Transaction) (rawSig myPk : bytes)
    (metadata : MultisigMetadataWithPks)
  : result Enc.EncodedSignedTransaction :=
  let version := mp_version metadata in
  let threshold := mp_threshold metadata in
  let pks := mp_pks metadata in
  encodedMsig <- createMultisigTransaction txn
                   {| mm_version := version; mm_threshold := threshold;
                      mm_addrs := map encodeAddress pks |} ;;
  signedTxn <- decode_signed encodedMsig ;;
  match Enc.msig signedTxn with
  | None => Err "TypeError: signedTxn.msig is undefined"
  | Some msig_ =>
      let keyExist :=
        existsb (fun subsig => bytesEqual (Enc.pk subsig) myPk)
          (Enc.subsig msig_) in
      let subsigs := map (signSlot myPk rawSig) (Enc.subsig msig_) in
      if negb keyExist then Err MULTISIG_KEY_NOT_EXIST_ERROR_MSG
      else
      msigAddr <- fromMultisigPreImg version threshold pks ;;
      let senderAddr := senderAddrOf (Enc.txn signedTxn) in
      Ok {| Enc.msig := Some {| Enc.v := Enc.v msig_;
                                Enc.thr := Enc.thr msig_;
                                Enc.subsig := subsigs |};
            Enc.txn := Enc.txn signedTxn;
            Enc.sig := Enc.sig signedTxn; Enc.lsig := Enc.lsig signedTxn;
            Enc.sgnr := if negb (String.eqb senderAddr
                                   (encodeAddress msigAddr))
                        then Some msigAddr else Enc.sgnr signedTxn |}
  end.

Definition createMultisigTransactionWithSignature
    (txn : Transaction) (rawSig myPk : bytes)
    (metadata : MultisigMetadataWithPks) : result bytes :=
  signedTxn <- createMultisigTransactionWithSignature_signedTxn
                 txn rawSig myPk metadata ;;
  Ok (encode_signed signedTxn).

Definition partialSignTxn (transaction : Transaction)
    (metadata : MultisigMetadataWithPks) (sk : bytes) : result bytes :=
  myPk <- keyPairFromSecretKey sk ;;
  rawSig <- rawSignTxn transaction sk ;;
  createMultisigTransactionWithSignature transaction rawSig myPk metadata.

Definition partialSignWithMultisigSignature (transaction : Transaction)
    (metadata : MultisigMetadataWithPks) (signerAddr : string)
    (signature : bytes) : result bytes :=
  if negb (isValidSignatureLength (List.length signature)) then
    Err MULTISIG_SIGNATURE_LENGTH_ERROR_MSG
  else
  signer <- decodeAddress signerAddr ;;
  createMultisigTransactionWithSignature transaction signature
    (publicKey signer) metadata.

Definition withPks (metadata : MultisigMetadata) (pks : list bytes)
  : MultisigMetadataWithPks :=
  {| mp_version := mm_version metadata; mp_threshold := mm_threshold metadata;
     mp_pks := pks |}.

(** The functions below return [{ txID, blob }]. *)
Definition signMultisigTransaction (txn : Transaction)
    (metadata : MultisigMetadata) (sk : bytes) : result (string * bytes) :=
  pks <- publicKeysOf (mm_addrs metadata) ;;
  blob <- partialSignTxn txn (withPks metadata pks) sk ;;
  txID_ <- txID txn ;;
  Ok (txID_, blob).

Definition appendSignMultisigTransaction (multisigTxnBlob : bytes)
    (metadata : MultisigMetadata) (sk : bytes) : result (string * bytes) :=
  pks <- publicKeysOf (mm_addrs metadata) ;;
  multisigTxObj <- decode_signed multisigTxnBlob ;;
  msigTxn <- from_obj_for_encoding (Enc.txn multisigTxObj) ;;
  partialSignedBlob <- partialSignTxn msigTxn (withPks metadata pks) sk ;;
  txID_ <- txID msigTxn ;;
  blob <- mergeMultisigTransactions [multisigTxnBlob; partialSignedBlob] ;;
  Ok (txID_, blob).

Definition appendSignRawMultisigSignature (multisigTxnBlob : bytes)
    (metadata : MultisigMetadata) (signerAddr : string) (signature : bytes)
  : result (string * bytes) :=
  pks <- publicKeysOf (mm_addrs metadata) ;;
  multisigTxObj <- decode_signed multisigTxnBlob ;;
  msigTxn <- from_obj_for_encoding (Enc.txn multisigTxObj) ;;
  partialSignedBlob <- partialSignWithMultisigSignature msigTxn
                         (withPks metadata pks) signerAddr signature ;;
  txID_ <- txID msigTxn ;;
  blob <- mergeMultisigTransactions [multisigTxnBlob; partialSignedBlob] ;;
  Ok (txID_, blob).

End Signing.

(** ** An executable instance with a signed-transaction codec that reads
       back what it wrote

    The encoded form is a sequence of length-prefixed fields: the signature,
    the auth-address, and the multisig record with its slots.  The
    transaction inside is not written; the decoder supplies the sample
    payment.  The address of a multisig is taken to be the first 32 bytes
    of its keys. *)

Module SigningSample.

Definition enc_bytes (b : bytes) : bytes :=
  orElse (Byte.of_nat (List.length b)) x00 :: b.

Definition dec_bytes (l : bytes) : option (bytes * bytes) :=
  match l with
  | [] => None
  | n :: rest =>
      if (Byte.to_nat n <=? List.length rest)%nat then
        Some (firstn (Byte.to_nat n) rest, skipn (Byte.to_nat n) rest)
      else None
  end.

Definition enc_opt (o : option bytes) : bytes :=
  match o with
  | None => [x00]
  | Some b => x01 :: enc_bytes b
  end.

Definition dec_opt (l : bytes) : option (option bytes * bytes) :=
  match l with
  | tag :: rest =>
      if Byte.eqb tag x00 then Some (None, rest)
      else match dec_bytes rest with
           | Some (b, rest') => Some (Some b, rest')
           | None => None
           end
  | [] => None
  end.

Definition enc_slot (subsig : Enc.EncodedSubsig) : bytes :=
  (enc_bytes (Enc.pk subsig) ++ enc_opt (Enc.s subsig))%list.

Fixpoint dec_slots (count : nat) (l : bytes)
  : option (list Enc.EncodedSubsig) :=
  match count with
  | O => Some []
  | Datatypes.S count' =>
      match dec_bytes l with
      | Some (pk_, rest) =>
          match dec_opt rest with
          | Some (s_, rest') =>
              match dec_slots count' rest' with
              | Some slots => Some ({| Enc.pk := pk_; Enc.s := s_ |} :: slots)
              | None => None
              end
          | None => None
          end
      | None => None
      end
  end.

Definition byte_of_Z (z : Z) : byte := orElse (Byte.of_nat (Z.to_nat z)) x00.
Definition Z_of_byte (b : byte) : Z := Z.of_nat (Byte.to_nat b).

Definition pack_signed (signedTxn : Enc.EncodedSignedTransaction) : bytes :=
  (enc_opt (Enc.sig signedTxn) ++ enc_opt (Enc.sgnr signedTxn)
   ++ match Enc.msig signedTxn with
      | None => [x00]
      | Some msig_ =>
          x01 :: byte_of_Z (Enc.v msig_) :: byte_of_Z (Enc.thr msig_)
          :: orElse (Byte.of_nat (List.length (Enc.subsig msig_))) x00
          :: List.concat (map enc_slot (Enc.subsig msig_))
      end)%list.

Definition unpack_signed (blob : bytes)
  : result Enc.EncodedSignedTransaction :=
  match dec_opt blob with
  | None => Err "nothing to decode"
  | Some (sig_, rest) =>
      match dec_opt rest with
      | None => Err "nothing to decode"
      | Some (sgnr_, rest') =>
          let signed msig_ :=
            {| Enc.sig := sig_; Enc.txn := Sample.encoded_payment None None;
               Enc.msig := msig_; Enc.lsig := None; Enc.sgnr := sgnr_ |} in
          match rest' with
          | tag :: v_ :: thr_ :: count :: slots =>
              match dec_slots (Byte.to_nat count) slots with
              | Some subsigs =>
                  Ok (signed (Some {| Enc.v := Z_of_byte v_;
                                      Enc.thr := Z_of_byte thr_;
                                      Enc.subsig := subsigs |}))
              | None => Err "nothing to decode"
              end
          | _ => Ok (signed None)
          end
      end
  end.

(** The transaction codec writes the group and then what the sample codec
    writes; it reads the sample payment back, with the group found. *)
Definition pack_transaction (o : Enc.EncodedTransaction) : bytes :=
  (enc_opt (Enc.grp o) ++ Sample.pack_transaction o)%list.

Definition unpack_transaction (buffer : bytes)
  : result Enc.EncodedTransaction :=
  match dec_opt buffer with
  | Some (grp_, rest) =>
      if arrayEqual rest
           (Sample.pack_transaction (Sample.encoded_payment None None))
      then Ok (Sample.encoded_payment None grp_)
      else Err "nothing to decode"
  | None => Err "nothing to decode"
  end.

#[export] Instance externals : Externals :=
  {| base64ToBytes := fun text => Ok (list_byte_of_string text);
     bytesToBase64 := string_of_list_byte;
     encodeAddress := string_of_list_byte;
     decodeAddress := Sample.parseAddress;
     ALGORAND_ZERO_ADDRESS_STRING := string_of_list_byte Sample.zeroKey;
     fromMultisigPreImg :=
       fun version threshold pks => Ok (firstn 32 (List.concat pks));
     genericHash := fun msg => msg;
     base32_encode := string_of_list_byte;
     nacl_verify := fun msg sg pk_ => arrayEqual sg (pk_ ++ msg)%list;
     encode_transaction :=
       fun o => if Sample.refused o
                then Err "The object contains empty or 0 values"
                else Ok (pack_transaction o);
     encode_signed := pack_signed;
     decode_signed := unpack_signed;
     safeUnsignedMax := 2 ^ 32 - 1 |}.

(** The public key of a secret key is the key itself, and a signature is the
    key followed by the message, which is what [nacl_verify] above accepts. *)
#[export] Instance signing : SigningExternals :=
  {| nacl_sign := fun msg sk => Ok (sk ++ msg)%list;
     keyPairFromSecretKey := fun sk => Ok sk;
     isValidSignatureLength := fun len => Nat.eqb len 64;
     bytesEqual := arrayEqual;
     decode_transaction := unpack_transaction |}.

Definition payment : result Transaction :=
  new_Transaction (E := externals) (Sample.payment_params (Some true) 1000).

(** The sample payment with a lease. *)
Definition payment_with_lease (lease_ : bytes) : TransactionParams :=
  {| p_type := TransactionType.pay;
     p_sender := AddressObject {| publicKey := Sample.key x0a; checksum := [] |};
     p_note := None; p_lease := Some lease_; p_rekeyTo := None;
     p_suggestedParams := Sample.suggested (Some true) 1000;
     p_paymentParams := Some (Sample.payTo x0b 1000);
     p_keyregParams := None; p_assetConfigParams := None;
     p_assetTransferParams := None; p_assetFreezeParams := None;
     p_appCallParams := None; p_stateProofParams := None |}.

(** Parameters announcing a payment that also carry key registration
    fields. *)
Definition two_payloads : TransactionParams :=
  Sample.params_of TransactionType.pay (Sample.suggested (Some true) 1000)
    None (Some (Sample.payTo x0b 1000))
    (Some (Sample.keyreg_votes None (Some 1))) None None.

(** A multisig whose first key is the sample sender's, so that its address
    here is the sender's. *)
Definition metadata_of_sender : MultisigMetadata :=
  {| mm_version := 1; mm_threshold := 1;
     mm_addrs := [string_of_list_byte (Sample.key x0a);
                  string_of_list_byte (Sample.key x0c)] |}.

Definition metadata (threshold : Z) : MultisigMetadata :=
  {| mm_version := 1; mm_threshold := threshold;
     mm_addrs := [string_of_list_byte (Sample.key x0b);
                  string_of_list_byte (Sample.key x0c)] |}.

End SigningSample.

(** ** Vocabulary of the further properties *)

(** The type names of the payloads a transaction holds, in the order the
    constructor fills them. *)
Definition payloadsPresent (txn : Transaction) : list string :=
  ((if isSome (payment txn) then [TransactionType.pay] else [])
   ++ (if isSome (keyreg txn) then [TransactionType.keyreg] else [])
   ++ (if isSome (assetConfig txn) then [TransactionType.acfg] else [])
   ++ (if isSome (assetTransfer txn) then [TransactionType.axfer] else [])
   ++ (if isSome (assetFreeze txn) then [TransactionType.afrz] else [])
   ++ (if isSome (applicationCall txn) then [TransactionType.appl] else [])
   ++ (if isSome (stateProof txn) then [TransactionType.stpf] else []))%list.

Definition uint64 (x : Z) : Prop := 0 <= x <= MAX_UINT_64.

Definition safeUnsigned {E : Externals} (x : Z) : Prop :=
  0 <= x <= safeUnsignedMax.

Definition uint64_opt (o : option Z) : Prop := forall x, o = Some x -> uint64 x.

Definition has_length (n : nat) (o : option bytes) : Prop :=
  forall b, o = Some b -> List.length b = n.

(** The encoded transaction [o] with its [grp] key set to [value], or
    removed. *)
Definition with_grp (o : Enc.EncodedTransaction) (value : option bytes)
  : Enc.EncodedTransaction :=
  {| Enc.fee := Enc.fee o; Enc.fv := Enc.fv o; Enc.lv := Enc.lv o;
     Enc.note := Enc.note o; Enc.snd := Enc.snd o; Enc.type := Enc.type o;
     Enc.gen := Enc.gen o; Enc.gh := Enc.gh o; Enc.lx := Enc.lx o;
     Enc.grp := value; Enc.rekey := Enc.rekey o; Enc.amt := Enc.amt o;
     Enc.rcv := Enc.rcv o; Enc.close := Enc.close o;
     Enc.votekey := Enc.votekey o; Enc.selkey := Enc.selkey o;
     Enc.sprfkey := Enc.sprfkey o; Enc.votefst := Enc.votefst o;
     Enc.votelst := Enc.votelst o; Enc.votekd := Enc.votekd o;
     Enc.nonpart := Enc.nonpart o; Enc.caid := Enc.caid o;
     Enc.apar := Enc.apar o; Enc.xaid := Enc.xaid o; Enc.aamt := Enc.aamt o;
     Enc.arcv := Enc.arcv o; Enc.aclose := Enc.aclose o;
     Enc.asnd := Enc.asnd o; Enc.faid := Enc.faid o; Enc.afrz := Enc.afrz o;
     Enc.fadd := Enc.fadd o; Enc.apid := Enc.apid o; Enc.apan := Enc.apan o;
     Enc.apaa := Enc.apaa o; Enc.apat := Enc.apat o; Enc.apas := Enc.apas o;
     Enc.apfa := Enc.apfa o; Enc.apbx := Enc.apbx o; Enc.apap := Enc.apap o;
     Enc.apsu := Enc.apsu o; Enc.apls := Enc.apls o; Enc.apgs := Enc.apgs o;
     Enc.apep := Enc.apep o; Enc.sptype := Enc.sptype o;
     Enc.spmsg := Enc.spmsg o; Enc.sp := Enc.sp o |}.

Section SigningVocabulary.

Context {E : Externals} {S : SigningExternals}.

(** The address codec gives each of these keys back from its text. *)
Definition keys_read_back (pks : list bytes) : Prop :=
  Forall (fun pk_ => exists a, decodeAddress (encodeAddress pk_) = Ok a
                               /\ publicKey a = pk_) pks.

(** Some key of the list is, for [bytesEqual], the signer's key. *)
Definition key_among (myPk : bytes) (pks : list bytes) : bool :=
  existsb (fun pk_ => bytesEqual pk_ myPk) pks.

(** The slot of key [pk_] once [myPk] has signed: it carries [rawSig] when
    [pk_] is the signer's key and nothing otherwise. *)
Definition slotAfterSigning (myPk rawSig pk_ : bytes) : Enc.EncodedSubsig :=
  {| Enc.pk := pk_;
     Enc.s := if bytesEqual pk_ myPk then Some rawSig else None |}.

(** The metadata [createMultisigTransactionWithSignature] hands to
    [createMultisigTransaction]. *)
Definition metadataOfPks (metadata : MultisigMetadataWithPks)
  : MultisigMetadata :=
  {| mm_version := mp_version metadata;
     mm_threshold := mp_threshold metadata;
     mm_addrs := map encodeAddress (mp_pks metadata) |}.

End SigningVocabulary.

Section CodecVocabulary.

Context {E : Externals}.

(** The msgpack codec reads this signed object back from its encoding. *)
Definition reads_back (signedTxn : Enc.EncodedSignedTransaction) : Prop :=
  decode_signed (encode_signed signedTxn) = Ok signedTxn.

End CodecVocabulary.

(** ** Properties *)

(** Peels one successful step off a hypothesis [H : ... = Ok _]. *)
Ltac ok_step H :=
  match type of H with
  | (match ?c with Ok _ => _ | Err _ => _ end) = Ok _ =>
      let Hc := fresh "Hok" in
      destruct c eqn:Hc; [ | discriminate H ]
  | (if ?c then _ else _) = Ok _ =>
      let Hc := fresh "Hif" in
      destruct c eqn:Hc; [ try discriminate H | try discriminate H ]
  end.

Ltac ok_steps H := repeat ok_step H.

Section ConstructorFacts.

Context {E : Externals}.

Lemma determine_fee_set_fee this suggested t :
  determine_fee this suggested = Ok t -> t = set_fee this (fee t).
Proof.
  unfold determine_fee, ensureBoolean. intros H.
  ok_steps H; injection H as <-; reflexivity.
Qed.

Lemma constructor_fields_inv params this :
  constructor_fields params = Ok this ->
  isTransactionType (p_type params) = true
  /\ type this = p_type params
  /\ ensureAddress (p_sender params) = Ok (sender this)
  /\ note this = orElse (p_note params) []
  /\ optionalFixedLengthByteArray (p_lease params)
       ALGORAND_TRANSACTION_LEASE_LENGTH "lease" = Ok (lease this)
  /\ optionalAddress (p_rekeyTo params) = Ok (rekeyTo this)
  /\ group this = []
  /\ fee this = 0
  /\ ensureUint64 (sp_firstValid (p_suggestedParams params))
     = Ok (firstValid this)
  /\ ensureUint64 (sp_lastValid (p_suggestedParams params))
     = Ok (lastValid this)
  /\ genesisID this = match sp_genesisID (p_suggestedParams params) with
                      | Some g => truthyString g
                      | None => None
                      end
  /\ sp_genesisHash (p_suggestedParams params) <> ""
  /\ base64ToBytes (sp_genesisHash (p_suggestedParams params))
     = Ok (genesisHash this)
  /\ List.length (fieldsPresent params) = 1%nat
  /\ p_type params = hd "" (fieldsPresent params)
  /\ whenPresent (p_paymentParams params) constructor_payment
     = Ok (payment this)
  /\ whenPresent (p_keyregParams params) constructor_keyreg = Ok (keyreg this)
  /\ whenPresent (p_assetConfigParams params) constructor_assetConfig
     = Ok (assetConfig this)
  /\ whenPresent (p_assetTransferParams params) constructor_assetTransfer
     = Ok (assetTransfer this)
  /\ whenPresent (p_assetFreezeParams params) constructor_assetFreeze
     = Ok (assetFreeze this)
  /\ whenPresent (p_appCallParams params) constructor_applicationCall
     = Ok (applicationCall this)
  /\ whenPresent (p_stateProofParams params) constructor_stateProof
     = Ok (stateProof this).
Proof.
  unfold constructor_fields, ensureUint8Array. intros H.
  destruct (isTransactionType (p_type params)) eqn:Hty; [ | discriminate H ].
  cbn [negb] in H.
  ok_steps H. injection H as <-. cbn.
  apply negb_false_iff in Hif0, Hif1.
  apply Nat.eqb_eq in Hif0. apply String.eqb_eq in Hif1.
  apply String.eqb_neq in Hif.
  repeat split; auto.
Qed.

Lemma new_Transaction_inv params t :
  new_Transaction params = Ok t ->
  exists this,
    constructor_fields params = Ok this
    /\ determine_fee this (p_suggestedParams params) = Ok t
    /\ t = set_fee this (fee t).
Proof.
  unfold new_Transaction. intros H. ok_step H.
  eexists; repeat split; eauto using determine_fee_set_fee.
Qed.

Lemma whenPresent_isSome {A B} (body : A -> result B) i o :
  whenPresent i body = Ok o -> isSome o = isSome i.
Proof.
  destruct i as [a|]; cbn.
  - destruct (body a); [ intros [= <-]; reflexivity | discriminate ].
  - intros [= <-]. reflexivity.
Qed.

Lemma payloadsPresent_constructor_fields params this :
  constructor_fields params = Ok this ->
  payloadsPresent this = fieldsPresent params
  /\ fieldsPresent params = [type this]
  /\ isTransactionType (type this) = true.
Proof.
  intros H. apply constructor_fields_inv in H.
  destruct H as (Hvalid & Htype & _ & _ & _ & _ & _ & _ & _ & _ & _ & _ & _
                 & Hlen & Hhd & Hpay & Hkr & Hac & Hax & Haf & Hap & Hstp).
  split; [ | split ].
  - unfold payloadsPresent, fieldsPresent.
    rewrite (whenPresent_isSome _ _ _ Hpay), (whenPresent_isSome _ _ _ Hkr),
      (whenPresent_isSome _ _ _ Hac), (whenPresent_isSome _ _ _ Hax),
      (whenPresent_isSome _ _ _ Haf), (whenPresent_isSome _ _ _ Hap),
      (whenPresent_isSome _ _ _ Hstp).
    reflexivity.
  - rewrite Htype, Hhd.
    destruct (fieldsPresent params) as [|x [|y rest]]; try discriminate Hlen.
    reflexivity.
  - rewrite Htype. exact Hvalid.
Qed.

Lemma payloadsPresent_set_fee this f :
  payloadsPresent (set_fee this f) = payloadsPresent this.
Proof. reflexivity. Qed.

End ConstructorFacts.

(** *** The group field *)

Section GroupField.

Context {E : Externals}.

Lemma new_Transaction_group params t :
  new_Transaction params = Ok t -> group t = [].
Proof.
  intros H. apply new_Transaction_inv in H as (this & Hfields & _ & ->).
  apply constructor_fields_inv in Hfields. cbn. tauto.
Qed.

Lemma from_obj_for_encoding_inv txnForEnc t :
  from_obj_for_encoding txnForEnc = Ok t ->
  exists params txn,
    decode_params txnForEnc = Ok params
    /\ new_Transaction params = Ok txn
    /\ match Enc.grp txnForEnc with
       | Some grp =>
           List.length grp = ALGORAND_TRANSACTION_GROUP_LENGTH
           /\ t = set_group txn grp
       | None => t = txn
       end.
Proof.
  unfold from_obj_for_encoding, ensureUint8Array. intros H.
  destruct (decode_params txnForEnc) as [params|] eqn:Hp; [ | discriminate ].
  destruct (new_Transaction params) as [txn|] eqn:Hn; [ | discriminate ].
  exists params, txn. split; [ reflexivity | split; [ exact Hn | ] ].
  destruct (Enc.grp txnForEnc) as [grp|].
  - destruct (Nat.eqb (List.length grp) ALGORAND_TRANSACTION_GROUP_LENGTH)
      eqn:Hlen; cbn [negb] in H; [ | discriminate ].
    apply Nat.eqb_eq in Hlen. injection H as <-. split; [ exact Hlen | reflexivity ].
  - injection H as <-. reflexivity.
Qed.

(** C10. Right after the constructor returns, [group] is the empty byte
    string (the parameter record has no group to read); the decoder attaches
    a decoded [grp] only when its length is exactly 32 bytes, and leaves the
    group empty when there is no [grp]. *)
Theorem group_empty_after_constructor :
  (forall params t, new_Transaction params = Ok t -> group t = [])
  /\ (forall txnForEnc t,
        from_obj_for_encoding txnForEnc = Ok t ->
        match Enc.grp txnForEnc with
        | Some grp =>
            group t = grp
            /\ List.length grp = ALGORAND_TRANSACTION_GROUP_LENGTH
        | None => group t = []
        end).
Proof.
  split.
  - exact new_Transaction_group.
  - intros txnForEnc t H.
    apply from_obj_for_encoding_inv in H as (params & txn & _ & Hnew & Hgrp).
    destruct (Enc.grp txnForEnc) as [grp|].
    + destruct Hgrp as [Hlen ->]. split; [ reflexivity | exact Hlen ].
    + subst t. eapply new_Transaction_group; eassumption.
Qed.

End GroupField.

Lemma group_empty_after_constructor_witness :
  (exists t,
      new_Transaction (E := Sample.externals)
        (Sample.payment_params (Some true) 1000) = Ok t
      /\ group t = [])
  /\ (exists t,
         from_obj_for_encoding (E := Sample.externals)
           (Sample.encoded_payment None (Some (Sample.key x07))) = Ok t
         /\ group t = Sample.key x07).
Proof.
  split.
  - eexists. split; [ vm_compute; reflexivity | ].
    apply (proj1 (@group_empty_after_constructor Sample.externals)
             (Sample.payment_params (Some true) 1000)).
    vm_compute. reflexivity.
  - eexists. split; [ vm_compute; reflexivity | ].
    apply (proj2 (@group_empty_after_constructor Sample.externals)
             (Sample.encoded_payment None (Some (Sample.key x07)))).
    vm_compute. reflexivity.
Defined.

(** *** Zero address in an optional slot *)

Section ZeroAddress.

Context {E : Externals}.

Lemma uint8ArrayIsEmpty_zeroKey : uint8ArrayIsEmpty zeroKey = true.
Proof. reflexivity. Qed.

Lemma optionalAddress_zero input :
  isZeroAddressInput input -> throws (optionalAddress (Some input)).
Proof.
  unfold throws, optionalAddress.
  destruct input as [text|addr]; cbn [isZeroAddressInput].
  - intros (addr & Hdec & Hz). rewrite Hdec, Hz, uint8ArrayIsEmpty_zeroKey.
    eauto.
  - intros Hz. rewrite Hz, uint8ArrayIsEmpty_zeroKey. eauto.
Qed.

Lemma not_ok_throws {A} (r : result A) :
  (forall a, r <> Ok a) -> throws r.
Proof.
  destruct r as [a|msg]; intros H.
  - exfalso. exact (H a eq_refl).
  - exists msg. reflexivity.
Qed.

Lemma throws_not_ok {A} (r : result A) a : throws r -> r <> Ok a.
Proof. intros [msg ->]. discriminate. Qed.

Lemma whenPresent_Some_inv {A B} (body : A -> result B) a o :
  whenPresent (Some a) body = Ok o -> exists b, body a = Ok b /\ o = Some b.
Proof.
  cbn. destruct (body a) as [b|]; [ | discriminate ].
  intros [= <-]. eauto.
Qed.

(** C9. If any optional Address slot of the parameter record ([rekeyTo],
    payment [closeRemainderTo], asset-config [manager], [reserve], [freeze],
    [clawback], asset-transfer [assetSender], [closeRemainderTo]) holds the
    zero address, the constructor throws. *)
Theorem zero_address_in_optional_slot_throws params input :
  In (Some input) (optionalAddressSlots params) ->
  isZeroAddressInput input ->
  throws (new_Transaction params).
Proof.
  intros Hin Hzero. apply not_ok_throws. intros t Hnew.
  apply new_Transaction_inv in Hnew as (this & Hfields & _ & _).
  apply constructor_fields_inv in Hfields.
  destruct Hfields as (_ & _ & _ & _ & _ & Hrekey & _ & _ & _ & _ & _ & _ & _
                       & _ & _ & Hpay & _ & Hacfg & Haxfer & _).
  pose proof (optionalAddress_zero input Hzero) as Hthrow.
  unfold optionalAddressSlots in Hin.
  repeat (apply in_app_or in Hin as [Hin|Hin]).
  - destruct Hin as [Heq|[]]. rewrite Heq in Hrekey.
    exact (throws_not_ok _ _ Hthrow Hrekey).
  - destruct (p_paymentParams params) as [pp|]; [ | destruct Hin ].
    apply whenPresent_Some_inv in Hpay as (pay & Hpay & _).
    unfold constructor_payment in Hpay. ok_steps Hpay.
    destruct Hin as [Heq|[]]. rewrite Heq in Hok1.
    exact (throws_not_ok _ _ Hthrow Hok1).
  - destruct (p_assetConfigParams params) as [acp|]; [ | destruct Hin ].
    apply whenPresent_Some_inv in Hacfg as (ac & Hac & _).
    unfold constructor_assetConfig in Hac. ok_steps Hac.
    destruct Hin as [Heq|[Heq|[Heq|[Heq|[]]]]];
      [ rewrite Heq in Hok3 | rewrite Heq in Hok4
      | rewrite Heq in Hok5 | rewrite Heq in Hok6 ];
      eapply throws_not_ok; eassumption.
  - destruct (p_assetTransferParams params) as [atp|]; [ | destruct Hin ].
    apply whenPresent_Some_inv in Haxfer as (ax & Hax & _).
    unfold constructor_assetTransfer in Hax. ok_steps Hax.
    destruct Hin as [Heq|[Heq|[]]];
      [ rewrite Heq in Hok1 | rewrite Heq in Hok3 ];
      eapply throws_not_ok; eassumption.
Qed.

End ZeroAddress.

Lemma zero_address_in_optional_slot_throws_witness :
  throws (new_Transaction (E := Sample.externals)
            (Sample.params_of TransactionType.pay
               (Sample.suggested (Some true) 1000)
               (Some (AddressString (string_of_list_byte zeroKey)))
               (Some (Sample.payTo x0b 1000)) None None None)).
Proof.
  apply (@zero_address_in_optional_slot_throws Sample.externals _
           (AddressString (string_of_list_byte zeroKey))).
  - cbn. left. reflexivity.
  - cbn. eexists. split; [ vm_compute; reflexivity | reflexivity ].
Defined.

(** *** Fixed-length byte fields *)

Section FixedLengths.

Context {E : Externals}.

Lemma optionalFixedLengthByteArray_Some input len name out :
  optionalFixedLengthByteArray input len name = Ok (Some out) ->
  input = Some out /\ List.length out = len /\ uint8ArrayIsEmpty out = false.
Proof.
  unfold optionalFixedLengthByteArray, optionalUint8Array.
  destruct input as [b|]; [ | discriminate ].
  destruct (Nat.eqb (List.length b) len) eqn:Hlen; cbn [negb]; [ | discriminate ].
  destruct (uint8ArrayIsEmpty b) eqn:Hz; [ discriminate | ].
  intros [= <-]. apply Nat.eqb_eq in Hlen. auto.
Qed.

Lemma optionalFixedLengthByteArray_wrong_length b len name :
  List.length b <> len ->
  throws (optionalFixedLengthByteArray (Some b) len name).
Proof.
  intros Hlen. unfold optionalFixedLengthByteArray, optionalUint8Array.
  apply Nat.eqb_neq in Hlen. rewrite Hlen. cbn. eexists. reflexivity.
Qed.

Lemma new_Transaction_wrong_lease params l :
  p_lease params = Some l ->
  List.length l <> ALGORAND_TRANSACTION_LEASE_LENGTH ->
  throws (new_Transaction params).
Proof.
  intros Hlease Hlen. apply not_ok_throws. intros t Hnew.
  apply new_Transaction_inv in Hnew as (this & Hfields & _ & _).
  apply constructor_fields_inv in Hfields.
  destruct Hfields as (_ & _ & _ & _ & Hl & _).
  rewrite Hlease in Hl.
  exact (throws_not_ok _ _
           (optionalFixedLengthByteArray_wrong_length l _ "lease" Hlen) Hl).
Qed.

Lemma new_Transaction_wrong_metadataHash params acp h :
  p_assetConfigParams params = Some acp ->
  acp_assetMetadataHash acp = Some h ->
  List.length h <> ASSET_METADATA_HASH_LENGTH ->
  throws (new_Transaction params).
Proof.
  intros Hacp Hh Hlen. apply not_ok_throws. intros t Hnew.
  apply new_Transaction_inv in Hnew as (this & Hfields & _ & _).
  apply constructor_fields_inv in Hfields.
  destruct Hfields as (_ & _ & _ & _ & _ & _ & _ & _ & _ & _ & _ & _ & _
                       & _ & _ & _ & _ & Hacfg & _).
  rewrite Hacp in Hacfg.
  apply whenPresent_Some_inv in Hacfg as (ac & Hac & _).
  unfold constructor_assetConfig in Hac. ok_steps Hac.
  rewrite Hh in Hok7.
  exact (throws_not_ok _ _
           (optionalFixedLengthByteArray_wrong_length h _ "assetMetadataHash"
              Hlen) Hok7).
Qed.

Lemma from_obj_for_encoding_wrong_group txnForEnc grp :
  Enc.grp txnForEnc = Some grp ->
  List.length grp <> ALGORAND_TRANSACTION_GROUP_LENGTH ->
  throws (from_obj_for_encoding txnForEnc).
Proof.
  intros Hgrp Hlen. apply not_ok_throws. intros t Hdec.
  apply from_obj_for_encoding_inv in Hdec as (params & txn & _ & _ & H).
  rewrite Hgrp in H. destruct H as [H _]. contradiction.
Qed.

(** C6, as amended. A constructed transaction has a lease and an asset
    metadata hash of exactly 32 bytes when present, and a group attached by
    the decoder has exactly 32 bytes; construction throws for a lease or a
    metadata hash of another length, and decoding throws for a [grp] of
    another length.  The genesis hash is only required to be given as a
    non-empty text: the transaction holds whatever that text decodes to. *)
Theorem fixed_length_fields :
  (forall params t,
      new_Transaction params = Ok t ->
      (forall l, lease t = Some l ->
                 List.length l = ALGORAND_TRANSACTION_LEASE_LENGTH)
      /\ (forall ac h, assetConfig t = Some ac ->
                       ac_assetMetadataHash ac = Some h ->
                       List.length h = ASSET_METADATA_HASH_LENGTH)
      /\ sp_genesisHash (p_suggestedParams params) <> ""
      /\ base64ToBytes (sp_genesisHash (p_suggestedParams params))
         = Ok (genesisHash t))
  /\ (forall txnForEnc t grp,
         from_obj_for_encoding txnForEnc = Ok t ->
         Enc.grp txnForEnc = Some grp ->
         group t = grp
         /\ List.length (group t) = ALGORAND_TRANSACTION_GROUP_LENGTH)
  /\ (forall params l,
         p_lease params = Some l ->
         List.length l <> ALGORAND_TRANSACTION_LEASE_LENGTH ->
         throws (new_Transaction params))
  /\ (forall params acp h,
         p_assetConfigParams params = Some acp ->
         acp_assetMetadataHash acp = Some h ->
         List.length h <> ASSET_METADATA_HASH_LENGTH ->
         throws (new_Transaction params))
  /\ (forall txnForEnc grp,
         Enc.grp txnForEnc = Some grp ->
         List.length grp <> ALGORAND_TRANSACTION_GROUP_LENGTH ->
         throws (from_obj_for_encoding txnForEnc)).
Proof.
  split; [ | split; [ | split; [ | split ] ] ].
  - intros params t Hnew.
    apply new_Transaction_inv in Hnew as (this & Hfields & _ & ->).
    apply constructor_fields_inv in Hfields. cbn.
    destruct Hfields as (_ & _ & _ & _ & Hl & _ & _ & _ & _ & _ & _ & Hgh
                         & Hb64 & _ & _ & _ & _ & Hacfg & _).
    repeat split; auto.
    + intros l Hlease. rewrite Hlease in Hl.
      apply optionalFixedLengthByteArray_Some in Hl. tauto.
    + intros ac h Hac Hh. rewrite Hac in Hacfg.
      destruct (p_assetConfigParams params) as [acp|]; [ | discriminate ].
      apply whenPresent_Some_inv in Hacfg as (ac' & Hac' & [= <-]).
      unfold constructor_assetConfig in Hac'. ok_steps Hac'.
      injection Hac' as <-. cbn in Hh. subst.
      apply optionalFixedLengthByteArray_Some in Hok7. tauto.
  - intros txnForEnc t grp Hdec Hgrp.
    apply from_obj_for_encoding_inv in Hdec as (params & txn & _ & _ & H).
    rewrite Hgrp in H. destruct H as [Hlen ->]. cbn. auto.
  - exact new_Transaction_wrong_lease.
  - exact new_Transaction_wrong_metadataHash.
  - exact from_obj_for_encoding_wrong_group.
Qed.

End FixedLengths.

(** C6, the claim as stated fails: a genesis hash text that decodes to four
    bytes (to one byte under base64) is accepted, and the constructed
    transaction carries it. *)
Lemma genesisHash_length_unchecked :
  exists t,
    new_Transaction (E := Sample.externals)
      (Sample.params_of TransactionType.pay
         (Sample.suggested_with (Some true) 1000 "AQ==")
         None (Some (Sample.payTo x0b 1000)) None None None) = Ok t
    /\ List.length (genesisHash t) <> 32%nat.
Proof.
  eexists. split; [ vm_compute; reflexivity | ].
  cbn. discriminate.
Qed.

Lemma fixed_length_fields_witness :
  (exists t,
      from_obj_for_encoding (E := Sample.externals)
        (Sample.encoded_payment None (Some (Sample.key x07))) = Ok t
      /\ List.length (group t) = ALGORAND_TRANSACTION_GROUP_LENGTH)
  /\ throws (new_Transaction (E := Sample.externals)
               {| p_type := TransactionType.pay;
                  p_sender := AddressString (string_of_list_byte (Sample.key x0a));
                  p_note := None; p_lease := Some [x01; x02];
                  p_rekeyTo := None;
                  p_suggestedParams := Sample.suggested (Some true) 1000;
                  p_paymentParams := Some (Sample.payTo x0b 1000);
                  p_keyregParams := None; p_assetConfigParams := None;
                  p_assetTransferParams := None; p_assetFreezeParams := None;
                  p_appCallParams := None; p_stateProofParams := None |}).
Proof.
  pose proof (@fixed_length_fields Sample.externals)
    as (_ & Hgroup & Hlease & _ & _).
  split.
  - eexists. split; [ vm_compute; reflexivity | ].
    eapply (Hgroup (Sample.encoded_payment None (Some (Sample.key x07)))).
    + vm_compute. reflexivity.
    + reflexivity.
  - apply (Hlease _ [x01; x02]).
    + reflexivity.
    + cbn. discriminate.
Defined.

(** *** Fee *)

Section Fee.

Context {E : Externals}.

Lemma ensureUint64_Ok value x :
  ensureUint64 value = Ok x -> x = value /\ 0 <= value <= MAX_UINT_64.
Proof.
  unfold ensureUint64.
  destruct ((0 <=? value) && (value <=? MAX_UINT_64)) eqn:Hr; [ | discriminate ].
  intros [= <-]. apply andb_true_iff in Hr as [H1 H2]. lia.
Qed.

(** C4. With [flatFee] true the fee is the suggested fee as given.
    Otherwise the fee is the suggested fee times the estimated size, the
    estimated size being the length of the canonical encoding (of the
    transaction as it stands when the fee is determined, that is with the
    suggested fee in its [fee] field) plus 75; when that product is below
    [minFee] the fee is [minFee]. *)
Theorem fee_determination params t :
  new_Transaction params = Ok t ->
  let suggested := p_suggestedParams params in
  if orElse (sp_flatFee suggested) false then fee t = sp_fee suggested
  else
    exists obj encoded,
      get_obj_for_encoding (set_fee t (sp_fee suggested)) = Ok obj
      /\ encode_transaction obj = Ok encoded
      /\ let estimatedSize :=
           Z.of_nat (List.length encoded) + NUM_ADDL_BYTES_AFTER_SIGNING in
         fee t = if sp_fee suggested * estimatedSize <? sp_minFee suggested
                 then sp_minFee suggested
                 else sp_fee suggested * estimatedSize.
Proof.
  intros Hnew suggested.
  apply new_Transaction_inv in Hnew as (this & _ & Hfee & Ht).
  unfold determine_fee, ensureBoolean in Hfee. fold suggested in Hfee.
  destruct (ensureUint64 (sp_fee suggested)) as [fee0|] eqn:Hfee0;
    [ | discriminate ].
  apply ensureUint64_Ok in Hfee0 as [-> _].
  destruct (orElse (sp_flatFee suggested) false); cbn [negb] in Hfee.
  - injection Hfee as <-. reflexivity.
  - destruct (ensureUint64 (sp_minFee suggested)) as [minFee|] eqn:HminFee;
      [ | discriminate ].
    apply ensureUint64_Ok in HminFee as [-> _].
    unfold estimateSize, toByte in Hfee.
    replace (set_fee t (sp_fee suggested))
      with (set_fee this (sp_fee suggested)) by (rewrite Ht; reflexivity).
    destruct (get_obj_for_encoding (set_fee this (sp_fee suggested)))
      as [obj|] eqn:Hobj; [ | discriminate ].
    destruct (encode_transaction obj) as [encoded|] eqn:Henc;
      [ | discriminate ].
    exists obj, encoded. split; [ reflexivity | ]. split; [ exact Henc | ].
    cbn [fee set_fee] in Hfee. cbv zeta.
    destruct (sp_fee suggested
              * (Z.of_nat (List.length encoded)
                 + NUM_ADDL_BYTES_AFTER_SIGNING) <? sp_minFee suggested);
      injection Hfee as <-; reflexivity.
Qed.

End Fee.

Lemma fee_determination_witness :
  exists t,
    new_Transaction (E := Sample.externals) (Sample.payment_params None 20)
    = Ok t
    /\ exists obj encoded,
         get_obj_for_encoding (set_fee t 20) = Ok obj
         /\ Sample.encode obj = Ok encoded
         /\ fee t =
            if 20 * (Z.of_nat (List.length encoded) + 75) <? 1000
            then 1000
            else 20 * (Z.of_nat (List.length encoded) + 75).
Proof.
  eexists. split; [ vm_compute; reflexivity | ].
  exact (@fee_determination Sample.externals (Sample.payment_params None 20) _
           ltac:(vm_compute; reflexivity)).
Defined.

(** *** Multisig verification *)

Section VerifyMultisig.

Context {E : Externals}.

Lemma arrayEqual_true a b : arrayEqual a b = true <-> a = b.
Proof.
  unfold arrayEqual. destruct (list_eq_dec Byte.byte_eq_dec a b); split;
    congruence.
Qed.

Lemma countSigned_from subsigs acc :
  fold_left (fun counter subsig =>
               if isSome (Enc.s subsig) then counter + 1 else counter)
            subsigs acc
  = acc + Z.of_nat (List.length (filter slot_signed subsigs)).
Proof.
  revert acc. induction subsigs as [|x rest IH]; intros acc; cbn.
  - lia.
  - rewrite IH. unfold slot_signed. destruct (isSome (Enc.s x)); cbn [List.length]; lia.
Qed.

Lemma countVerified_from toBeVerified subsigs acc :
  fold_left (fun verifiedCounter subsig =>
               match Enc.s subsig with
               | Some sg =>
                   if nacl_verify toBeVerified sg (Enc.pk subsig)
                   then verifiedCounter + 1 else verifiedCounter
               | None => verifiedCounter
               end)
            subsigs acc
  = acc + Z.of_nat (List.length (filter (slot_verifies toBeVerified) subsigs)).
Proof.
  revert acc. induction subsigs as [|x rest IH]; intros acc; cbn.
  - lia.
  - rewrite IH. unfold slot_verifies. destruct (Enc.s x) as [sg|].
    + destruct (nacl_verify toBeVerified sg (Enc.pk x)); cbn [List.length]; lia.
    + lia.
Qed.

Lemma countSigned_signed_slots msig :
  countSigned (Enc.subsig msig) = signed_slots msig.
Proof. unfold countSigned, signed_slots. rewrite countSigned_from. lia. Qed.

Lemma countVerified_verified_slots toBeVerified msig :
  countVerified toBeVerified (Enc.subsig msig)
  = verified_slots toBeVerified msig.
Proof.
  unfold countVerified, verified_slots. rewrite countVerified_from. lia.
Qed.

Lemma verified_le_signed toBeVerified msig :
  verified_slots toBeVerified msig <= signed_slots msig.
Proof.
  unfold verified_slots, signed_slots.
  induction (Enc.subsig msig) as [|x rest IH]; cbn; [ lia | ].
  unfold slot_verifies, slot_signed in *.
  destruct (Enc.s x) as [sg|]; cbn.
  - destruct (nacl_verify toBeVerified sg (Enc.pk x)); cbn [List.length]; lia.
  - exact IH.
Qed.

Lemma signed_le_length msig :
  signed_slots msig <= Z.of_nat (List.length (Enc.subsig msig)).
Proof.
  unfold signed_slots.
  induction (Enc.subsig msig) as [|x rest IH]; cbn; [ lia | ].
  destruct (slot_signed x); cbn [List.length]; lia.
Qed.

Lemma all_verify_counts_equal toBeVerified msig :
  every_signed_slot_verifies toBeVerified msig ->
  verified_slots toBeVerified msig = signed_slots msig.
Proof.
  unfold every_signed_slot_verifies, verified_slots, signed_slots.
  induction (Enc.subsig msig) as [|x rest IH]; intros Hall; [ reflexivity | ].
  assert (Z.of_nat (List.length (filter (slot_verifies toBeVerified) rest))
          = Z.of_nat (List.length (filter slot_signed rest))) as Hrest.
  { apply IH. intros y sg' Hin. apply Hall. right. exact Hin. }
  cbn [filter]. unfold slot_verifies at 1, slot_signed at 1.
  destruct (Enc.s x) as [sg|] eqn:Hs; cbn [isSome].
  - rewrite (Hall x sg (or_introl eq_refl) Hs). cbn [List.length]. lia.
  - exact Hrest.
Qed.

(** C2, as amended. [verifyMultisig] returns true exactly when at least
    [thr] slots carry a signature that passes verification against the
    slot's key, and the address derived from the pre-image equals the
    expected key.  A signed slot whose signature fails does not by
    itself make the result false. *)
Theorem verifyMultisig_true_iff toBeVerified msig expected :
  verifyMultisig toBeVerified msig expected = true
  <-> Enc.thr msig <= verified_slots toBeVerified msig
      /\ preimage_address_is msig expected.
Proof.
  unfold verifyMultisig, preimage_address_is.
  rewrite countSigned_signed_slots, countVerified_verified_slots.
  pose proof (verified_le_signed toBeVerified msig) as Hvs.
  pose proof (signed_le_length msig) as Hsl.
  destruct (fromMultisigPreImg (Enc.v msig) (Enc.thr msig)
              (map Enc.pk (Enc.subsig msig))) as [pk|msg].
  - destruct (arrayEqual pk expected) eqn:Heq; cbn [negb].
    + apply arrayEqual_true in Heq. subst pk.
      destruct (Z.of_nat (List.length (Enc.subsig msig)) <? Enc.thr msig) eqn:H1;
        [ split; [ discriminate | intros [H _]; lia ] | ].
      destruct (signed_slots msig <? Enc.thr msig) eqn:H2;
        [ split; [ discriminate | intros [H _]; lia ] | ].
      destruct (verified_slots toBeVerified msig <? Enc.thr msig) eqn:H3;
        [ split; [ discriminate | intros [H _]; lia ] | ].
      split; [ intros _; split; [ lia | reflexivity ] | reflexivity ].
    + assert (pk <> expected) as Hne.
      { intros Hpk. apply arrayEqual_true in Hpk. congruence. }
      destruct (Z.of_nat (List.length (Enc.subsig msig)) <? Enc.thr msig);
        (split; [ discriminate | intros [_ [= Hpk]]; contradiction ]).
  - destruct (Z.of_nat (List.length (Enc.subsig msig)) <? Enc.thr msig);
      (split; [ discriminate | intros [_ Hpk]; discriminate ]).
Qed.

(** The condition of the claim as stated is sufficient. *)
Lemma verifyMultisig_all_signed_verify toBeVerified msig expected :
  Enc.thr msig <= signed_slots msig ->
  every_signed_slot_verifies toBeVerified msig ->
  preimage_address_is msig expected ->
  verifyMultisig toBeVerified msig expected = true.
Proof.
  intros Hthr Hall Haddr. unfold verifyMultisig.
  unfold preimage_address_is in Haddr.
  rewrite Haddr, countSigned_signed_slots, countVerified_verified_slots.
  rewrite (all_verify_counts_equal _ _ Hall).
  pose proof (signed_le_length msig) as Hsl.
  rewrite (proj2 (arrayEqual_true expected expected) eq_refl). cbn [negb].
  destruct (Z.ltb_spec (Z.of_nat (List.length (Enc.subsig msig)))
              (Enc.thr msig)); [ lia | ].
  destruct (Z.ltb_spec (signed_slots msig) (Enc.thr msig));
    [ lia | reflexivity ].
Qed.

End VerifyMultisig.

(** C2, the claim as stated fails: with threshold 1, one slot signed
    correctly and another slot carrying a signature that does not verify,
    [verifyMultisig] returns true although not every signed slot verifies. *)
Lemma verifyMultisig_tolerates_bad_signature :
  let msig :=
    {| Enc.v := 1; Enc.thr := 1;
       Enc.subsig := [ {| Enc.pk := [x0a]; Enc.s := Some [x0a; x01] |};
                       {| Enc.pk := [x0b]; Enc.s := Some [xff] |} ] |} in
  verifyMultisig (E := Sample.externals) [x01] msig [x0a; x0b] = true
  /\ Enc.thr msig <= signed_slots msig
  /\ preimage_address_is (E := Sample.externals) msig [x0a; x0b]
  /\ ~ every_signed_slot_verifies (E := Sample.externals) [x01] msig.
Proof.
  cbv zeta. repeat split.
  - vm_compute. discriminate.
  - intros Hall.
    specialize (Hall {| Enc.pk := [x0b]; Enc.s := Some [xff] |} [xff]
                  (or_intror (or_introl eq_refl)) eq_refl).
    vm_compute in Hall. discriminate.
Qed.

(** *** Key registration *)

Section KeyRegistration.

Context {E : Externals}.











End KeyRegistration.


(** *** Default elision *)

Section DefaultElision.

Context {E : Externals}.

Lemma optionalAddress_set input a :
  optionalAddress input = Ok (Some a) -> default_address a = false.
Proof.
  unfold optionalAddress, default_address.
  destruct input as [given|]; [ | discriminate ].
  intros H. ok_steps H. injection H as <-. assumption.
Qed.

Lemma optionalAddress_set_not_default input o :
  optionalAddress input = Ok o -> set_not_default default_address o.
Proof. intros H a ->. eapply optionalAddress_set; eassumption. Qed.

Lemma nonempty_not_default (b : bytes) n :
  List.length b = S n -> default_bytes b = false.
Proof. destruct b; [ discriminate | reflexivity ]. Qed.

Lemma optionalFixedLengthByteArray_set_not_default input n name o :
  optionalFixedLengthByteArray input (S n) name = Ok o ->
  set_not_default default_bytes o.
Proof.
  intros H b ->. apply optionalFixedLengthByteArray_Some in H.
  eapply nonempty_not_default. apply H.
Qed.

Lemma getKeyregKey_set_not_default input name n o :
  getKeyregKey input name (S n) = Ok o -> set_not_default default_bytes o.
Proof.
  unfold getKeyregKey. intros H b ->.
  destruct input as [given|]; [ | discriminate ].
  ok_steps H. injection H as <-.
  apply negb_false_iff, Nat.eqb_eq in Hif.
  eapply nonempty_not_default. exact Hif.
Qed.

Lemma whenPresent_inv {A B} (body : A -> result B) i o b :
  whenPresent i body = Ok o -> o = Some b ->
  exists a, i = Some a /\ body a = Ok b.
Proof.
  destruct i as [a|]; cbn.
  - destruct (body a) as [b'|] eqn:Hb; [ | discriminate ].
    intros [= <-] [= <-]. eauto.
  - intros [= <-]. discriminate.
Qed.

Lemma constructor_fields_presence params this :
  constructor_fields params = Ok this -> presence_meaningful this.
Proof.
  intros H. apply constructor_fields_inv in H.
  destruct H as (_ & _ & _ & _ & Hl & Hrekey & _ & _ & _ & _ & _ & _ & _
                 & _ & _ & Hpay & Hkr & Hacfg & Haxfer & _).
  unfold presence_meaningful. repeat apply conj.
  - eapply optionalFixedLengthByteArray_set_not_default. exact Hl.
  - eapply optionalAddress_set_not_default. exact Hrekey.
  - intros p Hp. eapply whenPresent_inv in Hpay as (pp & _ & Hc); [ | exact Hp ].
    unfold constructor_payment in Hc. ok_steps Hc. injection Hc as <-. cbn.
    eapply optionalAddress_set_not_default. eassumption.
  - intros kr Hp. eapply whenPresent_inv in Hkr as (kp & _ & Hc); [ | exact Hp ].
    unfold constructor_keyreg in Hc. ok_steps Hc. injection Hc as <-. cbn.
    repeat split; eapply getKeyregKey_set_not_default; eassumption.
  - intros ac Hp.
    eapply whenPresent_inv in Hacfg as (acp & _ & Hc); [ | exact Hp ].
    unfold constructor_assetConfig in Hc. ok_steps Hc. injection Hc as <-. cbn.
    repeat split;
      solve [ eapply optionalAddress_set_not_default; eassumption
            | eapply optionalFixedLengthByteArray_set_not_default; eassumption ].
  - intros ax Hp.
    eapply whenPresent_inv in Haxfer as (atp & _ & Hc); [ | exact Hp ].
    unfold constructor_assetTransfer in Hc. ok_steps Hc. injection Hc as <-. cbn.
    repeat split; eapply optionalAddress_set_not_default; eassumption.
Qed.

Lemma new_Transaction_presence params t grp :
  new_Transaction params = Ok t -> presence_meaningful (set_group t grp).
Proof.
  intros H. apply new_Transaction_inv in H as (this & Hfields & _ & ->).
  apply constructor_fields_presence in Hfields. exact Hfields.
Qed.

Lemma truthyZ_default x : default_Z x = true -> truthyZ x = None.
Proof. unfold default_Z, truthyZ. intros ->. reflexivity. Qed.

Lemma truthyOptZ_default o : default_opt default_Z o = true -> truthyOptZ o = None.
Proof. destruct o; cbn; [ apply truthyZ_default | reflexivity ]. Qed.

Lemma truthyBool_default b : default_bool b = true -> truthyBool b = None.
Proof. destruct b; [ discriminate | reflexivity ]. Qed.

Lemma truthyString_default str : default_string str = true -> truthyString str = None.
Proof. unfold default_string, truthyString. intros ->. reflexivity. Qed.

Lemma nonEmpty_default_bytes (b : bytes) : default_bytes b = true -> nonEmpty b = None.
Proof. destruct b; [ reflexivity | discriminate ]. Qed.

Lemma nonEmpty_default_list {A} (l : list A) : default_list l = true -> nonEmpty l = None.
Proof. destruct l; [ reflexivity | discriminate ]. Qed.

Lemma nonEmpty_map_default {A B} (f : A -> B) (l : list A) :
  default_list l = true -> nonEmpty (map f l) = None.
Proof. destruct l; [ reflexivity | discriminate ]. Qed.

Lemma addressKey_default a : default_address a = true -> addressKey a = None.
Proof. unfold default_address, addressKey. intros ->. reflexivity. Qed.

Lemma set_default_absent {A} (d : A -> bool) o :
  set_not_default d o -> default_opt d o = true -> o = None.
Proof.
  destruct o as [x|]; [ | reflexivity ].
  intros Hset Hd. cbn in Hd. rewrite (Hset x eq_refl) in Hd. discriminate.
Qed.

Lemma stateSchema_default ints slices :
  default_Z ints = true -> default_Z slices = true ->
  stateSchema_of ints slices = None.
Proof. unfold default_Z, stateSchema_of. intros -> ->. reflexivity. Qed.

Lemma inSchema_nui ints slices :
  default_Z ints = true -> inSchema (stateSchema_of ints slices) Enc.nui = false.
Proof.
  unfold stateSchema_of, inSchema. intros H.
  destruct (negb (ints =? 0) || negb (slices =? 0)); [ | reflexivity ].
  cbn. rewrite (truthyZ_default _ H). reflexivity.
Qed.

Lemma inSchema_nbs ints slices :
  default_Z slices = true -> inSchema (stateSchema_of ints slices) Enc.nbs = false.
Proof.
  unfold stateSchema_of, inSchema. intros H.
  destruct (negb (ints =? 0) || negb (slices =? 0)); [ | reflexivity ].
  cbn. rewrite (truthyZ_default _ H). reflexivity.
Qed.

Lemma common_key_elided txn k :
  set_not_default default_bytes (lease txn) ->
  set_not_default default_address (rekeyTo txn) ->
  key_group k = G_common -> always_emitted k = false ->
  field_holds_default k txn = true ->
  key_present k (forEncoding_common txn) = false.
Proof.
  intros Hlease Hrekey Hg Hk.
  destruct k; try discriminate Hg; try discriminate Hk;
    cbn [field_holds_default key_present forEncoding_common Enc.fee Enc.fv
         Enc.note Enc.snd Enc.gen Enc.lx Enc.grp Enc.rekey];
    intros Hd.
  - rewrite (truthyZ_default _ Hd). reflexivity.
  - rewrite (truthyZ_default _ Hd). reflexivity.
  - rewrite (nonEmpty_default_bytes _ Hd). reflexivity.
  - rewrite (addressKey_default _ Hd). reflexivity.
  - destruct (genesisID txn); [ | reflexivity ].
    cbn in Hd. rewrite (truthyString_default _ Hd). reflexivity.
  - rewrite (set_default_absent _ _ Hlease Hd). reflexivity.
  - rewrite (nonEmpty_default_bytes _ Hd). reflexivity.
  - rewrite (set_default_absent _ _ Hrekey Hd). reflexivity.
Qed.

Lemma payment_keys o pay k :
  set_not_default default_address (pay_closeRemainderTo pay) ->
  match key_group k with
  | G_common => key_present k (forEncoding_payment o pay) = key_present k o
  | G_pay =>
      forall txn, payment txn = Some pay ->
      field_holds_default k txn = true ->
      key_present k (forEncoding_payment o pay) = false
  | _ => key_present k (forEncoding_payment o pay) = false
  end.
Proof.
  intros Hclose.
  destruct k; cbn [key_group]; try reflexivity;
    intros txn Hpay; unfold field_holds_default; rewrite Hpay;
    cbn [default_opt key_present forEncoding_payment Enc.amt Enc.rcv Enc.close];
    intros Hd.
  - rewrite (truthyZ_default _ Hd). reflexivity.
  - rewrite (addressKey_default _ Hd). reflexivity.
  - rewrite (set_default_absent _ _ Hclose Hd). reflexivity.
Qed.

Lemma keyreg_keys o kr k :
  set_not_default default_bytes (kr_voteKey kr) ->
  set_not_default default_bytes (kr_selectionKey kr) ->
  set_not_default default_bytes (kr_stateProofKey kr) ->
  match key_group k with
  | G_common => key_present k (forEncoding_keyreg o kr) = key_present k o
  | G_keyreg =>
      forall txn, keyreg txn = Some kr ->
      field_holds_default k txn = true ->
      key_present k (forEncoding_keyreg o kr) = false
  | _ => key_present k (forEncoding_keyreg o kr) = false
  end.
Proof.
  intros Hvote Hsel Hsprf.
  destruct k; cbn [key_group]; try reflexivity;
    intros txn Hkr; unfold field_holds_default; rewrite Hkr;
    cbn [default_opt key_present forEncoding_keyreg Enc.votekey Enc.selkey
         Enc.sprfkey Enc.votefst Enc.votelst Enc.votekd Enc.nonpart];
    intros Hd.
  - rewrite (set_default_absent _ _ Hvote Hd). reflexivity.
  - rewrite (set_default_absent _ _ Hsel Hd). reflexivity.
  - rewrite (set_default_absent _ _ Hsprf Hd). reflexivity.
  - rewrite (truthyOptZ_default _ Hd). reflexivity.
  - rewrite (truthyOptZ_default _ Hd). reflexivity.
  - rewrite (truthyOptZ_default _ Hd). reflexivity.
  - rewrite (truthyBool_default _ Hd). reflexivity.
Qed.

Lemma inApar_absent {A} o ac (field : Enc.EncodedAssetParams -> option A) :
  field (assetParams_of ac) = None ->
  inApar (forEncoding_assetConfig o ac) field = false.
Proof.
  intros H. unfold inApar, forEncoding_assetConfig. cbn [Enc.apar].
  destruct (Nat.eqb (assetParams_keys (assetParams_of ac)) 0);
    [ reflexivity | rewrite H; reflexivity ].
Qed.

Lemma assetConfig_keys o ac k :
  set_not_default default_address (ac_assetManager ac) ->
  set_not_default default_address (ac_assetReserve ac) ->
  set_not_default default_address (ac_assetFreeze ac) ->
  set_not_default default_address (ac_assetClawback ac) ->
  set_not_default default_bytes (ac_assetMetadataHash ac) ->
  match key_group k with
  | G_common => key_present k (forEncoding_assetConfig o ac) = key_present k o
  | G_acfg =>
      forall txn, assetConfig txn = Some ac ->
      field_holds_default k txn = true ->
      key_present k (forEncoding_assetConfig o ac) = false
  | _ => key_present k (forEncoding_assetConfig o ac) = false
  end.
Proof.
  intros Hm Hr Hf Hc Ham.
  destruct k; cbn [key_group]; try reflexivity;
    intros txn Hac; unfold field_holds_default; rewrite Hac;
    cbn [default_opt key_present]; intros Hd;
    try (apply inApar_absent; unfold assetParams_of;
         cbn [Enc.t Enc.dc Enc.df Enc.m Enc.r Enc.f Enc.c Enc.un Enc.an Enc.au
              Enc.am]).
  - cbn [forEncoding_assetConfig Enc.caid].
    rewrite (truthyZ_default _ Hd). reflexivity.
  - repeat (apply andb_true_iff in Hd as [Hd ?]).
    unfold forEncoding_assetConfig, assetParams_of, assetParams_keys.
    cbn [Enc.apar Enc.t Enc.dc Enc.df Enc.m Enc.r Enc.f Enc.c Enc.un Enc.an
         Enc.au Enc.am].
    rewrite !truthyZ_default, truthyBool_default, !truthyString_default
      by assumption.
    rewrite (set_default_absent default_address (ac_assetManager ac)),
      (set_default_absent default_address (ac_assetReserve ac)),
      (set_default_absent default_address (ac_assetFreeze ac)),
      (set_default_absent default_address (ac_assetClawback ac)),
      (set_default_absent default_bytes (ac_assetMetadataHash ac))
      by assumption.
    reflexivity.
  - apply truthyZ_default, Hd.
  - apply truthyZ_default, Hd.
  - apply truthyBool_default, Hd.
  - rewrite (set_default_absent _ _ Hm Hd). reflexivity.
  - rewrite (set_default_absent _ _ Hr Hd). reflexivity.
  - rewrite (set_default_absent _ _ Hf Hd). reflexivity.
  - rewrite (set_default_absent _ _ Hc Hd). reflexivity.
  - apply truthyString_default, Hd.
  - apply truthyString_default, Hd.
  - apply truthyString_default, Hd.
  - apply (set_default_absent _ _ Ham Hd).
Qed.

Lemma assetTransfer_keys o ax k :
  set_not_default default_address (ax_sender ax) ->
  set_not_default default_address (ax_closeRemainderTo ax) ->
  match key_group k with
  | G_common => key_present k (forEncoding_assetTransfer o ax) = key_present k o
  | G_axfer =>
      forall txn, assetTransfer txn = Some ax ->
      field_holds_default k txn = true ->
      key_present k (forEncoding_assetTransfer o ax) = false
  | _ => key_present k (forEncoding_assetTransfer o ax) = false
  end.
Proof.
  intros Hsnd Hclose.
  destruct k; cbn [key_group]; try reflexivity;
    intros txn Hax; unfold field_holds_default; rewrite Hax;
    cbn [default_opt key_present forEncoding_assetTransfer Enc.xaid Enc.aamt
         Enc.arcv Enc.aclose Enc.asnd];
    intros Hd.
  - rewrite (truthyZ_default _ Hd). reflexivity.
  - rewrite (truthyZ_default _ Hd). reflexivity.
  - rewrite (addressKey_default _ Hd). reflexivity.
  - rewrite (set_default_absent _ _ Hclose Hd). reflexivity.
  - rewrite (set_default_absent _ _ Hsnd Hd). reflexivity.
Qed.

Lemma assetFreeze_keys o af k :
  match key_group k with
  | G_common => key_present k (forEncoding_assetFreeze o af) = key_present k o
  | G_afrz =>
      forall txn, assetFreeze txn = Some af ->
      field_holds_default k txn = true ->
      key_present k (forEncoding_assetFreeze o af) = false
  | _ => key_present k (forEncoding_assetFreeze o af) = false
  end.
Proof.
  destruct k; cbn [key_group]; try reflexivity;
    intros txn Haf; unfold field_holds_default; rewrite Haf;
    cbn [default_opt key_present forEncoding_assetFreeze Enc.faid Enc.afrz
         Enc.fadd];
    intros Hd.
  - rewrite (truthyZ_default _ Hd). reflexivity.
  - rewrite (truthyBool_default _ Hd). reflexivity.
  - rewrite (addressKey_default _ Hd). reflexivity.
Qed.

Lemma applicationCall_keys o ap obj k :
  forEncoding_applicationCall o ap = Ok obj ->
  match key_group k with
  | G_common => key_present k obj = key_present k o
  | G_appl =>
      forall txn, applicationCall txn = Some ap ->
      field_holds_default k txn = true ->
      key_present k obj = false
  | _ => key_present k obj = false
  end.
Proof.
  unfold forEncoding_applicationCall. intros Hobj.
  destruct (match ap_boxes ap with
            | [] => Ok None
            | _ :: _ =>
                b <- translateBoxReferences (ap_boxes ap)
                       (ap_appForeignApps ap) (ap_appId ap) ;;
                Ok (Some b)
            end) as [boxes|] eqn:Hboxes; [ | discriminate ].
  injection Hobj as <-.
  destruct k; cbn [key_group]; try reflexivity;
    intros txn Hap; unfold field_holds_default; rewrite Hap;
    cbn [default_opt key_present Enc.apid Enc.apan Enc.apaa Enc.apat Enc.apas
         Enc.apfa Enc.apbx Enc.apap Enc.apsu Enc.apls Enc.apgs Enc.apep];
    intros Hd.
  - rewrite (truthyZ_default _ Hd). reflexivity.
  - rewrite (truthyZ_default _ Hd). reflexivity.
  - rewrite (nonEmpty_default_list _ Hd). reflexivity.
  - rewrite (nonEmpty_map_default _ _ Hd). reflexivity.
  - rewrite (nonEmpty_default_list _ Hd). reflexivity.
  - rewrite (nonEmpty_default_list _ Hd). reflexivity.
  - destruct (ap_boxes ap); [ | discriminate Hd ].
    injection Hboxes as <-. reflexivity.
  - rewrite (nonEmpty_default_bytes _ Hd). reflexivity.
  - rewrite (nonEmpty_default_bytes _ Hd). reflexivity.
  - apply andb_true_iff in Hd as [H1 H2].
    rewrite (stateSchema_default _ _ H1 H2). reflexivity.
  - apply inSchema_nui, Hd.
  - apply inSchema_nbs, Hd.
  - apply andb_true_iff in Hd as [H1 H2].
    rewrite (stateSchema_default _ _ H1 H2). reflexivity.
  - apply inSchema_nui, Hd.
  - apply inSchema_nbs, Hd.
  - rewrite (truthyZ_default _ Hd). reflexivity.
Qed.

Lemma stateProof_keys o stp k :
  always_emitted k = false ->
  match key_group k with
  | G_common => key_present k (forEncoding_stateProof o stp) = key_present k o
  | G_stpf =>
      forall txn, stateProof txn = Some stp ->
      field_holds_default k txn = true ->
      key_present k (forEncoding_stateProof o stp) = false
  | _ => key_present k (forEncoding_stateProof o stp) = false
  end.
Proof.
  intros Hk.
  destruct k; cbn [key_group]; try reflexivity; try discriminate Hk;
    intros txn Hstp; unfold field_holds_default; rewrite Hstp;
    cbn [default_opt key_present forEncoding_stateProof Enc.sptype];
    intros Hd.
  rewrite (truthyZ_default _ Hd). reflexivity.
Qed.

(** Elision for any transaction whose optional fields are meaningful. *)
Lemma default_elision_meaningful txn k obj :
  presence_meaningful txn ->
  get_obj_for_encoding txn = Ok obj ->
  always_emitted k = false ->
  field_holds_default k txn = true ->
  key_present k obj = false.
Proof.
  intros (Hlease & Hrekey & Hpay & Hkr & Hac & Hax) Hobj Hk Hd.
  pose proof (common_key_elided txn k Hlease Hrekey) as Hcommon.
  unfold get_obj_for_encoding in Hobj.
  destruct (payment txn) as [pay|] eqn:Epay.
  { injection Hobj as <-.
    pose proof (payment_keys (forEncoding_common txn) pay k (Hpay pay eq_refl))
      as H.
    destruct (key_group k); try rewrite H; eauto. }
  destruct (keyreg txn) as [kr|] eqn:Ekr.
  { injection Hobj as <-. destruct (Hkr kr eq_refl) as (H1 & H2 & H3).
    pose proof (keyreg_keys (forEncoding_common txn) kr k H1 H2 H3) as H.
    destruct (key_group k); try rewrite H; eauto. }
  destruct (assetConfig txn) as [ac|] eqn:Eac.
  { injection Hobj as <-.
    destruct (Hac ac eq_refl) as (H1 & H2 & H3 & H4 & H5).
    pose proof (assetConfig_keys (forEncoding_common txn) ac k H1 H2 H3 H4 H5)
      as H.
    destruct (key_group k); try rewrite H; eauto. }
  destruct (assetTransfer txn) as [ax|] eqn:Eax.
  { injection Hobj as <-. destruct (Hax ax eq_refl) as (H1 & H2).
    pose proof (assetTransfer_keys (forEncoding_common txn) ax k H1 H2) as H.
    destruct (key_group k); try rewrite H; eauto. }
  destruct (assetFreeze txn) as [af|] eqn:Eaf.
  { injection Hobj as <-.
    pose proof (assetFreeze_keys (forEncoding_common txn) af k) as H.
    destruct (key_group k); try rewrite H; eauto. }
  destruct (applicationCall txn) as [ap|] eqn:Eap.
  { pose proof (applicationCall_keys (forEncoding_common txn) ap obj k Hobj)
      as H.
    destruct (key_group k); try rewrite H; eauto. }
  destruct (stateProof txn) as [stp|] eqn:Estp; [ | discriminate ].
  injection Hobj as <-.
  pose proof (stateProof_keys (forEncoding_common txn) stp k Hk) as H.
  destruct (key_group k); try rewrite H; eauto.
Qed.

Lemma translateBoxReferences_keys references foreignApps appIndex boxes :
  translateBoxReferences references foreignApps appIndex = Ok boxes ->
  Forall (fun box => isSome (Enc.i box) = true /\ isSome (Enc.n box) = true)
    boxes.
Proof.
  unfold translateBoxReferences. revert boxes.
  induction references as [|reference rest IH]; intros boxes; cbn [mapM].
  - intros [= <-]. constructor.
  - destruct (translateBoxReference foreignApps appIndex reference)
      as [box|] eqn:Hbox; [ | discriminate ].
    destruct (mapM (translateBoxReference foreignApps appIndex) rest)
      as [tail|]; [ | discriminate ].
    intros [= <-]. constructor; [ | apply IH; reflexivity ].
    unfold translateBoxReference in Hbox.
    destruct (indexOf (box_appIndex reference) foreignApps);
      [ injection Hbox as <-; split; reflexivity | ].
    destruct ((box_appIndex reference =? appIndex)
              || (box_appIndex reference =? 0));
      [ injection Hbox as <-; split; reflexivity | discriminate ].
Qed.

(** Every entry of [apbx] has both its keys. *)
Lemma box_keys_written txn obj boxes :
  get_obj_for_encoding txn = Ok obj ->
  Enc.apbx obj = Some boxes ->
  Forall (fun box => isSome (Enc.i box) = true /\ isSome (Enc.n box) = true)
    boxes.
Proof.
  unfold get_obj_for_encoding. intros Hobj.
  destruct (payment txn); [ injection Hobj as <-; discriminate | ].
  destruct (keyreg txn); [ injection Hobj as <-; discriminate | ].
  destruct (assetConfig txn); [ injection Hobj as <-; discriminate | ].
  destruct (assetTransfer txn); [ injection Hobj as <-; discriminate | ].
  destruct (assetFreeze txn); [ injection Hobj as <-; discriminate | ].
  destruct (applicationCall txn) as [ap|].
  - unfold forEncoding_applicationCall in Hobj.
    destruct (ap_boxes ap) as [|reference rest] eqn:Hrefs.
    + injection Hobj as <-. discriminate.
    + destruct (translateBoxReferences (reference :: rest)
                  (ap_appForeignApps ap) (ap_appId ap)) as [encoded|] eqn:Henc;
        [ | discriminate ].
      injection Hobj as <-. cbn [Enc.apbx]. intros [= <-].
      eapply translateBoxReferences_keys. exact Henc.
  - destruct (stateProof txn); [ injection Hobj as <-; discriminate
                               | discriminate ].
Qed.

(** The object of a transaction whose only payload is a state proof. *)
Lemma get_obj_for_encoding_stateProof txn stp :
  (List.length (payloadsPresent txn) = 1)%nat ->
  stateProof txn = Some stp ->
  get_obj_for_encoding txn
  = Ok (forEncoding_stateProof (forEncoding_common txn) stp).
Proof.
  unfold payloadsPresent, get_obj_for_encoding. intros Hone Hstp.
  rewrite Hstp in *.
  destruct (payment txn), (keyreg txn), (assetConfig txn), (assetTransfer txn),
    (assetFreeze txn), (applicationCall txn);
    cbn [isSome List.app List.length] in Hone; try discriminate Hone.
  reflexivity.
Qed.

(** C1, as amended. For a constructed transaction (with whatever group is
    attached afterwards): when the field behind a key other than [type],
    [gh], [lv], [spmsg] and [sp] holds its default, the canonical encoding
    has no such key.  The keys [type], [gh] and [lv] are written for every
    transaction, [spmsg] and [sp] for every state-proof transaction, and
    both keys [i] and [n] for every box reference, whatever the values.
    What [toByte] produces is what the encoder makes of that object. *)
Theorem default_elision params t grp obj :
  new_Transaction params = Ok t ->
  get_obj_for_encoding (set_group t grp) = Ok obj ->
  (forall k, always_emitted k = false ->
             field_holds_default k (set_group t grp) = true ->
             key_present k obj = false)
  /\ (forall k, always_emitted k = true ->
                key_group k = G_common \/ isSome (stateProof t) = true ->
                key_present k obj = true)
  /\ (forall boxes box, Enc.apbx obj = Some boxes -> In box boxes ->
                        isSome (Enc.i box) = true /\ isSome (Enc.n box) = true)
  /\ toByte (set_group t grp) = encode_transaction obj.
Proof.
  intros Hnew Hobj.
  split; [ | split; [ | split ] ].
  - intros k Hk Hd.
    eapply default_elision_meaningful; eauto using new_Transaction_presence.
  - intros k Hk Hwhere.
    destruct k; try discriminate Hk; try reflexivity;
      (destruct Hwhere as [Hg|Hstp]; [ discriminate Hg | ]);
      destruct (stateProof t) as [stp|] eqn:Estp; try discriminate Hstp;
      apply new_Transaction_inv in Hnew as (this & Hfields & _ & Ht);
      apply payloadsPresent_constructor_fields in Hfields as (Hsame & Hone & _);
      rewrite (get_obj_for_encoding_stateProof (set_group t grp) stp) in Hobj;
      try (injection Hobj as <-; reflexivity);
      try exact Estp;
      rewrite Ht; change (payloadsPresent (set_group (set_fee this (fee t)) grp))
        with (payloadsPresent this); rewrite Hsame, Hone; reflexivity.
  - intros boxes box Hboxes Hin.
    pose proof (box_keys_written _ _ _ Hobj Hboxes) as Hall.
    rewrite Forall_forall in Hall. apply Hall. exact Hin.
  - unfold toByte. rewrite Hobj. reflexivity.
Qed.

End DefaultElision.

(** C1, the claim as stated fails: a state-proof transaction built without a
    proof and without a message has both fields at their default (empty),
    and its canonical encoding still has the keys [sp] and [spmsg]. *)
Lemma stateProof_keys_not_elided :
  exists t obj,
    new_Transaction (E := Sample.externals) Sample.stateProof_params = Ok t
    /\ get_obj_for_encoding t = Ok obj
    /\ field_holds_default K_sp t = true
    /\ field_holds_default K_spmsg t = true
    /\ Enc.sp obj = Some []
    /\ Enc.spmsg obj = Some []
    /\ key_present K_sp obj = true
    /\ key_present K_spmsg obj = true.
Proof.
  do 2 eexists. split; [ vm_compute; reflexivity | ].
  split; [ vm_compute; reflexivity | ].
  repeat split.
Qed.

(** Likewise a box reference to application 0 with an empty name is written
    with both its keys, at their defaults. *)
Lemma box_reference_keys_not_elided :
  exists t obj,
    new_Transaction (E := Sample.externals)
      (Sample.appCall_params None {| br_appIndex := 0; br_name := [] |}) = Ok t
    /\ get_obj_for_encoding t = Ok obj
    /\ Enc.apbx obj = Some [{| Enc.i := Some 0; Enc.n := Some [] |}].
Proof.
  do 2 eexists. split; [ vm_compute; reflexivity | ].
  split; vm_compute; reflexivity.
Qed.

Lemma default_elision_witness :
  exists t obj,
    new_Transaction (E := Sample.externals) Sample.zero_payment_params = Ok t
    /\ get_obj_for_encoding (set_group t []) = Ok obj
    /\ key_present K_fee obj = false
    /\ key_present K_amt obj = false
    /\ key_present K_rcv obj = false
    /\ key_present K_lv obj = true
    /\ toByte (E := Sample.externals) (set_group t []) = Sample.encode obj.
Proof.
  do 2 eexists. split; [ vm_compute; reflexivity | ].
  split; [ vm_compute; reflexivity | ].
  match goal with
  | |- key_present _ ?o = _ /\ _ /\ _ /\ _ /\ toByte (set_group ?t0 _) = _ =>
      destruct (@default_elision Sample.externals Sample.zero_payment_params
                  t0 [] o ltac:(vm_compute; reflexivity)
                  ltac:(vm_compute; reflexivity))
        as (Helide & Hwritten & _ & Hbytes)
  end.
  split; [ apply Helide; reflexivity | ].
  split; [ apply Helide; reflexivity | ].
  split; [ apply Helide; reflexivity | ].
  split; [ apply (Hwritten K_lv); [ reflexivity | left; reflexivity ] | ].
  exact Hbytes.
Defined.

(** *** Merging multisig blobs *)

Section Merge.

Context {E : Externals}.

Lemma sig_at_nil slot : sig_at [] slot = None.
Proof. destruct slot; reflexivity. Qed.

Lemma sig_at_cons_S x rest slot : sig_at (x :: rest) (S slot) = sig_at rest slot.
Proof. reflexivity. Qed.

(** What a successful pass over the slots of one partial leaves behind. *)
Lemma mergeSubsigs_ok newSubsigs uniSubsigs merged :
  mergeSubsigs newSubsigs uniSubsigs = Ok merged ->
  List.length uniSubsigs = List.length newSubsigs ->
  List.length merged = List.length newSubsigs
  /\ map Enc.pk merged = map Enc.pk newSubsigs
  /\ (forall slot,
        sig_at merged slot
        = match sig_at uniSubsigs slot with
          | Some sg => Some sg
          | None => sig_at newSubsigs slot
          end)
  /\ (forall slot sg sg',
        sig_at uniSubsigs slot = Some sg ->
        sig_at newSubsigs slot = Some sg' -> sg = sg').
Proof.
  revert newSubsigs merged.
  induction uniSubsigs as [|u uniRest IH]; intros newSubsigs merged Hm Hlen.
  - destruct newSubsigs; [ | discriminate Hlen ]. cbn in Hm. injection Hm as <-.
    repeat split; intros; rewrite ?sig_at_nil in *; try reflexivity; congruence.
  - destruct newSubsigs as [|current rest]; [ discriminate Hlen | ].
    cbn in Hlen. injection Hlen as Hlen. cbn [mergeSubsigs] in Hm.
    destruct (Enc.s u) as [uniS|] eqn:Hu.
    + destruct (match Enc.s current with
                | Some curS => negb (arrayEqual uniS curS)
                | None => false
                end) eqn:Hcmp; [ discriminate | ].
      destruct (mergeSubsigs rest uniRest) as [tail|] eqn:Htail; [ | discriminate ].
      injection Hm as <-.
      destruct (IH rest tail Htail Hlen) as (Hl & Hpk & Hsig & Hagree).
      repeat split.
      * cbn. congruence.
      * cbn. congruence.
      * intros [|slot]; cbn.
        -- unfold sig_at. cbn. rewrite Hu. reflexivity.
        -- rewrite !sig_at_cons_S. apply Hsig.
      * intros [|slot] sg sg'.
        -- unfold sig_at. cbn. rewrite Hu. intros [= <-] Hc. rewrite Hc in Hcmp.
           apply negb_false_iff in Hcmp.
           unfold arrayEqual in Hcmp.
           destruct (list_eq_dec byte_eq_dec uniS sg'); [ assumption | discriminate ].
        -- rewrite !sig_at_cons_S. apply Hagree.
    + destruct (mergeSubsigs rest uniRest) as [tail|] eqn:Htail; [ | discriminate ].
      injection Hm as <-.
      destruct (IH rest tail Htail Hlen) as (Hl & Hpk & Hsig & Hagree).
      repeat split.
      * cbn. congruence.
      * cbn. congruence.
      * intros [|slot]; cbn.
        -- unfold sig_at. cbn. rewrite Hu. reflexivity.
        -- rewrite !sig_at_cons_S. apply Hsig.
      * intros [|slot] sg sg'.
        -- unfold sig_at. cbn. rewrite Hu. discriminate.
        -- rewrite !sig_at_cons_S. apply Hagree.
Qed.

(** The pass succeeds when the partial has as many slots and never
    disagrees with a signature already collected. *)
Lemma mergeSubsigs_succeeds newSubsigs uniSubsigs :
  List.length uniSubsigs = List.length newSubsigs ->
  (forall slot sg sg',
      sig_at uniSubsigs slot = Some sg ->
      sig_at newSubsigs slot = Some sg' -> sg = sg') ->
  exists merged, mergeSubsigs newSubsigs uniSubsigs = Ok merged.
Proof.
  revert newSubsigs.
  induction uniSubsigs as [|u uniRest IH]; intros newSubsigs Hlen Hagree.
  - eexists. reflexivity.
  - destruct newSubsigs as [|current rest]; [ discriminate Hlen | ].
    cbn in Hlen. injection Hlen as Hlen.
    destruct (IH rest Hlen) as (tail & Htail).
    { intros slot sg sg'. apply (Hagree (S slot)). }
    cbn [mergeSubsigs]. rewrite Htail.
    destruct (Enc.s u) as [uniS|] eqn:Hu; [ | eexists; reflexivity ].
    destruct (Enc.s current) as [curS|] eqn:Hc; [ | eexists; reflexivity ].
    assert (uniS = curS) as ->.
    { apply (Hagree 0%nat); unfold sig_at; cbn; assumption. }
    unfold arrayEqual. destruct (list_eq_dec byte_eq_dec curS curS);
      [ | contradiction ].
    cbn. eexists. reflexivity.
Qed.

Lemma optionStringEqb_true a b : optionStringEqb a b = true <-> a = b.
Proof.
  destruct a as [x|], b as [y|]; cbn; try (split; congruence).
  rewrite String.eqb_eq. split; congruence.
Qed.

Lemma merge_step_inv refMsig refTxID refAuthAddr refMsigAddr newSubsigs blob
    merged :
  merge_step refMsig refTxID refAuthAddr refMsigAddr newSubsigs blob
  = Ok merged ->
  exists signedTxn msig,
    decode_signed blob = Ok signedTxn
    /\ blob_matches refTxID refAuthAddr (List.length (Enc.subsig refMsig))
         refMsigAddr signedTxn msig
    /\ mergeSubsigs newSubsigs (Enc.subsig msig) = Ok merged.
Proof.
  unfold merge_step, blob_matches, blob_txID. intros H.
  destruct (decode_signed blob) as [signedTxn|] eqn:Hdec; [ | discriminate ].
  destruct (Enc.msig signedTxn) as [msig|] eqn:Hmsig; [ | discriminate ].
  destruct (from_obj_for_encoding (Enc.txn signedTxn)) as [txn|] eqn:Htxn;
    [ | discriminate ].
  destruct (txID txn) as [uniTxID|] eqn:Hid; [ | discriminate ].
  destruct (String.eqb uniTxID refTxID) eqn:Htx; [ | discriminate ].
  destruct (optionStringEqb refAuthAddr (authAddrOf signedTxn)) eqn:Hauth;
    [ | discriminate ].
  destruct (Nat.eqb (List.length (Enc.subsig msig))
              (List.length (Enc.subsig refMsig))) eqn:Hlen; [ | discriminate ].
  destruct (msigAddrOf msig) as [msgigAddr|] eqn:Hma; [ | discriminate ].
  destruct (String.eqb refMsigAddr msgigAddr) eqn:Haddr; [ | discriminate ].
  cbn [negb] in H.
  apply String.eqb_eq in Htx, Haddr. apply optionStringEqb_true in Hauth.
  apply Nat.eqb_eq in Hlen. subst.
  exists signedTxn, msig. repeat split; auto.
  rewrite Htxn. exact Hid.
Qed.

Lemma merge_step_matches refMsig refTxID refAuthAddr refMsigAddr newSubsigs
    blob signedTxn msig :
  decode_signed blob = Ok signedTxn ->
  blob_matches refTxID refAuthAddr (List.length (Enc.subsig refMsig))
    refMsigAddr signedTxn msig ->
  merge_step refMsig refTxID refAuthAddr refMsigAddr newSubsigs blob
  = mergeSubsigs newSubsigs (Enc.subsig msig).
Proof.
  unfold merge_step, blob_matches, blob_txID.
  intros -> (-> & Htx & <- & Hlen & ->).
  destruct (from_obj_for_encoding (Enc.txn signedTxn)) as [txn|];
    [ | discriminate ].
  rewrite Htx, String.eqb_refl.
  rewrite (proj2 (optionStringEqb_true _ _) eq_refl).
  rewrite Hlen, Nat.eqb_refl, String.eqb_refl. reflexivity.
Qed.

Lemma merge_loop_inv refMsig refTxID refAuthAddr refMsigAddr blobs :
  forall newSubsigs merged,
    merge_loop refMsig refTxID refAuthAddr refMsigAddr newSubsigs blobs
    = Ok merged ->
    List.length newSubsigs = List.length (Enc.subsig refMsig) ->
    List.length merged = List.length newSubsigs
    /\ map Enc.pk merged = map Enc.pk newSubsigs
    /\ (forall slot sg,
          sig_at newSubsigs slot = Some sg -> sig_at merged slot = Some sg)
    /\ (forall blob, In blob blobs ->
          exists signedTxn msig,
            decode_signed blob = Ok signedTxn
            /\ blob_matches refTxID refAuthAddr
                 (List.length (Enc.subsig refMsig)) refMsigAddr signedTxn msig)
    /\ (forall blob slot sg, In blob blobs -> contributes blob slot sg ->
          sig_at merged slot = Some sg)
    /\ (forall slot sg,
          sig_at merged slot = Some sg ->
          sig_at newSubsigs slot = Some sg
          \/ exists blob, In blob blobs /\ contributes blob slot sg).
Proof.
  induction blobs as [|blob rest IH]; intros newSubsigs merged Hloop Hlen.
  - cbn in Hloop. injection Hloop as <-.
    repeat split; auto; intros; contradiction.
  - cbn [merge_loop] in Hloop.
    destruct (merge_step refMsig refTxID refAuthAddr refMsigAddr newSubsigs blob)
      as [next|] eqn:Hstep; [ | discriminate ].
    apply merge_step_inv in Hstep as (signedTxn & msig & Hdec & Hmatch & Hmerge).
    pose proof Hmatch as (Hmsig & _ & _ & Hmlen & _).
    apply mergeSubsigs_ok in Hmerge as (Hl1 & Hpk1 & Hsig1 & Hagree1);
      [ | congruence ].
    destruct (IH next merged Hloop) as (Hl & Hpk & Hkeep & Hall & Hcontrib & Hprov);
      [ congruence | ].
    repeat split.
    + congruence.
    + congruence.
    + intros slot sg Hs. apply Hkeep. rewrite Hsig1.
      destruct (sig_at (Enc.subsig msig) slot) as [sg'|] eqn:Hu; [ | exact Hs ].
      rewrite (Hagree1 slot sg' sg Hu Hs). reflexivity.
    + intros b [<-|Hin]; [ eauto | apply Hall; exact Hin ].
    + intros b slot sg [<-|Hin] Hc.
      * destruct Hc as (st & Hdec' & Hs). rewrite Hdec in Hdec'.
        injection Hdec' as <-. unfold blob_sig_at in Hs. rewrite Hmsig in Hs.
        apply Hkeep. rewrite Hsig1, Hs. reflexivity.
      * eapply Hcontrib; eassumption.
    + intros slot sg Hs. apply Hprov in Hs as [Hs|(b & Hin & Hc)].
      * rewrite Hsig1 in Hs.
        destruct (sig_at (Enc.subsig msig) slot) as [sg'|] eqn:Hu.
        -- injection Hs as <-. right. exists blob. split; [ left; reflexivity | ].
           exists signedTxn. split; [ exact Hdec | ].
           unfold blob_sig_at. rewrite Hmsig. exact Hu.
        -- left. exact Hs.
      * right. exists b. split; [ right; exact Hin | exact Hc ].
Qed.

Lemma merge_loop_succeeds refMsig refTxID refAuthAddr refMsigAddr blobs :
  forall newSubsigs,
    List.length newSubsigs = List.length (Enc.subsig refMsig) ->
    (forall blob, In blob blobs ->
       exists signedTxn msig,
         decode_signed blob = Ok signedTxn
         /\ blob_matches refTxID refAuthAddr
              (List.length (Enc.subsig refMsig)) refMsigAddr signedTxn msig) ->
    (forall blob slot sg sg',
       In blob blobs -> contributes blob slot sg ->
       sig_at newSubsigs slot = Some sg' -> sg = sg') ->
    conflict_free blobs ->
    exists merged,
      merge_loop refMsig refTxID refAuthAddr refMsigAddr newSubsigs blobs
      = Ok merged.
Proof.
  induction blobs as [|blob rest IH]; intros newSubsigs Hlen Hall Hagree Hfree.
  - eexists. reflexivity.
  - destruct (Hall blob (or_introl eq_refl))
      as (signedTxn & msig & Hdec & Hmatch).
    pose proof Hmatch as (Hmsig & _ & _ & Hmlen & _).
    cbn [merge_loop].
    rewrite (merge_step_matches _ _ _ _ newSubsigs blob signedTxn msig Hdec
               Hmatch).
    destruct (mergeSubsigs_succeeds newSubsigs (Enc.subsig msig))
      as (next & Hnext); [ congruence | | ].
    { intros slot sg sg' Hu Hc. apply (Hagree blob slot sg sg'); auto.
      - left. reflexivity.
      - exists signedTxn. split; [ exact Hdec | ].
        unfold blob_sig_at. rewrite Hmsig. exact Hu. }
    rewrite Hnext.
    apply mergeSubsigs_ok in Hnext as (Hl1 & _ & Hsig1 & _); [ | congruence ].
    apply IH.
    + congruence.
    + intros b Hin. apply Hall. right. exact Hin.
    + intros b slot sg sg' Hin Hc Hs. rewrite Hsig1 in Hs.
      destruct (sig_at (Enc.subsig msig) slot) as [sg0|] eqn:Hu.
      * injection Hs as <-.
        apply (Hfree b blob slot sg sg0); auto.
        -- right. exact Hin.
        -- left. reflexivity.
        -- exists signedTxn. split; [ exact Hdec | ].
           unfold blob_sig_at. rewrite Hmsig. exact Hu.
      * apply (Hagree b slot sg sg'); auto. right. exact Hin.
    + intros b b' slot sg sg' Hin Hin'. apply Hfree; right; assumption.
Qed.

(** Everything a successful merge says about its inputs and its result. *)
Lemma merge_signedTxn_inv blobs result_ :
  mergeMultisigTransactions_signedTxn blobs = Ok result_ ->
  exists refTxID refAuthAddr refMsigAddr first firstMsig msig,
    (2 <= List.length blobs)%nat
    /\ decodes_at blobs 0 first
    /\ Enc.msig first = Some firstMsig
    /\ Enc.msig result_ = Some msig
    /\ Enc.txn result_ = Enc.txn first
    /\ Enc.v msig = Enc.v firstMsig
    /\ Enc.thr msig = Enc.thr firstMsig
    /\ map Enc.pk (Enc.subsig msig) = map Enc.pk (Enc.subsig firstMsig)
    /\ List.length (Enc.subsig msig) = List.length (Enc.subsig firstMsig)
    /\ match refAuthAddr with
       | Some a => exists d, decodeAddress a = Ok d
                             /\ Enc.sgnr result_ = Some (publicKey d)
       | None => Enc.sgnr result_ = None
       end
    /\ (forall blob, In blob blobs ->
          exists signedTxn blobMsig,
            decode_signed blob = Ok signedTxn
            /\ blob_matches refTxID refAuthAddr
                 (List.length (Enc.subsig firstMsig)) refMsigAddr
                 signedTxn blobMsig)
    /\ (forall blob slot sg, In blob blobs -> contributes blob slot sg ->
          sig_at (Enc.subsig msig) slot = Some sg)
    /\ (forall slot sg,
          sig_at (Enc.subsig msig) slot = Some sg ->
          exists blob, In blob blobs /\ contributes blob slot sg).
Proof.
  unfold mergeMultisigTransactions_signedTxn. intros H.
  destruct (List.length blobs <? 2)%nat eqn:Hlen; [ discriminate | ].
  apply Nat.ltb_ge in Hlen.
  destruct blobs as [|blob0 others]; [ discriminate | ].
  destruct (decode_signed blob0) as [first|] eqn:Hdec; [ | discriminate ].
  destruct (Enc.msig first) as [firstMsig|] eqn:Hmsig; [ | discriminate ].
  destruct (from_obj_for_encoding (Enc.txn first)) as [refTxn|] eqn:Htxn;
    [ | discriminate ].
  destruct (txID refTxn) as [refTxID|] eqn:Hid; [ | discriminate ].
  destruct (msigAddrOf firstMsig) as [refMsigAddr|] eqn:Haddr;
    [ | discriminate ].
  destruct (merge_loop firstMsig refTxID (authAddrOf first) refMsigAddr
              (Enc.subsig firstMsig) others) as [newSubsigs|] eqn:Hloop;
    [ | discriminate ].
  apply merge_loop_inv in Hloop
      as (Hl & Hpk & Hkeep & Hall & Hcontrib & Hprov); [ | reflexivity ].
  assert (blob_matches refTxID (authAddrOf first)
            (List.length (Enc.subsig firstMsig)) refMsigAddr first firstMsig)
    as Hfirst.
  { unfold blob_matches, blob_txID. rewrite Htxn. auto. }
  exists refTxID, (authAddrOf first), refMsigAddr, first, firstMsig.
  destruct (authAddrOf first) as [a|] eqn:Hauth.
  - destruct (decodeAddress a) as [d|] eqn:Hda; [ | discriminate ].
    injection H as <-. eexists. cbn.
    repeat split; auto.
    + exists blob0. split; [ reflexivity | exact Hdec ].
    + eauto.
    + intros b [<-|Hin]; [ eauto | apply Hall; exact Hin ].
    + intros b slot sg [<-|Hin] Hc.
      * destruct Hc as (st & Hdec' & Hs). rewrite Hdec in Hdec'.
        injection Hdec' as <-. unfold blob_sig_at in Hs. rewrite Hmsig in Hs.
        apply Hkeep. exact Hs.
      * eapply Hcontrib; eassumption.
    + intros slot sg Hs. apply Hprov in Hs as [Hs|(b & Hin & Hc)].
      * exists blob0. split; [ left; reflexivity | ].
        exists first. split; [ exact Hdec | ].
        unfold blob_sig_at. rewrite Hmsig. exact Hs.
      * exists b. split; [ right; exact Hin | exact Hc ].
  - injection H as <-. eexists. cbn.
    repeat split; auto.
    + exists blob0. split; [ reflexivity | exact Hdec ].
    + intros b [<-|Hin]; [ eauto | apply Hall; exact Hin ].
    + intros b slot sg [<-|Hin] Hc.
      * destruct Hc as (st & Hdec' & Hs). rewrite Hdec in Hdec'.
        injection Hdec' as <-. unfold blob_sig_at in Hs. rewrite Hmsig in Hs.
        apply Hkeep. exact Hs.
      * eapply Hcontrib; eassumption.
    + intros slot sg Hs. apply Hprov in Hs as [Hs|(b & Hin & Hc)].
      * exists blob0. split; [ left; reflexivity | ].
        exists first. split; [ exact Hdec | ].
        unfold blob_sig_at. rewrite Hmsig. exact Hs.
      * exists b. split; [ right; exact Hin | exact Hc ].
Qed.

Lemma merge_signedTxn_succeeds blobs refTxID refAuthAddr refLength
    refMsigAddr :
  (2 <= List.length blobs)%nat ->
  (forall blob, In blob blobs ->
     exists signedTxn msig,
       decode_signed blob = Ok signedTxn
       /\ blob_matches refTxID refAuthAddr refLength refMsigAddr
            signedTxn msig) ->
  conflict_free blobs ->
  (forall a, refAuthAddr = Some a -> exists d, decodeAddress a = Ok d) ->
  exists result_, mergeMultisigTransactions_signedTxn blobs = Ok result_.
Proof.
  intros Hlen Hall Hfree Hauth.
  unfold mergeMultisigTransactions_signedTxn.
  apply Nat.ltb_ge in Hlen. rewrite Hlen.
  destruct blobs as [|blob0 others]; [ discriminate Hlen | ].
  destruct (Hall blob0 (or_introl eq_refl))
    as (first & firstMsig & Hdec & Hmsig & Htx & Ha & Hl & Haddr).
  rewrite Hdec, Hmsig. unfold blob_txID in Htx.
  destruct (from_obj_for_encoding (Enc.txn first)) as [refTxn|];
    [ | discriminate ].
  rewrite Htx, Haddr, Ha.
  destruct (merge_loop_succeeds firstMsig refTxID refAuthAddr refMsigAddr
              others (Enc.subsig firstMsig)) as (newSubsigs & Hloop).
  - reflexivity.
  - intros b Hin. rewrite Hl. apply Hall. right. exact Hin.
  - intros b slot sg sg' Hin Hc Hs.
    apply (Hfree b blob0 slot sg sg'); auto.
    + right. exact Hin.
    + left. reflexivity.
    + exists first. split; [ exact Hdec | ].
      unfold blob_sig_at. rewrite Hmsig. exact Hs.
  - intros b b' slot sg sg' Hin Hin'. apply Hfree; right; assumption.
  - rewrite Hloop. destruct refAuthAddr as [a|].
    + destruct (Hauth a eq_refl) as (d & ->). eexists. reflexivity.
    + eexists. reflexivity.
Qed.

Lemma decodes_at_In blobs index signedTxn :
  decodes_at blobs index signedTxn ->
  exists blob, In blob blobs /\ decode_signed blob = Ok signedTxn.
Proof.
  intros (blob & Hnth & Hdec). exists blob.
  split; [ eapply nth_error_In; eassumption | exact Hdec ].
Qed.

Lemma blob_matches_at blobs index signedTxn refTxID refAuthAddr refLength
    refMsigAddr :
  (forall blob, In blob blobs ->
     exists st msig,
       decode_signed blob = Ok st
       /\ blob_matches refTxID refAuthAddr refLength refMsigAddr st msig) ->
  decodes_at blobs index signedTxn ->
  exists msig,
    blob_matches refTxID refAuthAddr refLength refMsigAddr signedTxn msig.
Proof.
  intros Hall Hat. apply decodes_at_In in Hat as (blob & Hin & Hdec).
  destruct (Hall blob Hin) as (st & msig & Hdec' & Hmatch).
  rewrite Hdec in Hdec'. injection Hdec' as <-. eauto.
Qed.

(** C7. [mergeMultisigTransactions] throws, and so yields no blob, when
    fewer than two blobs are given, when a blob has no [msig], when a blob's
    transaction ID, auth-address, subsig length or pre-image address differs
    from the first blob's, or when two blobs carry different signatures for
    the same slot. *)
Theorem merge_rejects blobs :
  merge_rejection blobs -> throws (mergeMultisigTransactions blobs).
Proof.
  intros Hrej. apply not_ok_throws. intros out Hmerge.
  unfold mergeMultisigTransactions in Hmerge.
  destruct (mergeMultisigTransactions_signedTxn blobs) as [merged|] eqn:Hm;
    [ clear Hmerge | discriminate ].
  apply merge_signedTxn_inv in Hm
      as (refTxID & refAuthAddr & refMsigAddr & first & firstMsig & msig
          & Hlen & _ & _ & _ & _ & _ & _ & _ & _ & _ & Hall & Hcontrib & _).
  destruct Hrej
    as [ Hfew
       | index st Hat Hnone
       | index st0 st Hat0 Hat Hneq
       | index st0 st Hat0 Hat Hneq
       | index st0 st m0 m Hat0 Hat Hm0 Hm1 Hneq
       | i j sti stj slot sgi sgj Hati Hatj Hsi Hsj Hneq ].
  - lia.
  - destruct (blob_matches_at _ _ _ _ _ _ _ Hall Hat) as (m & Hm1 & _).
    congruence.
  - destruct (blob_matches_at _ _ _ _ _ _ _ Hall Hat) as (m & _ & Ht & _).
    destruct (blob_matches_at _ _ _ _ _ _ _ Hall Hat0) as (m0 & _ & Ht0 & _).
    congruence.
  - destruct (blob_matches_at _ _ _ _ _ _ _ Hall Hat) as (m & _ & _ & Ha & _).
    destruct (blob_matches_at _ _ _ _ _ _ _ Hall Hat0) as (m0 & _ & _ & Ha0 & _).
    congruence.
  - destruct (blob_matches_at _ _ _ _ _ _ _ Hall Hat)
      as (m' & Hm' & _ & _ & Hl & Haddr).
    destruct (blob_matches_at _ _ _ _ _ _ _ Hall Hat0)
      as (m0' & Hm0' & _ & _ & Hl0 & Haddr0).
    assert (m' = m) by congruence. assert (m0' = m0) by congruence. subst.
    destruct Hneq as [Hneq|Hneq]; congruence.
  - apply decodes_at_In in Hati as (bi & Hini & Hdeci).
    apply decodes_at_In in Hatj as (bj & Hinj & Hdecj).
    assert (sig_at (Enc.subsig msig) slot = Some sgi) as Hi.
    { apply (Hcontrib bi); [ exact Hini | exists sti; auto ]. }
    assert (sig_at (Enc.subsig msig) slot = Some sgj) as Hj.
    { apply (Hcontrib bj); [ exact Hinj | exists stj; auto ]. }
    congruence.
Qed.

Lemma sig_at_map subsigs slot :
  nth_error (map Enc.s subsigs) slot
  = match nth_error subsigs slot with
    | Some subsig => Some (Enc.s subsig)
    | None => None
    end.
Proof.
  revert slot. induction subsigs as [|x rest IH]; intros [|slot]; cbn; auto.
Qed.

Lemma same_signatures (l l' : list Enc.EncodedSubsig) :
  List.length l = List.length l' ->
  (forall slot sg, sig_at l slot = Some sg <-> sig_at l' slot = Some sg) ->
  map Enc.s l = map Enc.s l'.
Proof.
  revert l'. induction l as [|x rest IH]; intros [|x' rest'] Hlen Hsig;
    try discriminate Hlen; [ reflexivity | ].
  cbn. f_equal.
  - specialize (Hsig 0%nat). unfold sig_at in Hsig. cbn in Hsig.
    destruct (Enc.s x) as [sg|], (Enc.s x') as [sg'|]; auto.
    + symmetry. apply (proj1 (Hsig sg)). reflexivity.
    + symmetry. apply (proj1 (Hsig sg)). reflexivity.
    + apply (proj2 (Hsig sg')). reflexivity.
  - apply IH; [ cbn in Hlen; congruence | ].
    intros slot sg. apply (Hsig (S slot) sg).
Qed.

(** Two successful merges whose inputs contribute the same signatures to
    the same slots have the same slot signatures. *)
Lemma merge_same_contributions blobs blobs' merged merged' :
  mergeMultisigTransactions_signedTxn blobs = Ok merged ->
  mergeMultisigTransactions_signedTxn blobs' = Ok merged' ->
  List.length (slot_signatures merged) = List.length (slot_signatures merged') ->
  (forall slot sg,
      (exists blob, In blob blobs /\ contributes blob slot sg)
      <-> (exists blob, In blob blobs' /\ contributes blob slot sg)) ->
  slot_signatures merged' = slot_signatures merged.
Proof.
  intros Hm Hm' Hlen Hsame.
  apply merge_signedTxn_inv in Hm
      as (? & ? & ? & ? & ? & msig & _ & _ & _ & Hmsig & _ & _ & _ & _ & _ & _
          & _ & Hcontrib & Hprov).
  apply merge_signedTxn_inv in Hm'
      as (? & ? & ? & ? & ? & msig' & _ & _ & _ & Hmsig' & _ & _ & _ & _ & _
          & _ & _ & Hcontrib' & Hprov').
  unfold slot_signatures in *. rewrite Hmsig, Hmsig' in *.
  rewrite !length_map in Hlen.
  apply same_signatures; [ congruence | ].
  intros slot sg. split; intros Hs.
  - apply Hprov' in Hs. apply Hsame in Hs as (b & Hin & Hc). eauto.
  - apply Hprov in Hs. apply Hsame in Hs as (b & Hin & Hc). eauto.
Qed.

Lemma merge_conflict_free blobs merged :
  mergeMultisigTransactions_signedTxn blobs = Ok merged -> conflict_free blobs.
Proof.
  intros Hm.
  apply merge_signedTxn_inv in Hm
      as (? & ? & ? & ? & ? & msig & _ & _ & _ & _ & _ & _ & _ & _ & _ & _
          & _ & Hcontrib & _).
  intros b b' slot sg sg' Hin Hin' Hc Hc'.
  pose proof (Hcontrib b slot sg Hin Hc).
  pose proof (Hcontrib b' slot sg' Hin' Hc'). congruence.
Qed.

(** Order does not matter. *)
Lemma merge_permutation blobs blobs' merged :
  Permutation blobs blobs' ->
  mergeMultisigTransactions_signedTxn blobs = Ok merged ->
  exists merged',
    mergeMultisigTransactions_signedTxn blobs' = Ok merged'
    /\ slot_signatures merged' = slot_signatures merged.
Proof.
  intros Hperm Hm.
  pose proof (merge_conflict_free _ _ Hm) as Hfree.
  pose proof Hm as Hinv.
  apply merge_signedTxn_inv in Hinv
      as (refTxID & refAuthAddr & refMsigAddr & first & firstMsig & msig
          & Hlen & _ & _ & Hmsig & _ & _ & _ & _ & Hl & Hauth & Hall & _ & _).
  destruct (merge_signedTxn_succeeds blobs' refTxID refAuthAddr
              (List.length (Enc.subsig firstMsig)) refMsigAddr)
    as (merged' & Hm').
  - rewrite <- (Permutation_length Hperm). exact Hlen.
  - intros b Hin. apply Hall. eapply Permutation_in;
      [ apply Permutation_sym; exact Hperm | exact Hin ].
  - intros b b' slot sg sg' Hin Hin'.
    apply Hfree; eapply Permutation_in;
      try (apply Permutation_sym; exact Hperm); assumption.
  - intros a ->. destruct Hauth as (d & Hd & _). eauto.
  - exists merged'. split; [ exact Hm' | ].
    eapply merge_same_contributions; try eassumption.
    + pose proof Hm' as Hinv'.
      apply merge_signedTxn_inv in Hinv'
          as (refTxID' & refAuthAddr' & refMsigAddr' & first' & firstMsig'
              & msig' & _ & Hat' & Hfm' & Hmsig' & _ & _ & _ & _ & Hl' & _
              & _ & _ & _).
      unfold slot_signatures. rewrite Hmsig, Hmsig', !length_map, Hl, Hl'.
      apply decodes_at_In in Hat' as (b & Hin & Hdec).
      destruct (Hall b) as (st & m & Hdec' & Hm1 & _ & _ & Hlm & _).
      { eapply Permutation_in;
          [ apply Permutation_sym; exact Hperm | exact Hin ]. }
      rewrite Hdec in Hdec'. injection Hdec' as <-. congruence.
    + intros slot sg. split; intros (b & Hin & Hc); exists b; split; auto;
        eapply Permutation_in; try eassumption.
      apply Permutation_sym. exact Hperm.
Qed.

Lemma contributes_inj blob slot sg sg' :
  contributes blob slot sg -> contributes blob slot sg' -> sg = sg'.
Proof.
  intros (st & Hdec & Hs) (st' & Hdec' & Hs'). congruence.
Qed.

(** Merging a blob with itself gives back its own signatures. *)
Lemma merge_idempotent blob others merged signedTxn :
  mergeMultisigTransactions_signedTxn (blob :: others) = Ok merged ->
  decode_signed blob = Ok signedTxn ->
  exists merged',
    mergeMultisigTransactions_signedTxn [blob; blob] = Ok merged'
    /\ slot_signatures merged' = slot_signatures signedTxn.
Proof.
  intros Hm Hdec.
  apply merge_signedTxn_inv in Hm
      as (refTxID & refAuthAddr & refMsigAddr & first & firstMsig & msig
          & _ & _ & _ & _ & _ & _ & _ & _ & _ & Hauth & Hall & _ & _).
  destruct (Hall blob (or_introl eq_refl)) as (st & m & Hdec' & Hmatch).
  rewrite Hdec in Hdec'. injection Hdec' as <-.
  destruct (merge_signedTxn_succeeds [blob; blob] refTxID refAuthAddr
              (List.length (Enc.subsig firstMsig)) refMsigAddr)
    as (merged' & Hm').
  - cbn. lia.
  - intros b [<-|[<-|[]]]; eauto.
  - intros b b' slot sg sg' [<-|[<-|[]]] [<-|[<-|[]]]; apply contributes_inj.
  - intros a ->. destruct Hauth as (d & Hd & _). eauto.
  - exists merged'. split; [ exact Hm' | ].
    apply merge_signedTxn_inv in Hm'
        as (? & ? & ? & first' & firstMsig' & msig' & _ & Hat' & Hfm' & Hmsig'
            & _ & _ & _ & _ & Hl' & _ & _ & Hcontrib' & Hprov').
    destruct Hat' as (b0 & [= <-] & Hdec0). rewrite Hdec in Hdec0.
    injection Hdec0 as <-.
    unfold slot_signatures. rewrite Hmsig', Hfm'.
    apply same_signatures; [ exact Hl' | ].
    intros slot sg. split; intros Hs.
    + apply Hprov' in Hs as (b & [<-|[<-|[]]] & (st & Hdec1 & Hs));
        rewrite Hdec in Hdec1; injection Hdec1 as <-;
        unfold blob_sig_at in Hs; rewrite Hfm' in Hs; exact Hs.
    + apply (Hcontrib' blob); [ left; reflexivity | ].
      exists signedTxn. split; [ exact Hdec | ].
      unfold blob_sig_at. rewrite Hfm'. exact Hs.
Qed.

Lemma msigAddrOf_same msig msig' :
  Enc.v msig = Enc.v msig' -> Enc.thr msig = Enc.thr msig' ->
  map Enc.pk (Enc.subsig msig) = map Enc.pk (Enc.subsig msig') ->
  msigAddrOf msig = msigAddrOf msig'.
Proof. unfold msigAddrOf. intros -> -> ->. reflexivity. Qed.

Lemma In_middle {A} (x : A) xs ys zs :
  In x ys -> In x (xs ++ ys ++ zs)%list.
Proof. intros H. apply in_or_app. right. apply in_or_app. left. exact H. Qed.

(** Grouping does not matter: a block of at least two of the blobs can be
    merged first and its result merged with the others. *)
Lemma merge_grouping xs ys zs merged :
  mergeMultisigTransactions_signedTxn (xs ++ ys ++ zs)%list = Ok merged ->
  (2 <= List.length ys)%nat ->
  (1 <= List.length xs + List.length zs)%nat ->
  exists inner,
    mergeMultisigTransactions_signedTxn ys = Ok inner
    /\ (decode_signed (encode_signed inner) = Ok inner ->
        (forall st a, decodes_at ys 0 st -> authAddrOf st = Some a ->
                      address_text_roundtrip a) ->
        exists merged',
          mergeMultisigTransactions_signedTxn
            (xs ++ encode_signed inner :: zs)%list = Ok merged'
          /\ slot_signatures merged' = slot_signatures merged).
Proof.
  intros Hm Hys Hrest.
  pose proof (merge_conflict_free _ _ Hm) as Hfree.
  pose proof Hm as Hinv.
  apply merge_signedTxn_inv in Hinv
      as (refTxID & refAuthAddr & refMsigAddr & first & firstMsig & msig
          & Hlen & _ & _ & Hmsig & _ & _ & _ & _ & Hl & Hauth & Hall
          & Hcontrib & Hprov).
  set (len := List.length (Enc.subsig firstMsig)) in *.
  assert (forall a, refAuthAddr = Some a -> exists d, decodeAddress a = Ok d)
    as Hauthdec.
  { intros a ->. destruct Hauth as (d & Hd & _). eauto. }
  destruct (merge_signedTxn_succeeds ys refTxID refAuthAddr len refMsigAddr)
    as (inner & Hinner); auto.
  { intros b Hin. apply Hall. apply In_middle. exact Hin. }
  { intros b b' slot sg sg' Hin Hin'. apply Hfree; apply In_middle; assumption. }
  exists inner. split; [ exact Hinner | ].
  intros Hcodec Htext.
  pose proof Hinner as Hinv'.
  apply merge_signedTxn_inv in Hinv'
      as (tid' & auth' & addr' & fy & fyMsig & innerMsig
          & _ & Haty & Hfy & Hinnermsig & Htxn & Hv & Hthr & Hpk & Hlin
          & Hauth' & Hally & Hcontriby & Hprovy).
  (* the first blob of the block matches both sets of reference data *)
  destruct (blob_matches_at _ _ _ _ _ _ _ Hally Haty)
    as (m1 & Hm1 & Htx1 & Ha1 & Hl1 & Haddr1).
  assert (exists m2, blob_matches refTxID refAuthAddr len refMsigAddr fy m2)
    as (m2 & Hm2 & Htx2 & Ha2 & Hl2 & Haddr2).
  { eapply blob_matches_at; [ | exact Haty ].
    intros b Hin. apply Hall. apply In_middle. exact Hin. }
  assert (m1 = fyMsig) by congruence. assert (m2 = fyMsig) by congruence.
  subst m1 m2.
  assert (tid' = refTxID) by congruence.
  assert (auth' = refAuthAddr) by congruence.
  assert (addr' = refMsigAddr) by congruence. subst tid' auth' addr'.
  assert (blob_matches refTxID refAuthAddr len refMsigAddr inner innerMsig)
    as Hinnermatch.
  { unfold blob_matches. repeat split.
    - exact Hinnermsig.
    - unfold blob_txID in *. rewrite Htxn. exact Htx2.
    - unfold authAddrOf. destruct refAuthAddr as [a|].
      + rewrite Ha2 in Hauth'. destruct Hauth' as (d & Hd & ->).
        cbn. f_equal.
        apply (Htext fy a Haty Ha2). exact Hd.
      + rewrite Ha2 in Hauth'. rewrite Hauth'. reflexivity.
    - congruence.
    - rewrite (msigAddrOf_same innerMsig fyMsig Hv Hthr Hpk). exact Haddr2. }
  assert (forall slot sg,
             contributes (encode_signed inner) slot sg
             <-> exists b, In b ys /\ contributes b slot sg) as Hinnersigs.
  { intros slot sg. split.
    - intros (st & Hdec & Hs). rewrite Hcodec in Hdec. injection Hdec as <-.
      unfold blob_sig_at in Hs. rewrite Hinnermsig in Hs.
      apply Hprovy. exact Hs.
    - intros (b & Hin & Hc). exists inner. split; [ exact Hcodec | ].
      unfold blob_sig_at. rewrite Hinnermsig. eapply Hcontriby; eassumption. }
  assert (forall slot sg,
             (exists b, In b (xs ++ ys ++ zs)%list /\ contributes b slot sg)
             <-> (exists b, In b (xs ++ encode_signed inner :: zs)%list
                            /\ contributes b slot sg)) as Hsame.
  { intros slot sg. split.
    - intros (b & Hin & Hc).
      apply in_app_or in Hin as [Hin|Hin];
        [ exists b; split; [ apply in_or_app; left; exact Hin | exact Hc ] | ].
      apply in_app_or in Hin as [Hin|Hin].
      + exists (encode_signed inner). split.
        * apply in_or_app. right. left. reflexivity.
        * apply Hinnersigs. eauto.
      + exists b. split; [ apply in_or_app; right; right; exact Hin | exact Hc ].
    - intros (b & Hin & Hc).
      apply in_app_or in Hin as [Hin|[<-|Hin]].
      + exists b. split; [ apply in_or_app; left; exact Hin | exact Hc ].
      + apply Hinnersigs in Hc as (b' & Hin' & Hc').
        exists b'. split; [ apply In_middle; exact Hin' | exact Hc' ].
      + exists b. split; [ | exact Hc ].
        apply in_or_app. right. apply in_or_app. right. exact Hin. }
  destruct (merge_signedTxn_succeeds (xs ++ encode_signed inner :: zs)%list
              refTxID refAuthAddr len refMsigAddr)
    as (merged' & Hm'); auto.
  { rewrite length_app. cbn [List.length]. lia. }
  { intros b Hin. apply in_app_or in Hin as [Hin|[<-|Hin]].
    - apply Hall. apply in_or_app. left. exact Hin.
    - eauto.
    - apply Hall. apply in_or_app. right. apply in_or_app. right. exact Hin. }
  { intros b b' slot sg sg' Hin Hin' Hc Hc'.
    assert (sig_at (Enc.subsig msig) slot = Some sg) as H1.
    { destruct (proj2 (Hsame slot sg)) as (b1 & Hin1 & Hc1); eauto. }
    assert (sig_at (Enc.subsig msig) slot = Some sg') as H2.
    { destruct (proj2 (Hsame slot sg')) as (b1 & Hin1 & Hc1); eauto. }
    congruence. }
  exists merged'. split; [ exact Hm' | ].
  eapply merge_same_contributions; try eassumption.
  pose proof Hm' as Hinv'.
  apply merge_signedTxn_inv in Hinv'
      as (? & ? & ? & first' & firstMsig' & msig' & _ & Hat' & Hfm' & Hmsig'
          & _ & _ & _ & _ & Hl' & _ & Hall' & _ & _).
  unfold slot_signatures. rewrite Hmsig, Hmsig', !length_map, Hl, Hl'.
  destruct (blob_matches_at _ _ _ _ _ _ _ Hall' Hat')
    as (mf & Hmf & _ & _ & Hlf & _).
  assert (mf = firstMsig') by congruence. subst mf.
  apply decodes_at_In in Hat' as (b & Hin & Hdec).
  assert (exists st m, decode_signed b = Ok st
                       /\ blob_matches refTxID refAuthAddr len refMsigAddr st m)
    as (st & m & Hdec' & Hmm & _ & _ & Hlm & _).
  { apply in_app_or in Hin as [Hin|[<-|Hin]].
    - apply Hall. apply in_or_app. left. exact Hin.
    - eauto.
    - apply Hall. apply in_or_app. right. apply in_or_app. right. exact Hin. }
  rewrite Hdec in Hdec'. injection Hdec' as <-.
  assert (m = firstMsig') by congruence. subst m. symmetry. exact Hlm.
Qed.

(** What [mergeMultisigTransactions] returns is the encoding of the merged
    signed transaction. *)
Lemma mergeMultisigTransactions_Ok blobs out :
  mergeMultisigTransactions blobs = Ok out
  <-> exists merged,
        mergeMultisigTransactions_signedTxn blobs = Ok merged
        /\ out = encode_signed merged.
Proof.
  unfold mergeMultisigTransactions.
  destruct (mergeMultisigTransactions_signedTxn blobs) as [merged|]; split.
  - intros [= <-]. eauto.
  - intros (m & [= <-] & ->). reflexivity.
  - discriminate.
  - intros (m & Hm & _). discriminate Hm.
Qed.

Lemma blob_carries_encoded signedTxn sigs :
  slot_signatures signedTxn = sigs ->
  blob_carries (encode_signed signedTxn) sigs.
Proof.
  intros <-. exists signedTxn. split; [ reflexivity | ].
  split; [ reflexivity | ].
  unfold blob_signatures. intros ->. reflexivity.
Qed.

(** C8. On inputs that merge (which are conflict-free), the slot
    signatures of the blob that [mergeMultisigTransactions] returns do not
    depend on the order of the blobs, nor on their grouping (a block of two
    or more may be merged first and the blob returned for it merged with the
    rest, provided the codec reads back what that blob encodes and the
    address codec gives the auth-address text back), and merging a blob
    with itself
    returns a blob with the blob's own slot signatures.  Conversely,
    conflict-free blobs that agree with one another on transaction ID,
    auth-address, subsig length and pre-image address do merge. *)
Theorem merge_commutative_associative_idempotent :
  (forall blobs out,
      mergeMultisigTransactions blobs = Ok out -> conflict_free blobs)
  /\ (forall blobs refTxID refAuthAddr refLength refMsigAddr,
         (2 <= List.length blobs)%nat ->
         (forall blob, In blob blobs ->
            exists signedTxn msig,
              decode_signed blob = Ok signedTxn
              /\ blob_matches refTxID refAuthAddr refLength refMsigAddr
                   signedTxn msig) ->
         conflict_free blobs ->
         (forall a, refAuthAddr = Some a -> exists d, decodeAddress a = Ok d) ->
         exists out, mergeMultisigTransactions blobs = Ok out)
  /\ (forall blobs blobs' out,
         Permutation blobs blobs' ->
         mergeMultisigTransactions blobs = Ok out ->
         exists out' sigs,
           mergeMultisigTransactions blobs' = Ok out'
           /\ blob_carries out sigs /\ blob_carries out' sigs)
  /\ (forall xs ys zs out,
         mergeMultisigTransactions (xs ++ ys ++ zs)%list = Ok out ->
         (2 <= List.length ys)%nat ->
         (1 <= List.length xs + List.length zs)%nat ->
         exists inner,
           mergeMultisigTransactions ys = Ok inner
           /\ ((forall innerTxn,
                  mergeMultisigTransactions_signedTxn ys = Ok innerTxn ->
                  reads_back innerTxn) ->
               (forall st a, decodes_at ys 0 st -> authAddrOf st = Some a ->
                             address_text_roundtrip a) ->
               exists out' sigs,
                 mergeMultisigTransactions (xs ++ inner :: zs)%list = Ok out'
                 /\ blob_carries out sigs /\ blob_carries out' sigs))
  /\ (forall blob others out signedTxn,
         mergeMultisigTransactions (blob :: others) = Ok out ->
         decode_signed blob = Ok signedTxn ->
         exists out',
           mergeMultisigTransactions [blob; blob] = Ok out'
           /\ blob_carries out' (slot_signatures signedTxn)).
Proof.
  split; [ | split; [ | split; [ | split ] ] ].
  - intros blobs out Hout.
    apply mergeMultisigTransactions_Ok in Hout as (merged & Hm & _).
    eapply merge_conflict_free. exact Hm.
  - intros blobs refTxID refAuthAddr refLength refMsigAddr Hlen Hall Hfree Hauth.
    destruct (merge_signedTxn_succeeds blobs refTxID refAuthAddr refLength
                refMsigAddr Hlen Hall Hfree Hauth) as (merged & Hm).
    exists (encode_signed merged).
    apply mergeMultisigTransactions_Ok. eauto.
  - intros blobs blobs' out Hperm Hout.
    apply mergeMultisigTransactions_Ok in Hout as (merged & Hm & ->).
    destruct (merge_permutation _ _ _ Hperm Hm) as (merged' & Hm' & Hsame).
    exists (encode_signed merged'), (slot_signatures merged).
    split; [ apply mergeMultisigTransactions_Ok; eauto | ].
    split; apply blob_carries_encoded; auto.
  - intros xs ys zs out Hout Hys Hrest.
    apply mergeMultisigTransactions_Ok in Hout as (merged & Hm & ->).
    destruct (merge_grouping _ _ _ _ Hm Hys Hrest)
      as (innerTxn & Hinner & Hthen).
    exists (encode_signed innerTxn).
    split; [ apply mergeMultisigTransactions_Ok; eauto | ].
    intros Hcodec Htext.
    destruct (Hthen (Hcodec _ Hinner) Htext) as (merged' & Hm' & Hsame).
    exists (encode_signed merged'), (slot_signatures merged).
    split; [ apply mergeMultisigTransactions_Ok; eauto | ].
    split; apply blob_carries_encoded; auto.
  - intros blob others out signedTxn Hout Hdec.
    apply mergeMultisigTransactions_Ok in Hout as (merged & Hm & ->).
    destruct (merge_idempotent _ _ _ _ Hm Hdec) as (merged' & Hm' & Hsame).
    exists (encode_signed merged').
    split; [ apply mergeMultisigTransactions_Ok; eauto | ].
    apply blob_carries_encoded. exact Hsame.
Qed.

End Merge.

Lemma merge_rejects_witness :
  throws (mergeMultisigTransactions (E := Sample.externals)
            [[x00; x05; x00]; [x00; x06; x07]]).
Proof.
  apply (@merge_rejects Sample.externals).
  eapply (signature_conflict _ 0 1 _ _ 0 [x05] [x06]).
  - eexists. split; [ reflexivity | vm_compute; reflexivity ].
  - eexists. split; [ reflexivity | vm_compute; reflexivity ].
  - reflexivity.
  - reflexivity.
  - discriminate.
Defined.

Lemma merge_commutative_associative_idempotent_witness :
  (mergeMultisigTransactions (E := Sample.externals)
     [[x00; x05; x00]; [x00; x00; x07]] = Ok [x00; x05; x07]
   /\ exists out' sigs,
        mergeMultisigTransactions (E := Sample.externals)
          [[x00; x00; x07]; [x00; x05; x00]] = Ok out'
        /\ blob_carries (E := Sample.externals) [x00; x05; x07] sigs
        /\ blob_carries (E := Sample.externals) out' sigs)
  /\ (mergeMultisigTransactions (E := Sample.externals)
        [[x00; x05; x00; x00]; [x00; x00; x07; x00]; [x00; x00; x00; x09]]
      = Ok [x00; x05; x07; x09]
      /\ mergeMultisigTransactions (E := Sample.externals)
           [[x00; x00; x07; x00]; [x00; x00; x00; x09]]
         = Ok [x00; x00; x07; x09]
      /\ exists out' sigs,
           mergeMultisigTransactions (E := Sample.externals)
             [[x00; x05; x00; x00]; [x00; x00; x07; x09]] = Ok out'
           /\ blob_carries (E := Sample.externals) [x00; x05; x07; x09] sigs
           /\ blob_carries (E := Sample.externals) out' sigs).
Proof.
  pose proof (@merge_commutative_associative_idempotent Sample.externals)
    as (_ & _ & Hperm & Hgroup & _).
  split.
  - split; [ vm_compute; reflexivity | ].
    apply (Hperm [[x00; x05; x00]; [x00; x00; x07]]).
    + apply perm_swap.
    + vm_compute. reflexivity.
  - split; [ vm_compute; reflexivity | ].
    split; [ vm_compute; reflexivity | ].
    destruct (Hgroup [[x00; x05; x00; x00]]
                [[x00; x00; x07; x00]; [x00; x00; x00; x09]] [] _
                ltac:(vm_compute; reflexivity) ltac:(cbn; lia) ltac:(cbn; lia))
      as (inner & Hinner & Hrest).
    vm_compute in Hinner. injection Hinner as <-.
    apply Hrest.
    + intros innerTxn HinnerTxn. vm_compute in HinnerTxn.
      injection HinnerTxn as <-. vm_compute. reflexivity.
    + intros st a (blob & [= <-] & Hdec) Ha.
      vm_compute in Hdec. injection Hdec as <-. discriminate Ha.
Defined.

(** ** Round trip through the canonical encoding *)

Section RoundTrip.

Context {E : Externals}.

Lemma orElse_truthyZ x : orElse (truthyZ x) 0 = x.
Proof.
  unfold truthyZ. destruct (x =? 0) eqn:Hx; [ | reflexivity ].
  apply Z.eqb_eq in Hx. subst. reflexivity.
Qed.

Lemma orElse_truthyBool b : orElse (truthyBool b) false = b.
Proof. destruct b; reflexivity. Qed.

Lemma orElse_truthyString str : orElse (truthyString str) "" = str.
Proof.
  unfold truthyString. destruct (String.eqb str "") eqn:Hs; [ | reflexivity ].
  apply String.eqb_eq in Hs. subst. reflexivity.
Qed.

Lemma orElse_nonEmpty {A} (l : list A) : orElse (nonEmpty l) [] = l.
Proof. destruct l; reflexivity. Qed.

Lemma orElse_nonEmpty_bytes (b : bytes) : @orElse bytes (nonEmpty b) [] = b.
Proof. destruct b; reflexivity. Qed.

Lemma truthyString_idem (o : option string) :
  let g := match o with Some x => truthyString x | None => None end in
  match g with Some x => truthyString x | None => None end = g.
Proof.
  destruct o as [x|]; [ | reflexivity ]. cbn. unfold truthyString.
  destruct (String.eqb x "") eqn:Hx; [ reflexivity | ]. rewrite Hx. reflexivity.
Qed.

Lemma ensureUint64_again value x :
  ensureUint64 value = Ok x -> ensureUint64 x = Ok x.
Proof.
  unfold ensureUint64.
  destruct ((0 <=? value) && (value <=? MAX_UINT_64)) eqn:Hr; [ | discriminate ].
  intros [= <-]. rewrite Hr. reflexivity.
Qed.

Lemma ensureUint64_truthy value x :
  ensureUint64 value = Ok x -> ensureUint64 (orElse (truthyZ x) 0) = Ok x.
Proof. rewrite orElse_truthyZ. apply ensureUint64_again. Qed.

Lemma ensureSafeUnsignedInteger_again value x :
  ensureSafeUnsignedInteger value = Ok x ->
  ensureSafeUnsignedInteger (orElse (truthyZ x) 0) = Ok x.
Proof.
  rewrite orElse_truthyZ. unfold ensureSafeUnsignedInteger.
  destruct ((0 <=? value) && (value <=? safeUnsignedMax)) eqn:Hr;
    [ | discriminate ].
  intros [= <-]. rewrite Hr. reflexivity.
Qed.

Lemma optionalUint64_again input o :
  optionalUint64 input = Ok o -> optionalUint64 o = Ok o.
Proof.
  unfold optionalUint64. destruct input as [value|]; [ | intros [= <-]; reflexivity ].
  destruct (ensureUint64 value) as [x|] eqn:Hx; [ | discriminate ].
  intros [= <-]. rewrite (ensureUint64_again _ _ Hx). reflexivity.
Qed.

Lemma truthyOptZ_nonzero o : o <> Some 0 -> truthyOptZ o = o.
Proof.
  destruct o as [x|]; [ | reflexivity ]. cbn. unfold truthyZ.
  destruct (x =? 0) eqn:Hx; [ | reflexivity ].
  apply Z.eqb_eq in Hx. subst. congruence.
Qed.

Lemma optionalFixedLengthByteArray_again input len name o :
  optionalFixedLengthByteArray input len name = Ok o ->
  optionalFixedLengthByteArray o len name = Ok o.
Proof.
  destruct o as [b|].
  - intros H. apply optionalFixedLengthByteArray_Some in H as (_ & Hlen & Hz).
    unfold optionalFixedLengthByteArray, optionalUint8Array.
    rewrite Hlen, Nat.eqb_refl, Hz. reflexivity.
  - reflexivity.
Qed.

Lemma all_zero_32 (b : bytes) :
  List.length b = 32%nat -> uint8ArrayIsEmpty b = true -> b = zeroKey.
Proof.
  intros Hlen Hz. unfold uint8ArrayIsEmpty in Hz.
  rewrite forallb_forall in Hz.
  assert (forall x, In x b -> x = x00) as Hall.
  { intros x Hin. apply Hz in Hin. destruct x; try discriminate Hin. reflexivity. }
  unfold zeroKey. rewrite <- Hlen. clear Hlen Hz.
  induction b as [|x rest IH]; [ reflexivity | ].
  cbn. rewrite (Hall x (or_introl eq_refl)). f_equal.
  apply IH. intros y Hin. apply Hall. right. exact Hin.
Qed.

(** A required address comes back, also when it is the zero address. *)
Lemma ensureAddress_roundtrip a :
  zero_address_text -> canonical_address a ->
  ensureAddress (addressTextOrZero (addressKey a)) = Ok a.
Proof.
  intros Hzero (Hlen & Hcodec). unfold addressKey.
  destruct (uint8ArrayIsEmpty (publicKey a)) eqn:Hz; cbn.
  - rewrite <- Hzero. rewrite <- (all_zero_32 _ Hlen Hz). exact Hcodec.
  - exact Hcodec.
Qed.

(** An optional address comes back. *)
Lemma optionalAddress_roundtrip input o :
  optionalAddress input = Ok o -> canonical_opt o ->
  optionalAddress (option_map addressText (option_map publicKey o)) = Ok o.
Proof.
  intros H Hcan. destruct o as [a|]; [ | reflexivity ].
  apply optionalAddress_set in H. unfold default_address in H.
  destruct (Hcan a eq_refl) as (_ & Hcodec).
  cbn. rewrite Hcodec, H. reflexivity.
Qed.

Lemma mapM_ensureUint64_again xs ys :
  mapM ensureUint64 xs = Ok ys -> mapM ensureUint64 ys = Ok ys.
Proof.
  revert ys. induction xs as [|x rest IH]; intros ys; cbn.
  - intros [= <-]. reflexivity.
  - destruct (ensureUint64 x) as [y|] eqn:Hx; [ | discriminate ].
    destruct (mapM ensureUint64 rest) as [tail|]; [ | discriminate ].
    intros [= <-]. cbn. rewrite (ensureUint64_again _ _ Hx), (IH tail eq_refl).
    reflexivity.
Qed.

Lemma mapM_ensureUint8Array xs : mapM ensureUint8Array xs = Ok xs.
Proof.
  induction xs as [|x rest IH]; cbn; [ reflexivity | ].
  rewrite IH. reflexivity.
Qed.

Lemma mapM_ensureAddress_roundtrip accounts :
  Forall canonical_address accounts ->
  mapM ensureAddress (map addressText (map publicKey accounts)) = Ok accounts.
Proof.
  induction 1 as [|a rest (_ & Hcodec) _ IH]; cbn; [ reflexivity | ].
  rewrite Hcodec, IH. reflexivity.
Qed.

Lemma payment_roundtrip pp pay o :
  constructor_payment pp = Ok pay ->
  zero_address_text ->
  canonical_address (pay_receiver pay) ->
  canonical_opt (pay_closeRemainderTo pay) ->
  constructor_payment (decode_paymentParams (forEncoding_payment o pay))
  = Ok pay.
Proof.
  unfold constructor_payment at 1. intros H Hzero.
  ok_steps H. injection H as <-.
  cbn [pay_receiver pay_closeRemainderTo]. intros Hrcv Hclose.
  unfold constructor_payment, decode_paymentParams.
  cbn [pp_receiver pp_amount pp_closeRemainderTo forEncoding_payment Enc.amt
       Enc.rcv Enc.close pay_receiver pay_amount pay_closeRemainderTo].
  rewrite (ensureAddress_roundtrip _ Hzero Hrcv).
  rewrite (ensureUint64_truthy _ _ Hok0).
  rewrite (optionalAddress_roundtrip _ _ Hok1 Hclose). reflexivity.
Qed.

Lemma getKeyregKey_again input name len o :
  getKeyregKey input name len = Ok o ->
  getKeyregKey (option_map KeyBytes o) name len = Ok o.
Proof.
  unfold getKeyregKey. destruct input as [given|].
  - intros H. ok_steps H. injection H as <-. cbn. rewrite Hif. reflexivity.
  - intros [= <-]. reflexivity.
Qed.

Lemma keyreg_roundtrip kp kr o :
  constructor_keyreg kp = Ok kr ->
  keyreg_numbers_nonzero kr ->
  constructor_keyreg (decode_keyregParams (forEncoding_keyreg o kr)) = Ok kr.
Proof.
  unfold constructor_keyreg at 1, ensureBoolean. intros H.
  destruct (getKeyregKey (kp_voteKey kp) "voteKey" KEYREG_VOTE_KEY_LENGTH)
    as [voteKey|] eqn:H1; [ | discriminate ].
  destruct (getKeyregKey (kp_selectionKey kp) "selectionKey"
              KEYREG_SELECTION_KEY_LENGTH)
    as [selectionKey|] eqn:H2; [ | discriminate ].
  destruct (getKeyregKey (kp_stateProofKey kp) "stateProofKey"
              KEYREG_STATE_PROOF_KEY_LENGTH)
    as [stateProofKey|] eqn:H3; [ | discriminate ].
  destruct (optionalUint64 (kp_voteFirst kp)) as [voteFirst|] eqn:H4;
    [ | discriminate ].
  destruct (optionalUint64 (kp_voteLast kp)) as [voteLast|] eqn:H5;
    [ | discriminate ].
  destruct (optionalUint64 (kp_voteKeyDilution kp)) as [voteKeyDilution|] eqn:H6;
    [ | discriminate ].
  cbv zeta in H.
  match type of H with
  | (if ?c1 then _ else if ?c2 then _ else _) = _ =>
      destruct c1 eqn:Hc1; [ discriminate | ];
      destruct c2 eqn:Hc2; [ discriminate | ]
  end.
  injection H as <-. intros (Hf & Hl & Hd).
  cbn [kr_voteFirst kr_voteLast kr_voteKeyDilution] in Hf, Hl, Hd.
  unfold constructor_keyreg, decode_keyregParams, ensureBoolean.
  cbn [kp_voteKey kp_selectionKey kp_stateProofKey kp_voteFirst kp_voteLast
       kp_voteKeyDilution kp_nonParticipation forEncoding_keyreg Enc.votekey
       Enc.selkey Enc.sprfkey Enc.votefst Enc.votelst Enc.votekd Enc.nonpart
       kr_voteKey kr_selectionKey kr_stateProofKey kr_voteFirst kr_voteLast
       kr_voteKeyDilution kr_nonParticipation].
  rewrite (getKeyregKey_again _ _ _ _ H1), (getKeyregKey_again _ _ _ _ H2),
    (getKeyregKey_again _ _ _ _ H3).
  rewrite !truthyOptZ_nonzero by assumption.
  rewrite (optionalUint64_again _ _ H4), (optionalUint64_again _ _ H5),
    (optionalUint64_again _ _ H6).
  rewrite orElse_truthyBool. cbv zeta.
  cbn [kr_nonParticipation] in Hc1, Hc2 |- *.
  rewrite Hc1, Hc2. reflexivity.
Qed.

(** The parameters read back from an asset configuration, whether or not
    the [apar] map was written. *)
Lemma decode_assetConfigParams_of o ac :
  decode_assetConfigParams (forEncoding_assetConfig o ac)
  = {| acp_assetIndex := truthyZ (ac_assetId ac);
       acp_total := truthyZ (ac_assetTotal ac);
       acp_decimals := truthyZ (ac_assetDecimals ac);
       acp_defaultFrozen := truthyBool (ac_assetDefaultFrozen ac);
       acp_unitName := truthyString (ac_assetUnitName ac);
       acp_assetName := truthyString (ac_assetName ac);
       acp_assetURL := truthyString (ac_assetURL ac);
       acp_assetMetadataHash := ac_assetMetadataHash ac;
       acp_manager :=
         option_map addressText (option_map publicKey (ac_assetManager ac));
       acp_reserve :=
         option_map addressText (option_map publicKey (ac_assetReserve ac));
       acp_freeze :=
         option_map addressText (option_map publicKey (ac_assetFreeze ac));
       acp_clawback :=
         option_map addressText (option_map publicKey (ac_assetClawback ac)) |}.
Proof.
  unfold decode_assetConfigParams, forEncoding_assetConfig.
  cbn [Enc.apar Enc.caid].
  destruct (Nat.eqb (assetParams_keys (assetParams_of ac)) 0) eqn:Hkeys;
    [ | reflexivity ].
  unfold assetParams_keys, assetParams_of in Hkeys.
  cbn [Enc.t Enc.dc Enc.df Enc.m Enc.r Enc.f Enc.c Enc.un Enc.an Enc.au Enc.am]
    in Hkeys.
  destruct (truthyZ (ac_assetTotal ac)); [ discriminate Hkeys | ].
  destruct (truthyZ (ac_assetDecimals ac)); [ discriminate Hkeys | ].
  destruct (truthyBool (ac_assetDefaultFrozen ac)); [ discriminate Hkeys | ].
  destruct (ac_assetManager ac); [ discriminate Hkeys | ].
  destruct (ac_assetReserve ac); [ discriminate Hkeys | ].
  destruct (ac_assetFreeze ac); [ discriminate Hkeys | ].
  destruct (ac_assetClawback ac); [ discriminate Hkeys | ].
  destruct (truthyString (ac_assetUnitName ac)); [ discriminate Hkeys | ].
  destruct (truthyString (ac_assetName ac)); [ discriminate Hkeys | ].
  destruct (truthyString (ac_assetURL ac)); [ discriminate Hkeys | ].
  destruct (ac_assetMetadataHash ac); [ discriminate Hkeys | ].
  reflexivity.
Qed.

Lemma assetConfig_roundtrip acp ac o :
  constructor_assetConfig acp = Ok ac ->
  canonical_opt (ac_assetManager ac) -> canonical_opt (ac_assetReserve ac) ->
  canonical_opt (ac_assetFreeze ac) -> canonical_opt (ac_assetClawback ac) ->
  constructor_assetConfig
    (decode_assetConfigParams (forEncoding_assetConfig o ac)) = Ok ac.
Proof.
  unfold constructor_assetConfig at 1, ensureBoolean. intros H.
  ok_steps H. injection H as <-.
  cbn [ac_assetManager ac_assetReserve ac_assetFreeze ac_assetClawback].
  intros Hm Hr Hf Hc.
  rewrite decode_assetConfigParams_of.
  unfold constructor_assetConfig, ensureBoolean.
  cbn [acp_assetIndex acp_total acp_decimals acp_defaultFrozen acp_unitName
       acp_assetName acp_assetURL acp_assetMetadataHash acp_manager
       acp_reserve acp_freeze acp_clawback
       ac_assetId ac_assetTotal ac_assetDecimals ac_assetDefaultFrozen
       ac_assetManager ac_assetReserve ac_assetFreeze ac_assetClawback
       ac_assetUnitName ac_assetName ac_assetURL ac_assetMetadataHash].
  rewrite (ensureUint64_truthy _ _ Hok), (ensureUint64_truthy _ _ Hok0),
    (ensureSafeUnsignedInteger_again _ _ Hok1).
  rewrite (optionalAddress_roundtrip _ _ Hok2 Hm),
    (optionalAddress_roundtrip _ _ Hok3 Hr),
    (optionalAddress_roundtrip _ _ Hok4 Hf),
    (optionalAddress_roundtrip _ _ Hok5 Hc).
  rewrite (optionalFixedLengthByteArray_again _ _ _ _ Hok6).
  rewrite !orElse_truthyString, !orElse_truthyBool. reflexivity.
Qed.

Lemma assetTransfer_roundtrip atp ax o :
  constructor_assetTransfer atp = Ok ax ->
  zero_address_text ->
  canonical_opt (ax_sender ax) -> canonical_address (ax_receiver ax) ->
  canonical_opt (ax_closeRemainderTo ax) ->
  constructor_assetTransfer
    (decode_assetTransferParams (forEncoding_assetTransfer o ax)) = Ok ax.
Proof.
  unfold constructor_assetTransfer at 1. intros H Hzero.
  ok_steps H. injection H as <-.
  cbn [ax_sender ax_receiver ax_closeRemainderTo]. intros Hs Hr Hc.
  unfold constructor_assetTransfer, decode_assetTransferParams.
  cbn [atp_assetIndex atp_amount atp_assetSender atp_receiver
       atp_closeRemainderTo forEncoding_assetTransfer Enc.xaid Enc.aamt
       Enc.arcv Enc.aclose Enc.asnd ax_assetId ax_amount ax_sender ax_receiver
       ax_closeRemainderTo].
  rewrite (ensureUint64_truthy _ _ Hok), (ensureUint64_truthy _ _ Hok0).
  rewrite (optionalAddress_roundtrip _ _ Hok1 Hs).
  rewrite (ensureAddress_roundtrip _ Hzero Hr).
  rewrite (optionalAddress_roundtrip _ _ Hok3 Hc). reflexivity.
Qed.

Lemma assetFreeze_roundtrip afp af o :
  constructor_assetFreeze afp = Ok af ->
  zero_address_text ->
  canonical_address (af_freezeAccount af) ->
  constructor_assetFreeze
    (decode_assetFreezeParams (forEncoding_assetFreeze o af)) = Ok af.
Proof.
  unfold constructor_assetFreeze at 1, ensureBoolean. intros H Hzero.
  ok_steps H. injection H as <-.
  cbn [af_freezeAccount]. intros Hf.
  unfold constructor_assetFreeze, decode_assetFreezeParams, ensureBoolean.
  cbn [afp_assetIndex afp_freezeTarget afp_assetFrozen
       forEncoding_assetFreeze Enc.faid Enc.afrz Enc.fadd af_assetId
       af_freezeAccount af_assetFrozen].
  rewrite (ensureUint64_truthy _ _ Hok).
  rewrite (ensureAddress_roundtrip _ Hzero Hf).
  rewrite orElse_truthyBool. reflexivity.
Qed.

Lemma stateProof_roundtrip spp stp o :
  constructor_stateProof spp = Ok stp ->
  constructor_stateProof
    (decode_stateProofParams (forEncoding_stateProof o stp)) = Ok stp.
Proof.
  unfold constructor_stateProof at 1, ensureUint8Array. intros H.
  ok_steps H. injection H as <-.
  unfold constructor_stateProof, decode_stateProofParams, ensureUint8Array.
  cbn [spp_stateProofType spp_stateProof spp_stateProofMessage
       forEncoding_stateProof Enc.sptype Enc.sp Enc.spmsg stpf_stateProofType
       stpf_stateProof stpf_stateProofMessage orElse].
  rewrite (ensureSafeUnsignedInteger_again _ _ Hok). reflexivity.
Qed.

Lemma indexOf_Some x l k :
  indexOf x l = Some k ->
  0 <= k < Z.of_nat (List.length l) /\ nth (Z.to_nat k) l 0 = x.
Proof.
  revert k. induction l as [|y rest IH]; intros k; cbn [indexOf].
  - discriminate.
  - destruct (y =? x) eqn:Hy.
    + intros [= <-]. apply Z.eqb_eq in Hy. cbn [List.length nth Z.to_nat].
      split; [ lia | exact Hy ].
    + destruct (indexOf x rest) as [k'|]; [ | discriminate ].
      intros [= <-]. destruct (IH k' eq_refl) as (Hk & Hnth).
      cbn [List.length]. split; [ lia | ].
      replace (Z.to_nat (k' + 1)) with (S (Z.to_nat k')) by lia.
      exact Hnth.
Qed.

Lemma indexOf_In x l : In x l -> exists k, indexOf x l = Some k.
Proof.
  induction l as [|y rest IH]; [ intros [] | ].
  intros Hin. cbn [indexOf]. destruct (y =? x) eqn:Hy; [ eauto | ].
  destruct Hin as [->|Hin]; [ rewrite Z.eqb_refl in Hy; discriminate | ].
  destruct (IH Hin) as (k & ->). eauto.
Qed.

Lemma mapM_ensureBoxReference_range inputs boxes :
  mapM ensureBoxReference inputs = Ok boxes ->
  Forall (fun box => ensureUint64 (box_appIndex box) = Ok (box_appIndex box))
    boxes.
Proof.
  revert boxes. induction inputs as [|x rest IH]; intros boxes; cbn.
  - intros [= <-]. constructor.
  - unfold ensureBoxReference at 1, ensureUint8Array.
    destruct (ensureUint64 (br_appIndex x)) as [idx|] eqn:Hx; [ | discriminate ].
    destruct (mapM ensureBoxReference rest) as [tail|]; [ | discriminate ].
    intros [= <-]. constructor; [ | apply IH; reflexivity ].
    cbn. eapply ensureUint64_again. exact Hx.
Qed.

(** One stable box reference through the translation, the decoder and the
    constructor. *)
Lemma box_roundtrip ap box :
  box_reference_stable ap box ->
  Z.of_nat (List.length (ap_appForeignApps ap)) <= safeUnsignedMax ->
  ensureUint64 (box_appIndex box) = Ok (box_appIndex box) ->
  exists encoded decoded,
    translateBoxReference (ap_appForeignApps ap) (ap_appId ap) box = Ok encoded
    /\ decode_box (nonEmpty (ap_appForeignApps ap)) encoded = Ok decoded
    /\ ensureBoxReference decoded = Ok box.
Proof.
  intros Hstable Hbound Hrange.
  unfold translateBoxReference, box_reference_stable in *.
  destruct box as [appIndex name]. cbn [box_appIndex box_name] in *.
  destruct (indexOf appIndex (ap_appForeignApps ap)) as [k|] eqn:Hk.
  - destruct (indexOf_Some _ _ _ Hk) as (Hkr & Hnth).
    do 2 eexists. split; [ reflexivity | ].
    unfold decode_box. cbn [Enc.i Enc.n orElse].
    unfold ensureSafeUnsignedInteger.
    replace ((0 <=? k + 1) && (k + 1 <=? safeUnsignedMax)) with true
      by (symmetry; apply andb_true_iff; split; apply Z.leb_le; lia).
    replace (k + 1 =? 0) with false by (symmetry; apply Z.eqb_neq; lia).
    destruct (ap_appForeignApps ap) as [|a0 apps] eqn:Happs;
      [ discriminate Hk | ].
    cbn [nonEmpty].
    replace (Z.of_nat (List.length (a0 :: apps)) <? k + 1) with false
      by (symmetry; apply Z.ltb_ge; lia).
    replace (k + 1 - 1) with k by lia. rewrite Hnth.
    split; [ reflexivity | ].
    unfold ensureBoxReference, ensureUint8Array.
    cbn [br_appIndex br_name]. rewrite Hrange. reflexivity.
  - destruct Hstable as [->|Hin];
      [ | destruct (indexOf_In _ _ Hin) as (k & Hk'); congruence ].
    rewrite Z.eqb_refl, orb_true_r.
    do 2 eexists. split; [ reflexivity | ].
    unfold decode_box. cbn [Enc.i Enc.n orElse].
    unfold ensureSafeUnsignedInteger.
    replace ((0 <=? 0) && (0 <=? safeUnsignedMax)) with true
      by (symmetry; apply andb_true_iff; split; apply Z.leb_le; lia).
    cbn [Z.eqb]. split; [ reflexivity | ].
    unfold ensureBoxReference, ensureUint8Array.
    cbn [br_appIndex br_name]. rewrite Hrange. reflexivity.
Qed.

Lemma boxes_roundtrip ap boxes :
  Forall (box_reference_stable ap) boxes ->
  Z.of_nat (List.length (ap_appForeignApps ap)) <= safeUnsignedMax ->
  Forall (fun box => ensureUint64 (box_appIndex box) = Ok (box_appIndex box))
    boxes ->
  exists encoded decoded,
    translateBoxReferences boxes (ap_appForeignApps ap) (ap_appId ap)
    = Ok encoded
    /\ mapM (decode_box (nonEmpty (ap_appForeignApps ap))) encoded = Ok decoded
    /\ mapM ensureBoxReference decoded = Ok boxes.
Proof.
  intros Hstable Hbound Hrange. unfold translateBoxReferences.
  induction boxes as [|box rest IH].
  - exists [], []. repeat split.
  - inversion Hstable as [|? ? Hs Hss]; subst.
    inversion Hrange as [|? ? Hr Hrs]; subst.
    destruct (IH Hss Hrs) as (encoded & decoded & He & Hd & Hc).
    destruct (box_roundtrip ap box Hs Hbound Hr) as (e1 & d1 & He1 & Hd1 & Hc1).
    exists (e1 :: encoded), (d1 :: decoded). cbn [mapM].
    rewrite He1, He, Hd1, Hd, Hc1, Hc. repeat split.
Qed.

Lemma orElse_stateSchema_nui ints slices :
  orElse match stateSchema_of ints slices with
         | Some x => Enc.nui x
         | None => None
         end 0 = ints.
Proof.
  unfold stateSchema_of.
  destruct (ints =? 0) eqn:Hi, (slices =? 0) eqn:Hs; cbn;
    try apply orElse_truthyZ.
  apply Z.eqb_eq in Hi. subst. reflexivity.
Qed.

Lemma orElse_stateSchema_nbs ints slices :
  orElse match stateSchema_of ints slices with
         | Some x => Enc.nbs x
         | None => None
         end 0 = slices.
Proof.
  unfold stateSchema_of.
  destruct (ints =? 0) eqn:Hi, (slices =? 0) eqn:Hs; cbn;
    try apply orElse_truthyZ.
  apply Z.eqb_eq in Hs. subst. reflexivity.
Qed.

Lemma ensureSafeUnsignedInteger_Ok value x :
  ensureSafeUnsignedInteger value = Ok x ->
  ensureSafeUnsignedInteger x = Ok x.
Proof.
  intros H. rewrite <- (orElse_truthyZ x) at 1.
  eapply ensureSafeUnsignedInteger_again. exact H.
Qed.

Lemma ensureSafeUnsignedInteger_in_range x :
  0 <= x <= safeUnsignedMax -> ensureSafeUnsignedInteger x = Ok x.
Proof.
  intros Hr. unfold ensureSafeUnsignedInteger.
  replace ((0 <=? x) && (x <=? safeUnsignedMax)) with true; [ reflexivity | ].
  symmetry. apply andb_true_iff. split; apply Z.leb_le; lia.
Qed.

Lemma applicationCall_roundtrip app ap o :
  constructor_applicationCall app = Ok ap ->
  Forall canonical_address (ap_appAccounts ap) ->
  application_stable ap ->
  exists obj app',
    forEncoding_applicationCall o ap = Ok obj
    /\ decode_appCallParams obj = Ok app'
    /\ constructor_applicationCall app' = Ok ap.
Proof.
  intros Hc Haccounts (Hoc & Hbound & Hstable).
  pose proof Hc as H.
  unfold constructor_applicationCall, ensureArray in H.
  rewrite mapM_ensureUint8Array in H. unfold ensureUint8Array in H.
  destruct (ensureUint64 (app_appId app)) as [appId|] eqn:H1; [ | discriminate ].
  destruct (ensureSafeUnsignedInteger (orElse (app_numLocalInts app) 0))
    as [li|] eqn:H2; [ | discriminate ].
  destruct (ensureSafeUnsignedInteger (orElse (app_numLocalByteSlices app) 0))
    as [lb|] eqn:H3; [ | discriminate ].
  destruct (ensureSafeUnsignedInteger (orElse (app_numGlobalInts app) 0))
    as [gi|] eqn:H4; [ | discriminate ].
  destruct (ensureSafeUnsignedInteger (orElse (app_numGlobalByteSlices app) 0))
    as [gb|] eqn:H5; [ | discriminate ].
  destruct (ensureSafeUnsignedInteger (orElse (app_extraPages app) 0))
    as [ep|] eqn:H6; [ | discriminate ].
  destruct (mapM ensureAddress (orElse (app_accounts app) []))
    as [accounts|] eqn:H8; [ | discriminate ].
  destruct (mapM ensureUint64 (orElse (app_foreignApps app) []))
    as [apps|] eqn:H9; [ | discriminate ].
  destruct (mapM ensureUint64 (orElse (app_foreignAssets app) []))
    as [assets|] eqn:H10; [ | discriminate ].
  destruct (mapM ensureBoxReference (orElse (app_boxes app) []))
    as [boxes|] eqn:H11; [ | discriminate ].
  injection H as <-.
  cbn [ap_appAccounts ap_appOnComplete ap_appForeignApps ap_boxes] in *.
  apply mapM_ensureBoxReference_range in H11.
  destruct (boxes_roundtrip _ boxes Hstable Hbound H11)
    as (encoded & decoded & He & Hd & Hb).
  cbn [ap_appForeignApps ap_appId] in He, Hd.
  unfold forEncoding_applicationCall.
  cbn [ap_boxes ap_appForeignApps ap_appId]. rewrite He.
  exists
    {| Enc.type := Enc.type o; Enc.gh := Enc.gh o; Enc.lv := Enc.lv o;
       Enc.snd := Enc.snd o; Enc.gen := Enc.gen o; Enc.fee := Enc.fee o;
       Enc.fv := Enc.fv o; Enc.note := Enc.note o; Enc.lx := Enc.lx o;
       Enc.rekey := Enc.rekey o; Enc.grp := Enc.grp o;
       Enc.amt := None; Enc.rcv := None; Enc.close := None;
       Enc.votekey := None; Enc.selkey := None; Enc.sprfkey := None;
       Enc.votefst := None; Enc.votelst := None; Enc.votekd := None;
       Enc.nonpart := None;
       Enc.caid := None; Enc.apar := None;
       Enc.xaid := None; Enc.aamt := None; Enc.arcv := None;
       Enc.aclose := None; Enc.asnd := None;
       Enc.faid := None; Enc.afrz := None; Enc.fadd := None;
       Enc.apid := truthyZ appId;
       Enc.apan := truthyZ (app_onComplete app);
       Enc.apaa := nonEmpty (orElse (app_appArgs app) []);
       Enc.apat := nonEmpty (map publicKey accounts);
       Enc.apas := nonEmpty assets;
       Enc.apfa := nonEmpty apps;
       Enc.apbx := match boxes with [] => None | _ => Some encoded end;
       Enc.apap := nonEmpty (orElse (app_approvalProgram app) []);
       Enc.apsu := nonEmpty (orElse (app_clearProgram app) []);
       Enc.apls := stateSchema_of li lb;
       Enc.apgs := stateSchema_of gi gb;
       Enc.apep := truthyZ ep;
       Enc.sptype := None; Enc.spmsg := None; Enc.sp := None |}.
  eexists. split; [ destruct boxes; reflexivity | ].
  unfold decode_appCallParams.
  cbn [Enc.apan Enc.apfa Enc.apbx Enc.apid Enc.apaa Enc.apat Enc.apas Enc.apap
       Enc.apsu Enc.apls Enc.apgs Enc.apep].
  rewrite orElse_truthyZ, (ensureSafeUnsignedInteger_in_range _ Hoc).
  assert (match match boxes with [] => None | _ :: _ => Some encoded end with
          | Some apbx =>
              b <- mapM (decode_box (nonEmpty apps)) apbx ;; Ok (Some b)
          | None => Ok None
          end = Ok (match boxes with [] => None | _ => Some decoded end))
    as ->.
  { destruct boxes; [ reflexivity | ]. rewrite Hd. reflexivity. }
  split; [ reflexivity | ].
  unfold constructor_applicationCall, ensureArray.
  rewrite mapM_ensureUint8Array. unfold ensureUint8Array.
  cbn [app_appId app_onComplete app_numLocalInts app_numLocalByteSlices
       app_numGlobalInts app_numGlobalByteSlices app_extraPages
       app_approvalProgram app_clearProgram app_appArgs app_accounts
       app_foreignApps app_foreignAssets app_boxes].
  rewrite (ensureUint64_truthy _ _ H1).
  rewrite !orElse_stateSchema_nui, !orElse_stateSchema_nbs.
  rewrite (ensureSafeUnsignedInteger_Ok _ _ H2),
    (ensureSafeUnsignedInteger_Ok _ _ H3),
    (ensureSafeUnsignedInteger_Ok _ _ H4),
    (ensureSafeUnsignedInteger_Ok _ _ H5),
    (ensureSafeUnsignedInteger_again _ _ H6).
  cbn [orElse]. rewrite !orElse_nonEmpty.
  rewrite (mapM_ensureAddress_roundtrip _ Haccounts).
  rewrite (mapM_ensureUint64_again _ _ H9), (mapM_ensureUint64_again _ _ H10).
  assert (mapM ensureBoxReference
            (orElse match boxes with [] => None | _ :: _ => Some decoded end [])
          = Ok boxes) as ->.
  { destruct boxes; [ reflexivity | exact Hb ]. }
  rewrite !orElse_nonEmpty_bytes. reflexivity.
Qed.

Lemma determine_fee_nonneg this suggested t :
  determine_fee this suggested = Ok t -> 0 <= fee t.
Proof.
  unfold determine_fee, ensureBoolean, estimateSize. intros H.
  destruct (ensureUint64 (sp_fee suggested)) as [fee0|] eqn:H0;
    [ | discriminate ].
  apply ensureUint64_Ok in H0 as (-> & H0).
  destruct (orElse (sp_flatFee suggested) false); cbn [negb] in H.
  - injection H as <-. cbn. lia.
  - destruct (ensureUint64 (sp_minFee suggested)) as [minFee|] eqn:H1;
      [ | discriminate ].
    apply ensureUint64_Ok in H1 as (-> & H1).
    destruct (toByte (set_fee this (sp_fee suggested))) as [encoded|];
      [ | discriminate ].
    cbn [fee set_fee] in H.
    destruct (sp_fee suggested
              * (Z.of_nat (List.length encoded) + NUM_ADDL_BYTES_AFTER_SIGNING)
              <? sp_minFee suggested); injection H as <-; cbn [fee set_fee].
    + lia.
    + unfold NUM_ADDL_BYTES_AFTER_SIGNING. nia.
Qed.

Lemma ensureUint64_in_range x :
  0 <= x <= MAX_UINT_64 -> ensureUint64 x = Ok x.
Proof.
  intros Hr. unfold ensureUint64.
  replace ((0 <=? x) && (x <=? MAX_UINT_64)) with true; [ reflexivity | ].
  symmetry. apply andb_true_iff. split; apply Z.leb_le; lia.
Qed.

(** The constructor run on parameters that carry the fields of a
    constructed transaction, as the decoder hands them over, builds that
    transaction again. *)
Lemma new_Transaction_rebuilt params this f params' :
  constructor_fields params = Ok this ->
  0 <= f <= MAX_UINT_64 ->
  zero_address_text ->
  canonical_address (sender this) ->
  canonical_opt (rekeyTo this) ->
  genesisHash_text_roundtrip (genesisHash this) ->
  p_type params' = type this ->
  p_sender params' = addressTextOrZero (addressKey (sender this)) ->
  p_note params' = nonEmpty (note this) ->
  p_lease params' = lease this ->
  p_rekeyTo params'
  = option_map addressText (option_map publicKey (rekeyTo this)) ->
  p_suggestedParams params'
  = {| sp_minFee := 0; sp_flatFee := Some true;
       sp_fee := orElse (truthyZ f) 0;
       sp_firstValid := orElse (truthyZ (firstValid this)) 0;
       sp_lastValid := lastValid this;
       sp_genesisHash := bytesToBase64 (genesisHash this);
       sp_genesisID := match genesisID this with
                       | Some g => truthyString g
                       | None => None
                       end |} ->
  fieldsPresent params' = fieldsPresent params ->
  whenPresent (p_paymentParams params') constructor_payment
  = Ok (payment this) ->
  whenPresent (p_keyregParams params') constructor_keyreg = Ok (keyreg this) ->
  whenPresent (p_assetConfigParams params') constructor_assetConfig
  = Ok (assetConfig this) ->
  whenPresent (p_assetTransferParams params') constructor_assetTransfer
  = Ok (assetTransfer this) ->
  whenPresent (p_assetFreezeParams params') constructor_assetFreeze
  = Ok (assetFreeze this) ->
  whenPresent (p_appCallParams params') constructor_applicationCall
  = Ok (applicationCall this) ->
  whenPresent (p_stateProofParams params') constructor_stateProof
  = Ok (stateProof this) ->
  new_Transaction params' = Ok (set_fee this f).
Proof.
  intros Hfields Hf Hzero Hsender Hrekey (Hgh1 & Hgh2)
    Hty Hsnd Hnote Hlease Hrk Hsp Hpresent Hpay Hkr Hac Hax Haf Hap Hstp.
  apply constructor_fields_inv in Hfields
      as (Hvalid & Htype & _ & _ & Hl & Hr & Hgroup & Hfee0 & Hfv & Hlv & Hgid
          & _ & _ & Hlen & Hhd & _).
  unfold new_Transaction, constructor_fields, ensureUint8Array.
  rewrite Hty, Htype, Hvalid. cbn [negb].
  rewrite Hsnd, (ensureAddress_roundtrip _ Hzero Hsender).
  rewrite Hlease, (optionalFixedLengthByteArray_again _ _ _ _ Hl).
  rewrite Hrk, (optionalAddress_roundtrip _ _ Hr Hrekey).
  rewrite Hsp.
  cbn [sp_firstValid sp_lastValid sp_genesisID sp_genesisHash].
  rewrite (ensureUint64_truthy _ _ Hfv), (ensureUint64_again _ _ Hlv).
  apply String.eqb_neq in Hgh1. rewrite Hgh1, Hgh2.
  rewrite Hpresent, Hlen. cbn [Nat.eqb negb].
  rewrite <- Hhd, String.eqb_refl. cbn [negb].
  rewrite Hpay, Hkr, Hac, Hax, Haf, Hap, Hstp.
  unfold determine_fee, ensureBoolean.
  cbn [sp_fee sp_flatFee orElse negb].
  rewrite orElse_truthyZ, (ensureUint64_in_range _ Hf).
  rewrite Hnote, orElse_nonEmpty_bytes.
  pose proof (truthyString_idem (sp_genesisID (p_suggestedParams params)))
    as Hidem.
  cbv zeta in Hidem. rewrite Hgid, !Hidem.
  destruct this as [ty0 snd0 nt0 lx0 rk0 grp0 fee0 fv0 lv0 gid0 gh0
                    pay0 kr0 ac0 ax0 af0 ap0 stp0].
  unfold set_fee.
  cbn [type sender note lease rekeyTo group fee firstValid lastValid genesisID
       genesisHash payment keyreg assetConfig assetTransfer assetFreeze
       applicationCall stateProof set_fee] in *.
  subst. reflexivity.
Qed.

Lemma decode_params_pay obj :
  Enc.type obj = TransactionType.pay ->
  decode_params obj
  = Ok {| p_type := Enc.type obj;
          p_sender := addressTextOrZero (Enc.snd obj);
          p_note := Enc.note obj;
          p_lease := Enc.lx obj;
          p_suggestedParams := decode_suggestedParams obj;
          p_rekeyTo := option_map addressText (Enc.rekey obj);
         p_paymentParams := Some (decode_paymentParams obj);
         p_keyregParams := None;
         p_assetConfigParams := None;
         p_assetTransferParams := None;
         p_assetFreezeParams := None;
         p_appCallParams := None;
         p_stateProofParams := None |}.
Proof.
  intros H. unfold decode_params. rewrite H. reflexivity.
Qed.

Lemma decode_params_keyreg obj :
  Enc.type obj = TransactionType.keyreg ->
  decode_params obj
  = Ok {| p_type := Enc.type obj;
          p_sender := addressTextOrZero (Enc.snd obj);
          p_note := Enc.note obj;
          p_lease := Enc.lx obj;
          p_suggestedParams := decode_suggestedParams obj;
          p_rekeyTo := option_map addressText (Enc.rekey obj);
         p_paymentParams := None;
         p_keyregParams := Some (decode_keyregParams obj);
         p_assetConfigParams := None;
         p_assetTransferParams := None;
         p_assetFreezeParams := None;
         p_appCallParams := None;
         p_stateProofParams := None |}.
Proof.
  intros H. unfold decode_params. rewrite H. reflexivity.
Qed.

Lemma decode_params_acfg obj :
  Enc.type obj = TransactionType.acfg ->
  decode_params obj
  = Ok {| p_type := Enc.type obj;
          p_sender := addressTextOrZero (Enc.snd obj);
          p_note := Enc.note obj;
          p_lease := Enc.lx obj;
          p_suggestedParams := decode_suggestedParams obj;
          p_rekeyTo := option_map addressText (Enc.rekey obj);
         p_paymentParams := None;
         p_keyregParams := None;
         p_assetConfigParams := Some (decode_assetConfigParams obj);
         p_assetTransferParams := None;
         p_assetFreezeParams := None;
         p_appCallParams := None;
         p_stateProofParams := None |}.
Proof.
  intros H. unfold decode_params. rewrite H. reflexivity.
Qed.

Lemma decode_params_axfer obj :
  Enc.type obj = TransactionType.axfer ->
  decode_params obj
  = Ok {| p_type := Enc.type obj;
          p_sender := addressTextOrZero (Enc.snd obj);
          p_note := Enc.note obj;
          p_lease := Enc.lx obj;
          p_suggestedParams := decode_suggestedParams obj;
          p_rekeyTo := option_map addressText (Enc.rekey obj);
         p_paymentParams := None;
         p_keyregParams := None;
         p_assetConfigParams := None;
         p_assetTransferParams := Some (decode_assetTransferParams obj);
         p_assetFreezeParams := None;
         p_appCallParams := None;
         p_stateProofParams := None |}.
Proof.
  intros H. unfold decode_params. rewrite H. reflexivity.
Qed.

Lemma decode_params_afrz obj :
  Enc.type obj = TransactionType.afrz ->
  decode_params obj
  = Ok {| p_type := Enc.type obj;
          p_sender := addressTextOrZero (Enc.snd obj);
          p_note := Enc.note obj;
          p_lease := Enc.lx obj;
          p_suggestedParams := decode_suggestedParams obj;
          p_rekeyTo := option_map addressText (Enc.rekey obj);
         p_paymentParams := None;
         p_keyregParams := None;
         p_assetConfigParams := None;
         p_assetTransferParams := None;
         p_assetFreezeParams := Some (decode_assetFreezeParams obj);
         p_appCallParams := None;
         p_stateProofParams := None |}.
Proof.
  intros H. unfold decode_params. rewrite H. reflexivity.
Qed.

Lemma decode_params_appl obj app :
  Enc.type obj = TransactionType.appl ->
  decode_appCallParams obj = Ok app ->
  decode_params obj
  = Ok {| p_type := Enc.type obj;
          p_sender := addressTextOrZero (Enc.snd obj);
          p_note := Enc.note obj;
          p_lease := Enc.lx obj;
          p_suggestedParams := decode_suggestedParams obj;
          p_rekeyTo := option_map addressText (Enc.rekey obj);
         p_paymentParams := None;
         p_keyregParams := None;
         p_assetConfigParams := None;
         p_assetTransferParams := None;
         p_assetFreezeParams := None;
         p_appCallParams := Some app;
         p_stateProofParams := None |}.
Proof.
  intros H Happ. unfold decode_params. rewrite H, Happ. reflexivity.
Qed.

Lemma decode_params_stpf obj :
  Enc.type obj = TransactionType.stpf ->
  decode_params obj
  = Ok {| p_type := Enc.type obj;
          p_sender := addressTextOrZero (Enc.snd obj);
          p_note := Enc.note obj;
          p_lease := Enc.lx obj;
          p_suggestedParams := decode_suggestedParams obj;
          p_rekeyTo := option_map addressText (Enc.rekey obj);
         p_paymentParams := None;
         p_keyregParams := None;
         p_assetConfigParams := None;
         p_assetTransferParams := None;
         p_assetFreezeParams := None;
         p_appCallParams := None;
         p_stateProofParams := Some (decode_stateProofParams obj) |}.
Proof.
  intros H. unfold decode_params. rewrite H. reflexivity.
Qed.

Lemma forEncoding_applicationCall_envelope o ap obj :
  forEncoding_applicationCall o ap = Ok obj ->
  Enc.type obj = Enc.type o /\ Enc.snd obj = Enc.snd o
  /\ Enc.note obj = Enc.note o /\ Enc.lx obj = Enc.lx o
  /\ Enc.rekey obj = Enc.rekey o /\ Enc.fee obj = Enc.fee o
  /\ Enc.fv obj = Enc.fv o /\ Enc.lv obj = Enc.lv o
  /\ Enc.gh obj = Enc.gh o /\ Enc.gen obj = Enc.gen o
  /\ Enc.grp obj = Enc.grp o.
Proof.
  unfold forEncoding_applicationCall. intros H. ok_step H.
  injection H as <-. cbn. repeat split; reflexivity.
Qed.

(** Decoding an object that carries the envelope of a constructed
    transaction, and whose payload parameters construct its payload again,
    gives the transaction back. *)
Lemma from_obj_rebuilds params this f obj params' :
  constructor_fields params = Ok this ->
  0 <= f <= MAX_UINT_64 ->
  zero_address_text ->
  canonical_address (sender this) ->
  canonical_opt (rekeyTo this) ->
  genesisHash_text_roundtrip (genesisHash this) ->
  (let o := forEncoding_common (set_fee this f) in
   Enc.type obj = Enc.type o /\ Enc.snd obj = Enc.snd o
   /\ Enc.note obj = Enc.note o /\ Enc.lx obj = Enc.lx o
   /\ Enc.rekey obj = Enc.rekey o /\ Enc.fee obj = Enc.fee o
   /\ Enc.fv obj = Enc.fv o /\ Enc.lv obj = Enc.lv o
   /\ Enc.gh obj = Enc.gh o /\ Enc.gen obj = Enc.gen o
   /\ Enc.grp obj = Enc.grp o) ->
  decode_params obj = Ok params' ->
  p_type params' = Enc.type obj ->
  p_sender params' = addressTextOrZero (Enc.snd obj) ->
  p_note params' = Enc.note obj ->
  p_lease params' = Enc.lx obj ->
  p_suggestedParams params' = decode_suggestedParams obj ->
  p_rekeyTo params' = option_map addressText (Enc.rekey obj) ->
  fieldsPresent params' = fieldsPresent params ->
  whenPresent (p_paymentParams params') constructor_payment
  = Ok (payment this) ->
  whenPresent (p_keyregParams params') constructor_keyreg = Ok (keyreg this) ->
  whenPresent (p_assetConfigParams params') constructor_assetConfig
  = Ok (assetConfig this) ->
  whenPresent (p_assetTransferParams params') constructor_assetTransfer
  = Ok (assetTransfer this) ->
  whenPresent (p_assetFreezeParams params') constructor_assetFreeze
  = Ok (assetFreeze this) ->
  whenPresent (p_appCallParams params') constructor_applicationCall
  = Ok (applicationCall this) ->
  whenPresent (p_stateProofParams params') constructor_stateProof
  = Ok (stateProof this) ->
  from_obj_for_encoding obj = Ok (set_fee this f).
Proof.
  intros Hfields Hf Hzero Hsender Hrekey Hgh Henv Hdec
    Hty Hsnd Hnote Hlease Hsp Hrk Hpresent Hpay Hkr Hac Hax Haf Hap Hstp.
  cbv zeta in Henv.
  cbn [forEncoding_common set_fee Enc.type Enc.snd Enc.note Enc.lx Enc.rekey
       Enc.fee Enc.fv Enc.lv Enc.gh Enc.gen Enc.grp type sender note lease
       rekeyTo group fee firstValid lastValid genesisID genesisHash] in Henv.
  destruct Henv as (Ety & Esnd & Enote & Elx & Erekey & Efee & Efv & Elv
                    & Egh & Egen & Egrp).
  pose proof (constructor_fields_inv _ _ Hfields) as Hinv.
  destruct Hinv as (_ & _ & _ & _ & _ & _ & Hgroup & _).
  unfold from_obj_for_encoding. rewrite Hdec.
  rewrite (new_Transaction_rebuilt params this f params'); try assumption;
    try congruence.
  - rewrite Egrp, Hgroup. reflexivity.
  - rewrite Hsp. unfold decode_suggestedParams.
    rewrite Efee, Efv, Elv, Egh, Egen. reflexivity.
Qed.

(** Reduces the encoder to the block of the payload that is present. *)
Ltac encoder_block :=
  unfold get_obj_for_encoding;
  cbn [set_fee payment keyreg assetConfig assetTransfer assetFreeze
       applicationCall stateProof];
  repeat match goal with
         | H : None = _ |- _ => rewrite <- H
         | H : _ = Some _ |- _ => rewrite H
         end;
  try reflexivity.

(** Closes the decoding side of one payload case, leaving the payload. *)
Ltac rebuild_with decode_lemma :=
  match goal with
  | Henv : forall obj, _ -> forall params', _,
    Hty : Enc.type _ = _, Hhd : p_type _ = _ |- _ =>
      eapply Henv;
      [ repeat split; reflexivity
      | apply decode_lemma;
        cbn [forEncoding_payment forEncoding_keyreg forEncoding_assetConfig
             forEncoding_assetTransfer forEncoding_assetFreeze
             forEncoding_stateProof Enc.type];
        rewrite Hty; exact Hhd
      | cbn [p_type p_sender p_note p_lease p_suggestedParams p_rekeyTo
             p_paymentParams p_keyregParams p_assetConfigParams
             p_assetTransferParams p_assetFreezeParams p_appCallParams
             p_stateProofParams whenPresent];
        try reflexivity; try (f_equal; assumption) .. ]
  end.

(** C5 (as amended). For every parameter record the constructor accepts,
    the canonical encoding of the constructed transaction exists and
    decoding it gives the constructed transaction back, field for field,
    provided the transaction is ready for the round trip:
    - its addresses are the ones the address codec reads back, and the
      codec's zero address text is that of the all-zero key;
    - the genesis hash has a non-empty base64 text that decodes to it;
    - the fee fits 64 bits;
    - a key registration has no round or dilution given as zero;
    - for an application call, the on-completion value and the number of
      foreign applications are values [ensureSafeUnsignedInteger] accepts,
      and every box reference names its application by 0 or by an
      application listed in [foreignApps]. *)
Theorem roundtrip_of_constructed params t :
  new_Transaction params = Ok t ->
  roundtrip_ready t ->
  exists obj,
    get_obj_for_encoding t = Ok obj /\ from_obj_for_encoding obj = Ok t.
Proof.
  intros Hnew (Haddr & Hzero & Hgh & Hfee & Hkrn & Hapn).
  pose proof (new_Transaction_inv _ _ Hnew) as (this & Hfields & Hdet & Ht).
  pose proof (determine_fee_nonneg _ _ _ Hdet) as Hnn.
  assert (Hf : 0 <= fee t <= MAX_UINT_64) by lia.
  clear Hfee Hnn Hdet Hnew. revert Hf Ht. generalize (fee t) as f.
  intros f Hf ->.
  destruct Haddr as (Hsender & Hrekey & Hcpay & Hcac & Hcax & Hcaf & Hcap).
  cbn [set_fee sender rekeyTo genesisHash payment keyreg assetConfig
       assetTransfer assetFreeze applicationCall]
    in Hsender, Hrekey, Hcpay, Hcac, Hcax, Hcaf, Hcap, Hgh, Hkrn, Hapn.
  pose proof (constructor_fields_inv _ _ Hfields) as Hinv.
  destruct Hinv as (Hvalid & Htype & _ & _ & _ & _ & Hgroup & _ & _ & _ & _ & _
                    & _ & Hlen & Hhd & Hpay & Hkreg & Hac & Hax & Haf & Happ
                    & Hstp).
  assert (Henv : forall obj,
    (Enc.type obj = Enc.type (forEncoding_common (set_fee this f))
     /\ Enc.snd obj = Enc.snd (forEncoding_common (set_fee this f))
     /\ Enc.note obj = Enc.note (forEncoding_common (set_fee this f))
     /\ Enc.lx obj = Enc.lx (forEncoding_common (set_fee this f))
     /\ Enc.rekey obj = Enc.rekey (forEncoding_common (set_fee this f))
     /\ Enc.fee obj = Enc.fee (forEncoding_common (set_fee this f))
     /\ Enc.fv obj = Enc.fv (forEncoding_common (set_fee this f))
     /\ Enc.lv obj = Enc.lv (forEncoding_common (set_fee this f))
     /\ Enc.gh obj = Enc.gh (forEncoding_common (set_fee this f))
     /\ Enc.gen obj = Enc.gen (forEncoding_common (set_fee this f))
     /\ Enc.grp obj = Enc.grp (forEncoding_common (set_fee this f))) ->
    forall params',
    decode_params obj = Ok params' ->
    p_type params' = Enc.type obj ->
    p_sender params' = addressTextOrZero (Enc.snd obj) ->
    p_note params' = Enc.note obj ->
    p_lease params' = Enc.lx obj ->
    p_suggestedParams params' = decode_suggestedParams obj ->
    p_rekeyTo params' = option_map addressText (Enc.rekey obj) ->
    fieldsPresent params' = fieldsPresent params ->
    whenPresent (p_paymentParams params') constructor_payment
    = Ok (payment this) ->
    whenPresent (p_keyregParams params') constructor_keyreg
    = Ok (keyreg this) ->
    whenPresent (p_assetConfigParams params') constructor_assetConfig
    = Ok (assetConfig this) ->
    whenPresent (p_assetTransferParams params') constructor_assetTransfer
    = Ok (assetTransfer this) ->
    whenPresent (p_assetFreezeParams params') constructor_assetFreeze
    = Ok (assetFreeze this) ->
    whenPresent (p_appCallParams params') constructor_applicationCall
    = Ok (applicationCall this) ->
    whenPresent (p_stateProofParams params') constructor_stateProof
    = Ok (stateProof this) ->
    from_obj_for_encoding obj = Ok (set_fee this f)).
  { intros obj He params'. apply (from_obj_rebuilds params); assumption. }
  assert (Hty : Enc.type (forEncoding_common (set_fee this f)) = p_type params)
    by exact Htype.
  unfold fieldsPresent in Hlen, Hhd.
  destruct (p_paymentParams params) as [pp|] eqn:E1;
    destruct (p_keyregParams params) as [kp|] eqn:E2;
    destruct (p_assetConfigParams params) as [acp|] eqn:E3;
    destruct (p_assetTransferParams params) as [atp|] eqn:E4;
    destruct (p_assetFreezeParams params) as [afp|] eqn:E5;
    destruct (p_appCallParams params) as [apl|] eqn:E6;
    destruct (p_stateProofParams params) as [spp|] eqn:E7;
    cbn [isSome List.app List.length] in Hlen; try discriminate Hlen;
    cbn [isSome List.app hd] in Hhd; clear Hlen;
    assert (Hfp : fieldsPresent params = [p_type params])
      by (unfold fieldsPresent; rewrite E1, E2, E3, E4, E5, E6, E7, Hhd;
          reflexivity);
    cbn [whenPresent] in Hpay, Hkreg, Hac, Hax, Haf, Happ, Hstp.
  all: repeat match goal with
              | H : Ok None = Ok _ |- _ => injection H as H
              end.
  - (* payment *)
    apply (whenPresent_Some_inv constructor_payment) in Hpay
        as (pay & Hc & Hp).
    destruct (Hcpay _ Hp) as (Hrcv & Hclose).
    exists (forEncoding_payment (forEncoding_common (set_fee this f)) pay).
    split; [ encoder_block | ].
    rebuild_with decode_params_pay.
    + rewrite Hfp, Hhd. reflexivity.
    + rewrite (payment_roundtrip _ _ _ Hc Hzero Hrcv Hclose), Hp. reflexivity.
  - (* key registration *)
    apply (whenPresent_Some_inv constructor_keyreg) in Hkreg
        as (kr & Hc & Hp).
    exists (forEncoding_keyreg (forEncoding_common (set_fee this f)) kr).
    split; [ encoder_block | ].
    rebuild_with decode_params_keyreg.
    + rewrite Hfp, Hhd. reflexivity.
    + rewrite (keyreg_roundtrip _ _ _ Hc (Hkrn _ Hp)), Hp. reflexivity.
  - (* asset configuration *)
    apply (whenPresent_Some_inv constructor_assetConfig) in Hac
        as (ac & Hc & Hp).
    destruct (Hcac _ Hp) as (Hm & Hr & Hfr & Hcl).
    exists (forEncoding_assetConfig (forEncoding_common (set_fee this f)) ac).
    split; [ encoder_block | ].
    rebuild_with decode_params_acfg.
    + rewrite Hfp, Hhd. reflexivity.
    + rewrite (assetConfig_roundtrip _ _ _ Hc Hm Hr Hfr Hcl), Hp. reflexivity.
  - (* asset transfer *)
    apply (whenPresent_Some_inv constructor_assetTransfer) in Hax
        as (ax & Hc & Hp).
    destruct (Hcax _ Hp) as (Hs & Hr & Hcl).
    exists (forEncoding_assetTransfer (forEncoding_common (set_fee this f)) ax).
    split; [ encoder_block | ].
    rebuild_with decode_params_axfer.
    + rewrite Hfp, Hhd. reflexivity.
    + rewrite (assetTransfer_roundtrip _ _ _ Hc Hzero Hs Hr Hcl), Hp.
      reflexivity.
  - (* asset freeze *)
    apply (whenPresent_Some_inv constructor_assetFreeze) in Haf
        as (af & Hc & Hp).
    exists (forEncoding_assetFreeze (forEncoding_common (set_fee this f)) af).
    split; [ encoder_block | ].
    rebuild_with decode_params_afrz.
    + rewrite Hfp, Hhd. reflexivity.
    + rewrite (assetFreeze_roundtrip _ _ _ Hc Hzero (Hcaf _ Hp)), Hp.
      reflexivity.
  - (* application call *)
    apply (whenPresent_Some_inv constructor_applicationCall) in Happ
        as (ap & Hc & Hp).
    destruct (applicationCall_roundtrip _ _
                (forEncoding_common (set_fee this f)) Hc (Hcap _ Hp)
                (Hapn _ Hp))
      as (obj & app' & Hobj & Hdec & Hc').
    pose proof (forEncoding_applicationCall_envelope _ _ _ Hobj) as Hobjenv.
    exists obj. split; [ encoder_block; exact Hobj | ].
    eapply Henv;
      [ exact Hobjenv
      | apply (decode_params_appl obj app');
        [ rewrite (proj1 Hobjenv), Hty; exact Hhd | exact Hdec ]
      | cbn [p_type p_sender p_note p_lease p_suggestedParams p_rekeyTo
             p_paymentParams p_keyregParams p_assetConfigParams
             p_assetTransferParams p_assetFreezeParams p_appCallParams
             p_stateProofParams whenPresent];
        try reflexivity; try (f_equal; assumption) .. ].
    + rewrite Hfp, Hhd. reflexivity.
    + rewrite Hc', Hp. reflexivity.
  - (* state proof *)
    apply (whenPresent_Some_inv constructor_stateProof) in Hstp
        as (stp & Hc & Hp).
    exists (forEncoding_stateProof (forEncoding_common (set_fee this f)) stp).
    split; [ encoder_block | ].
    rebuild_with decode_params_stpf.
    + rewrite Hfp, Hhd. reflexivity.
    + rewrite (stateProof_roundtrip _ _ _ Hc), Hp. reflexivity.
Qed.

End RoundTrip.

(** Without foreign applications the decoder gives every box reference the
    application index 0, whatever the encoder wrote for it. *)
Lemma decode_box_without_foreign_apps {E : Externals} box reference :
  decode_box None box = Ok reference -> br_appIndex reference = 0.
Proof.
  unfold decode_box. intros H.
  destruct (ensureSafeUnsignedInteger (orElse (Enc.i box) 0)) as [index|];
    [ | discriminate H ].
  destruct (index =? 0); [ | discriminate H ].
  injection H as <-. reflexivity.
Qed.

(** An application call to application 7 whose box reference names
    application 7 encodes and decodes, but the decoded transaction names the
    box's application by 0. *)
Lemma box_of_called_app_decodes_to_zero :
  exists t obj t',
    new_Transaction (E := Sample.externals)
      (Sample.appCall_params None (Sample.boxOf 7)) = Ok t
    /\ get_obj_for_encoding t = Ok obj
    /\ from_obj_for_encoding (E := Sample.externals) obj = Ok t'
    /\ option_map ap_boxes (applicationCall t)
       = Some [{| box_appIndex := 7; box_name := [x01] |}]
    /\ option_map ap_boxes (applicationCall t')
       = Some [{| box_appIndex := 0; box_name := [x01] |}]
    /\ t' <> t.
Proof.
  do 3 eexists.
  split; [ vm_compute; reflexivity | ].
  split; [ vm_compute; reflexivity | ].
  split; [ vm_compute; reflexivity | ].
  split; [ vm_compute; reflexivity | ].
  split; [ vm_compute; reflexivity | ].
  intros H. apply (f_equal applicationCall) in H. vm_compute in H.
  discriminate H.
Qed.


Lemma roundtrip_of_constructed_witness :
  exists t,
    new_Transaction (E := Sample.externals)
      (Sample.appCall_params (Some [9; 7]) (Sample.boxOf 7)) = Ok t
    /\ roundtrip_ready (E := Sample.externals) t
    /\ exists obj,
         get_obj_for_encoding t = Ok obj
         /\ from_obj_for_encoding (E := Sample.externals) obj = Ok t.
Proof.
  eexists. split; [ vm_compute; reflexivity | ].
  match goal with |- ?R /\ _ => assert (Hready : R) end.
  { unfold roundtrip_ready, addresses_canonical, canonical_opt,
      application_stable.
    cbn [sender rekeyTo payment keyreg assetConfig assetTransfer assetFreeze
         applicationCall genesisHash fee].
    split; [ | split; [ reflexivity | split; [ | split; [ | split ] ] ] ].
    - split; [ split; reflexivity | ].
      split; [ intros a H; discriminate H | ].
      split; [ intros a H; discriminate H | ].
      split; [ intros a H; discriminate H | ].
      split; [ intros a H; discriminate H | ].
      split; [ intros a H; discriminate H | ].
      intros ap [= <-]. constructor.
    - split; [ intros H; discriminate H | reflexivity ].
    - vm_compute. intros H; discriminate H.
    - intros kr H; discriminate H.
    - intros ap [= <-].
      cbn [ap_appOnComplete ap_appForeignApps ap_boxes].
      split; [ split; vm_compute; intros H; discriminate H | ].
      split; [ vm_compute; intros H; discriminate H | ].
      constructor; [ | constructor ].
      right. right. left. reflexivity. }
  split; [ exact Hready | ].
  apply (@roundtrip_of_constructed Sample.externals
           (Sample.appCall_params (Some [9; 7]) (Sample.boxOf 7)));
    [ vm_compute; reflexivity | exact Hready ].
Defined.

(** ** Amounts *)

Section Amounts.

Lemma ensureUint64_range value x :
  ensureUint64 value = Ok x <-> x = value /\ 0 <= value <= MAX_UINT_64.
Proof.
  unfold ensureUint64.
  destruct ((0 <=? value) && (value <=? MAX_UINT_64)) eqn:Hr.
  - apply andb_true_iff in Hr as (H0 & H1).
    apply Z.leb_le in H0, H1.
    split; [ intros [= <-]; auto | intros (-> & _); reflexivity ].
  - split; [ discriminate | ].
    intros (_ & H0 & H1). apply andb_false_iff in Hr as [Hr|Hr];
      apply Z.leb_gt in Hr; lia.
Qed.

(** X1. When the [AlgoAmount] constructor succeeds, [algos] and
    [microAlgos] (each 0 when missing) are unsigned 64-bit values,
    [algos * 1000000 + microAlgos] does not exceed 2^64 - 1, and the amount
    holds that many microAlgos. *)
Theorem new_AlgoAmount_spec params a :
  new_AlgoAmount params = Ok a ->
  0 <= orElse (aa_algos params) 0 <= MAX_UINT_64
  /\ 0 <= orElse (aa_microAlgos params) 0 <= MAX_UINT_64
  /\ orElse (aa_algos params) 0 * 1000000
     + orElse (aa_microAlgos params) 0 <= MAX_UINT_64
  /\ toMicroAlgos a
     = orElse (aa_algos params) 0 * 1000000
       + orElse (aa_microAlgos params) 0.
Proof.
  unfold new_AlgoAmount, toMicroAlgos, MICROALGOS_TO_ALGOS_RATIO.
  set (algos := orElse (aa_algos params) 0).
  set (micro := orElse (aa_microAlgos params) 0).
  intros H.
  destruct (ensureUint64 algos) as [x|] eqn:Hx; [ | discriminate ].
  destruct (ensureUint64 micro) as [y|] eqn:Hy; [ | discriminate ].
  apply ensureUint64_range in Hx as (-> & Hx), Hy as (-> & Hy).
  destruct (algos * 1000000 + micro >? MAX_UINT_64) eqn:Hgt;
    [ discriminate | ].
  injection H as <-. cbn [aa_value].
  pose proof (Zgt_cases (algos * 1000000 + micro) MAX_UINT_64) as Hc.
  rewrite Hgt in Hc. repeat split; lia.
Qed.

Lemma new_AlgoAmount_value params a :
  new_AlgoAmount params = Ok a -> 0 <= aa_value a <= MAX_UINT_64.
Proof.
  unfold new_AlgoAmount, MICROALGOS_TO_ALGOS_RATIO. intros H.
  destruct (ensureUint64 (orElse (aa_algos params) 0)) as [x|] eqn:Hx;
    [ | discriminate ].
  destruct (ensureUint64 (orElse (aa_microAlgos params) 0)) as [y|] eqn:Hy;
    [ | discriminate ].
  apply ensureUint64_range in Hx as (-> & Hx), Hy as (-> & Hy).
  pose proof (Zgt_cases (orElse (aa_algos params) 0 * 1000000
                         + orElse (aa_microAlgos params) 0) MAX_UINT_64) as Hc.
  destruct (orElse (aa_algos params) 0 * 1000000
            + orElse (aa_microAlgos params) 0 >? MAX_UINT_64);
    [ discriminate | ].
  injection H as <-. cbn [aa_value]. lia.
Qed.

Lemma microAlgosOnly_range a :
  0 <= aa_value a -> 0 <= microAlgosOnly a < MICROALGOS_TO_ALGOS_RATIO.
Proof.
  intros H. unfold microAlgosOnly, MICROALGOS_TO_ALGOS_RATIO.
  rewrite Z.rem_mod_nonneg by lia. apply Z.mod_pos_bound. lia.
Qed.

(** X2. An amount splits into whole Algos and a remainder below one Algo,
    and building an amount from the two parts gives the same amount. *)
Theorem AlgoAmount_parts params a :
  new_AlgoAmount params = Ok a ->
  toMicroAlgos a
  = wholeAlgosOnly a * MICROALGOS_TO_ALGOS_RATIO + microAlgosOnly a
  /\ 0 <= microAlgosOnly a < MICROALGOS_TO_ALGOS_RATIO
  /\ 0 <= wholeAlgosOnly a
  /\ new_AlgoAmount {| aa_algos := Some (wholeAlgosOnly a);
                       aa_microAlgos := Some (microAlgosOnly a) |} = Ok a.
Proof.
  intros H. apply new_AlgoAmount_value in H.
  unfold toMicroAlgos, wholeAlgosOnly, microAlgosOnly,
    MICROALGOS_TO_ALGOS_RATIO in *.
  destruct a as [value]. cbn [aa_value] in *.
  unfold MAX_UINT_64 in H.
  rewrite Z.quot_div_nonneg, Z.rem_mod_nonneg by lia.
  pose proof (Z.div_mod value 1000000 ltac:(lia)) as Hdm.
  pose proof (Z.mod_pos_bound value 1000000 ltac:(lia)) as Hm.
  assert (Hq : 0 <= value / 1000000) by (apply Z.div_pos; lia).
  assert (Hle : value / 1000000 <= value)
    by (apply Z.div_le_upper_bound; lia).
  split; [ lia | ]. split; [ lia | ]. split; [ lia | ].
  unfold new_AlgoAmount, MICROALGOS_TO_ALGOS_RATIO.
  cbn [orElse aa_algos aa_microAlgos].
  rewrite (proj2 (ensureUint64_range (value / 1000000) (value / 1000000)))
    by (unfold MAX_UINT_64; lia).
  rewrite (proj2 (ensureUint64_range (value mod 1000000)
                    (value mod 1000000)))
    by (unfold MAX_UINT_64; lia).
  pose proof (Zgt_cases (value / 1000000 * 1000000 + value mod 1000000)
                MAX_UINT_64) as Hc.
  destruct (value / 1000000 * 1000000 + value mod 1000000 >? MAX_UINT_64);
    [ unfold MAX_UINT_64 in Hc; lia | ].
  f_equal. f_equal. lia.
Qed.

Lemma of_uint_acc_lower d acc :
  Z.pos acc * 10 ^ Z.of_nat (Decimal.nb_digits d)
  <= Z.pos (Pos.of_uint_acc d acc).
Proof.
  revert acc.
  induction d; intros acc; cbn [Pos.of_uint_acc Decimal.nb_digits];
    try (rewrite Z.pow_0_r; lia);
    rewrite Nat2Z.inj_succ, Z.pow_succ_r by lia;
    (etransitivity; [ | apply IHd ]);
    pose proof (Z.pow_nonneg 10 (Z.of_nat (Decimal.nb_digits d))
                  ltac:(lia)) as Hpow;
    rewrite ?Pos2Z.inj_add, ?Pos2Z.inj_mul; nia.
Qed.

Lemma of_uint_lower d :
  Decimal.unorm d = d -> d <> Decimal.zero ->
  10 ^ (Z.of_nat (Decimal.nb_digits d) - 1) <= Z.of_N (Pos.of_uint d).
Proof.
  intros Hnorm Hnz.
  destruct d;
    try (cbn [Pos.of_uint Decimal.nb_digits];
         rewrite Nat2Z.inj_succ;
         replace (Z.succ (Z.of_nat (Decimal.nb_digits d)) - 1)
           with (Z.of_nat (Decimal.nb_digits d)) by lia;
         cbn [Z.of_N];
         (etransitivity; [ | apply of_uint_acc_lower ]);
         pose proof (Z.pow_nonneg 10 (Z.of_nat (Decimal.nb_digits d))
                       ltac:(lia)); lia).
  - cbn. lia.
  - exfalso. destruct (Decimal.uint_eq_dec d Decimal.Nil) as [->|Hd].
    + apply Hnz. reflexivity.
    + pose proof (DecimalFacts.nb_digits_unorm d Hd) as Hlen.
      rewrite <- (DecimalFacts.unorm_D0 d), Hnorm in Hlen.
      cbn [Decimal.nb_digits] in Hlen. lia.
Qed.

Lemma length_string_of_uint d :
  String.length (DecimalString.NilEmpty.string_of_uint d) = Decimal.nb_digits d.
Proof. induction d; cbn; congruence. Qed.

Lemma length_bigintToString_small m :
  0 <= m < 1000000 -> (String.length (bigintToString m) <= 6)%nat.
Proof.
  intros Hm. unfold bigintToString.
  destruct m as [|p|p]; [ cbn; lia | | lia ].
  cbn [Z.to_int DecimalString.NilZero.string_of_int].
  pose proof (DecimalPos.Unsigned.to_uint_nonnil p) as Hnn.
  pose proof (DecimalPos.Unsigned.to_uint_nonzero p) as Hnz.
  pose proof (DecimalPos.Unsigned.of_to p) as Hof.
  pose proof (DecimalPos.Unsigned.to_of (Pos.to_uint p)) as Hto.
  rewrite Hof in Hto. cbn [N.to_uint] in Hto.
  pose proof (of_uint_lower (Pos.to_uint p) (eq_sym Hto) Hnz) as Hlow.
  rewrite Hof in Hlow. cbn [Z.of_N] in Hlow.
  unfold DecimalString.NilZero.string_of_uint.
  destruct (Pos.to_uint p) eqn:Hd; try (exfalso; apply Hnn; reflexivity);
    rewrite <- Hd in *; rewrite length_string_of_uint;
    (destruct (Nat.le_gt_cases (Decimal.nb_digits (Pos.to_uint p)) 6)
      as [Hle|Hgt]; [ exact Hle | exfalso ]);
    assert (10 ^ 6 <= 10 ^ (Z.of_nat (Decimal.nb_digits (Pos.to_uint p)) - 1))
      by (apply Z.pow_le_mono_r; lia);
    lia.
Qed.

Lemma length_string_of_list_ascii l :
  String.length (string_of_list_ascii l) = List.length l.
Proof. induction l; cbn; congruence. Qed.

Lemma length_string_append s1 s2 :
  String.length (s1 ++ s2) = (String.length s1 + String.length s2)%nat.
Proof. induction s1; cbn; congruence. Qed.

Lemma length_padStart n pad str :
  (String.length str <= n)%nat -> String.length (padStart n pad str) = n.
Proof.
  intros H. unfold padStart.
  rewrite length_string_append, length_string_of_list_ascii, repeat_length.
  lia.
Qed.

(** X3. The text of an amount is the whole Algos, a dot, and exactly six
    digits of microAlgos. *)
Theorem AlgoAmount_toString_six_digits params a :
  new_AlgoAmount params = Ok a ->
  exists fraction,
    AlgoAmount_toString a
    = bigintToString (wholeAlgosOnly a) ++ "." ++ fraction
    /\ String.length fraction = 6%nat.
Proof.
  intros H. apply new_AlgoAmount_value in H.
  eexists. split; [ reflexivity | ].
  apply length_padStart, length_bigintToString_small.
  apply microAlgosOnly_range. lia.
Qed.

End Amounts.

Lemma new_AlgoAmount_spec_witness :
  exists a,
    new_AlgoAmount {| aa_algos := Some 12; aa_microAlgos := None |} = Ok a
    /\ toMicroAlgos a = 12000000.
Proof.
  eexists. split; [ vm_compute; reflexivity | ].
  apply (new_AlgoAmount_spec {| aa_algos := Some 12; aa_microAlgos := None |}).
  vm_compute. reflexivity.
Defined.

Lemma AlgoAmount_parts_witness :
  exists a,
    new_AlgoAmount {| aa_algos := Some 12; aa_microAlgos := Some 3450 |} = Ok a
    /\ toMicroAlgos a
       = wholeAlgosOnly a * MICROALGOS_TO_ALGOS_RATIO + microAlgosOnly a
    /\ 0 <= microAlgosOnly a < MICROALGOS_TO_ALGOS_RATIO
    /\ 0 <= wholeAlgosOnly a
    /\ new_AlgoAmount {| aa_algos := Some (wholeAlgosOnly a);
                         aa_microAlgos := Some (microAlgosOnly a) |} = Ok a.
Proof.
  eexists. split; [ vm_compute; reflexivity | ].
  apply (AlgoAmount_parts {| aa_algos := Some 12; aa_microAlgos := Some 3450 |}).
  vm_compute. reflexivity.
Defined.

Lemma AlgoAmount_toString_six_digits_witness :
  exists a,
    new_AlgoAmount {| aa_algos := Some 12; aa_microAlgos := Some 3450 |} = Ok a
    /\ AlgoAmount_toString a = "12.003450"
    /\ exists fraction,
         AlgoAmount_toString a
         = bigintToString (wholeAlgosOnly a) ++ "." ++ fraction
         /\ String.length fraction = 6%nat.
Proof.
  eexists. split; [ vm_compute; reflexivity | ].
  split; [ vm_compute; reflexivity | ].
  apply (AlgoAmount_toString_six_digits
           {| aa_algos := Some 12; aa_microAlgos := Some 3450 |}).
  vm_compute. reflexivity.
Defined.

(** ** What the constructor guarantees about its result *)

Section ConstructorInvariants.

Context {E : Externals}.

(** X4. A constructed transaction holds exactly one payload, the one its
    type names, and its type is one of the seven transaction types. *)
Theorem constructed_payload_matches_type params t :
  new_Transaction params = Ok t ->
  isTransactionType (type t) = true /\ payloadsPresent t = [type t].
Proof.
  intros H. apply new_Transaction_inv in H as (this & Hfields & _ & ->).
  apply payloadsPresent_constructor_fields in Hfields
      as (Hsame & Hone & Hvalid).
  rewrite payloadsPresent_set_fee. cbn [type set_fee].
  split; [ exact Hvalid | congruence ].
Qed.

Lemma length_substring_le str n m :
  (String.length (substring n m str) <= m)%nat.
Proof.
  revert n m. induction str as [|c rest IH]; intros n m.
  - destruct n, m; cbn; lia.
  - destruct n as [|n]; cbn.
    + destruct m as [|m]; cbn; [ lia | ]. specialize (IH 0%nat m). lia.
    + apply IH.
Qed.

Lemma get_obj_for_encoding_envelope t obj :
  get_obj_for_encoding t = Ok obj ->
  Enc.type obj = type t /\ Enc.grp obj = nonEmpty (group t)
  /\ Enc.fee obj = truthyZ (fee t) /\ Enc.gh obj = genesisHash t.
Proof.
  unfold get_obj_for_encoding. intros H.
  destruct (payment t); [ injection H as <-; cbn; auto | ].
  destruct (keyreg t); [ injection H as <-; cbn; auto | ].
  destruct (assetConfig t); [ injection H as <-; cbn; auto | ].
  destruct (assetTransfer t); [ injection H as <-; cbn; auto | ].
  destruct (assetFreeze t); [ injection H as <-; cbn; auto | ].
  destruct (applicationCall t).
  { apply forEncoding_applicationCall_envelope in H.
    destruct H as (-> & _ & _ & _ & _ & -> & _ & _ & -> & _ & ->).
    cbn. auto. }
  destruct (stateProof t); [ injection H as <-; cbn; auto | discriminate ].
Qed.

(** X5. A constructed transaction that carries no box reference always has
    a canonical object, whose [type] is the transaction's and which has no
    [grp].  [toByte] is the encoder applied to that object, so [txID]
    returns exactly when the encoder accepts the object; the id it returns
    has at most 52 characters. *)
Theorem constructed_has_encoding params t :
  new_Transaction params = Ok t ->
  (forall ap, applicationCall t = Some ap -> ap_boxes ap = []) ->
  exists obj,
    get_obj_for_encoding t = Ok obj
    /\ Enc.type obj = type t /\ Enc.grp obj = None
    /\ toByte t = encode_transaction obj
    /\ is_ok (txID t) = is_ok (encode_transaction obj)
    /\ forall id, txID t = Ok id ->
                  (String.length id <= ALGORAND_TRANSACTION_LENGTH)%nat.
Proof.
  intros H Hboxes.
  pose proof (new_Transaction_group _ _ H) as Hgroup.
  apply new_Transaction_inv in H as (this & Hfields & _ & Ht).
  apply payloadsPresent_constructor_fields in Hfields as (Hsame & Hone & _).
  rewrite Hone in Hsame.
  assert (Hobj : exists obj, get_obj_for_encoding t = Ok obj).
  { rewrite Ht in *. clear Ht. unfold get_obj_for_encoding.
    unfold payloadsPresent in Hsame.
    cbn [set_fee payment keyreg assetConfig assetTransfer assetFreeze
         applicationCall stateProof] in *.
    destruct (payment this); [ eauto | ].
    destruct (keyreg this); [ eauto | ].
    destruct (assetConfig this); [ eauto | ].
    destruct (assetTransfer this); [ eauto | ].
    destruct (assetFreeze this); [ eauto | ].
    destruct (applicationCall this) as [ap|].
    { unfold forEncoding_applicationCall.
      rewrite (Hboxes ap eq_refl). eauto. }
    destruct (stateProof this); [ eauto | discriminate Hsame ]. }
  destruct Hobj as (obj & Hobj).
  pose proof (get_obj_for_encoding_envelope _ _ Hobj) as (Hty & Hgrp & _).
  exists obj. unfold txID, rawTxID, toByte. rewrite Hobj.
  split; [ reflexivity | ].
  split; [ exact Hty | ].
  split; [ rewrite Hgrp, Hgroup; reflexivity | ].
  split; [ reflexivity | ].
  destruct (encode_transaction obj) as [encoded|]; cbn [is_ok].
  - split; [ reflexivity | ].
    intros id [= <-]. apply length_substring_le.
  - split; [ reflexivity | discriminate ].
Qed.

Lemma getKeyregKey_length input name len key :
  getKeyregKey input name len = Ok (Some key) -> List.length key = len.
Proof.
  unfold getKeyregKey. destruct input as [given|]; [ | discriminate ].
  intros H. ok_steps H. injection H as <-.
  apply negb_false_iff, Nat.eqb_eq in Hif. exact Hif.
Qed.

(** X6. The participation keys of a constructed key registration have the
    required lengths: 32 bytes for the vote key and the selection key, 64
    for the state proof key. *)
Theorem keyreg_key_lengths params t kr :
  new_Transaction params = Ok t ->
  keyreg t = Some kr ->
  has_length KEYREG_VOTE_KEY_LENGTH (kr_voteKey kr)
  /\ has_length KEYREG_SELECTION_KEY_LENGTH (kr_selectionKey kr)
  /\ has_length KEYREG_STATE_PROOF_KEY_LENGTH (kr_stateProofKey kr).
Proof.
  intros H Hkr. apply new_Transaction_inv in H as (this & Hfields & _ & Ht).
  rewrite Ht in Hkr. cbn [set_fee keyreg] in Hkr.
  apply constructor_fields_inv in Hfields.
  destruct Hfields as (_ & _ & _ & _ & _ & _ & _ & _ & _ & _ & _ & _ & _
                       & _ & _ & _ & Hk & _).
  eapply whenPresent_inv in Hk as (kp & _ & Hc); [ | exact Hkr ].
  unfold constructor_keyreg in Hc. ok_steps Hc. injection Hc as <-.
  cbn [kr_voteKey kr_selectionKey kr_stateProofKey].
  repeat split; intros key ->; eapply getKeyregKey_length; eassumption.
Qed.

Lemma optionalFixedLengthByteArray_zero input len name out :
  optionalFixedLengthByteArray input len name = Ok out ->
  forall given, input = Some given -> uint8ArrayIsEmpty given = true ->
  out = None.
Proof.
  unfold optionalFixedLengthByteArray, optionalUint8Array.
  intros H given -> Hzero. rewrite Hzero in H.
  destruct (negb (Nat.eqb (List.length given) len)); [ discriminate | ].
  injection H as <-. reflexivity.
Qed.

(** X7. A lease of 32 zero bytes is stored as no lease at all, and so is an
    all-zero asset metadata hash; a lease or hash that is stored is the one
    given, is 32 bytes long and is not all zeros. *)
Theorem zero_lease_is_absent params t :
  new_Transaction params = Ok t ->
  (forall given, p_lease params = Some given ->
     uint8ArrayIsEmpty given = true -> lease t = None)
  /\ (forall stored, lease t = Some stored ->
        p_lease params = Some stored
        /\ List.length stored = ALGORAND_TRANSACTION_LEASE_LENGTH
        /\ uint8ArrayIsEmpty stored = false)
  /\ (forall ac acp, assetConfig t = Some ac ->
        p_assetConfigParams params = Some acp ->
        (forall given, acp_assetMetadataHash acp = Some given ->
           uint8ArrayIsEmpty given = true -> ac_assetMetadataHash ac = None)
        /\ (forall stored, ac_assetMetadataHash ac = Some stored ->
              acp_assetMetadataHash acp = Some stored
              /\ List.length stored = ASSET_METADATA_HASH_LENGTH
              /\ uint8ArrayIsEmpty stored = false)).
Proof.
  intros H. apply new_Transaction_inv in H as (this & Hfields & _ & ->).
  cbn [set_fee lease assetConfig].
  apply constructor_fields_inv in Hfields.
  destruct Hfields as (_ & _ & _ & _ & Hl & _ & _ & _ & _ & _ & _ & _ & _
                       & _ & _ & _ & _ & Hac & _).
  split; [ | split ].
  - intros given Hgiven Hzero.
    exact (optionalFixedLengthByteArray_zero _ _ _ _ Hl _ Hgiven Hzero).
  - intros stored Hs. rewrite Hs in Hl.
    apply optionalFixedLengthByteArray_Some in Hl. exact Hl.
  - intros ac acp Hsome Hparams. rewrite Hparams in Hac.
    apply whenPresent_Some_inv in Hac as (ac' & Hc & Heq).
    rewrite Hsome in Heq. injection Heq as <-.
    unfold constructor_assetConfig in Hc. ok_steps Hc. injection Hc as <-.
    cbn [ac_assetMetadataHash]. split.
    + intros given Hgiven Hzero.
      eapply optionalFixedLengthByteArray_zero; eassumption.
    + intros stored ->.
      match goal with
      | Hm : optionalFixedLengthByteArray _ _ _ = Ok (Some _) |- _ =>
          apply optionalFixedLengthByteArray_Some in Hm; exact Hm
      end.
Qed.

Lemma ensureUint64_uint64 value x : ensureUint64 value = Ok x -> uint64 x.
Proof. intros H. apply ensureUint64_Ok in H as (-> & H). exact H. Qed.

Lemma ensureSafeUnsignedInteger_safe value x :
  ensureSafeUnsignedInteger value = Ok x -> safeUnsigned x.
Proof.
  unfold ensureSafeUnsignedInteger, safeUnsigned.
  destruct ((0 <=? value) && (value <=? safeUnsignedMax)) eqn:Hr;
    [ | discriminate ].
  intros [= <-]. apply andb_true_iff in Hr as [H1 H2]. lia.
Qed.

Lemma optionalUint64_uint64 input out :
  optionalUint64 input = Ok out -> uint64_opt out.
Proof.
  unfold optionalUint64. destruct input as [value|].
  - destruct (ensureUint64 value) as [x|] eqn:Hx; [ | discriminate ].
    intros [= <-] y [= <-]. eapply ensureUint64_uint64. exact Hx.
  - intros [= <-] y [=].
Qed.

Lemma mapM_Forall {A B} (f : A -> result B) (P : B -> Prop) xs ys :
  (forall x y, f x = Ok y -> P y) ->
  mapM f xs = Ok ys -> Forall P ys.
Proof.
  intros Hf. revert ys. induction xs as [|x rest IH]; intros ys; cbn.
  - intros [= <-]. constructor.
  - destruct (f x) as [y|] eqn:Hx; [ | discriminate ].
    destruct (mapM f rest) as [tail|]; [ | discriminate ].
    intros [= <-]. constructor; eauto.
Qed.

Lemma ensureBoxReference_uint64 input box :
  ensureBoxReference input = Ok box -> uint64 (box_appIndex box).
Proof.
  unfold ensureBoxReference, ensureUint8Array. intros H.
  destruct (ensureUint64 (br_appIndex input)) as [idx|] eqn:Hx;
    [ | discriminate ].
  injection H as <-. eapply ensureUint64_uint64. exact Hx.
Qed.

(** X8. Every number a constructed transaction holds was range-checked,
    but for the on-completion value of an application call, which is stored
    as given: the validity rounds, amounts, asset and application ids,
    foreign references, box application ids and the key registration rounds
    are unsigned 64-bit values, and the decimals, schema sizes, extra pages
    and state proof type are values [ensureSafeUnsignedInteger] accepts.
    The fee is never negative. *)
Theorem constructed_numbers_in_range params t :
  new_Transaction params = Ok t ->
  uint64 (firstValid t) /\ uint64 (lastValid t) /\ 0 <= fee t
  /\ (forall p, payment t = Some p -> uint64 (pay_amount p))
  /\ (forall kr, keyreg t = Some kr ->
        uint64_opt (kr_voteFirst kr) /\ uint64_opt (kr_voteLast kr)
        /\ uint64_opt (kr_voteKeyDilution kr))
  /\ (forall ac, assetConfig t = Some ac ->
        uint64 (ac_assetId ac) /\ uint64 (ac_assetTotal ac)
        /\ safeUnsigned (ac_assetDecimals ac))
  /\ (forall ax, assetTransfer t = Some ax ->
        uint64 (ax_assetId ax) /\ uint64 (ax_amount ax))
  /\ (forall af, assetFreeze t = Some af -> uint64 (af_assetId af))
  /\ (forall ap, applicationCall t = Some ap ->
        uint64 (ap_appId ap)
        /\ safeUnsigned (ap_appLocalInts ap)
        /\ safeUnsigned (ap_appLocalByteSlices ap)
        /\ safeUnsigned (ap_appGlobalInts ap)
        /\ safeUnsigned (ap_appGlobalByteSlices ap)
        /\ safeUnsigned (ap_extraPages ap)
        /\ Forall uint64 (ap_appForeignApps ap)
        /\ Forall uint64 (ap_appForeignAssets ap)
        /\ Forall (fun box => uint64 (box_appIndex box)) (ap_boxes ap))
  /\ (forall stp, stateProof t = Some stp ->
        safeUnsigned (stpf_stateProofType stp))
  /\ (forall ap app, applicationCall t = Some ap ->
        p_appCallParams params = Some app ->
        ap_appOnComplete ap = app_onComplete app).
Proof.
  intros H. apply new_Transaction_inv in H as (this & Hfields & Hdet & Ht).
  pose proof (determine_fee_nonneg _ _ _ Hdet) as Hfee.
  rewrite Ht. clear Ht Hdet.
  cbn [set_fee firstValid lastValid payment keyreg assetConfig assetTransfer
       assetFreeze applicationCall stateProof].
  apply constructor_fields_inv in Hfields.
  destruct Hfields as (_ & _ & _ & _ & _ & _ & _ & _ & Hfv & Hlv & _ & _ & _
                       & _ & _ & Hpay & Hkr & Hac & Hax & Haf & Hap & Hstp).
  split; [ eapply ensureUint64_uint64; exact Hfv | ].
  split; [ eapply ensureUint64_uint64; exact Hlv | ].
  split; [ exact Hfee | ].
  split; [ | split; [ | split; [ | split; [ | split; [ | split;
    [ | split ] ] ] ] ] ].
  - intros p Hp. eapply whenPresent_inv in Hpay as (pp & _ & Hc); [ | exact Hp ].
    unfold constructor_payment in Hc. ok_steps Hc. injection Hc as <-.
    cbn. eapply ensureUint64_uint64. eassumption.
  - intros kr Hp. eapply whenPresent_inv in Hkr as (kp & _ & Hc); [ | exact Hp ].
    unfold constructor_keyreg in Hc. ok_steps Hc. injection Hc as <-.
    cbn [kr_voteFirst kr_voteLast kr_voteKeyDilution].
    split; [ | split ]; eapply optionalUint64_uint64; eassumption.
  - intros ac Hp. eapply whenPresent_inv in Hac as (acp & _ & Hc); [ | exact Hp ].
    unfold constructor_assetConfig in Hc. ok_steps Hc. injection Hc as <-.
    cbn [ac_assetId ac_assetTotal ac_assetDecimals].
    split; [ | split ];
      solve [ eapply ensureUint64_uint64; eassumption
            | eapply ensureSafeUnsignedInteger_safe; eassumption ].
  - intros ax Hp. eapply whenPresent_inv in Hax as (atp & _ & Hc); [ | exact Hp ].
    unfold constructor_assetTransfer in Hc. ok_steps Hc. injection Hc as <-.
    cbn [ax_assetId ax_amount].
    split; eapply ensureUint64_uint64; eassumption.
  - intros af Hp. eapply whenPresent_inv in Haf as (afp & _ & Hc); [ | exact Hp ].
    unfold constructor_assetFreeze in Hc. ok_steps Hc. injection Hc as <-.
    cbn. eapply ensureUint64_uint64; eassumption.
  - intros ap Hp. eapply whenPresent_inv in Hap as (app & _ & Hc); [ | exact Hp ].
    unfold constructor_applicationCall, ensureArray in Hc.
    ok_steps Hc. injection Hc as <-.
    cbn [ap_appId ap_appLocalInts ap_appLocalByteSlices ap_appGlobalInts
         ap_appGlobalByteSlices ap_extraPages ap_appForeignApps
         ap_appForeignAssets ap_boxes].
    repeat apply conj;
      solve [ eapply ensureUint64_uint64; eassumption
            | eapply ensureSafeUnsignedInteger_safe; eassumption
            | eapply (mapM_Forall ensureUint64); [ | eassumption ];
              intros x y Hxy; eapply ensureUint64_uint64; exact Hxy
            | eapply (mapM_Forall ensureBoxReference); [ | eassumption ];
              intros x y Hxy; eapply ensureBoxReference_uint64; exact Hxy ].
  - intros stp Hp.
    eapply whenPresent_inv in Hstp as (spp & _ & Hc); [ | exact Hp ].
    unfold constructor_stateProof in Hc. ok_steps Hc. injection Hc as <-.
    cbn. eapply ensureSafeUnsignedInteger_safe; eassumption.
  - intros ap app Hp Happ.
    eapply whenPresent_inv in Hap as (app' & Happ' & Hc); [ | exact Hp ].
    rewrite Happ in Happ'. injection Happ' as <-.
    unfold constructor_applicationCall, ensureArray in Hc.
    ok_steps Hc. injection Hc as <-. reflexivity.
Qed.

(** X9. The constructor throws unless exactly one type-specific parameter
    block is given and it is the block of the announced type; it also throws
    for a type outside the seven transaction types and for an empty genesis
    hash text. *)
Theorem constructor_rejects_type_mismatch params :
  isTransactionType (p_type params) = false
  \/ fieldsPresent params <> [p_type params]
  \/ sp_genesisHash (p_suggestedParams params) = "" ->
  throws (new_Transaction params).
Proof.
  intros Hbad. apply not_ok_throws. intros t H.
  apply new_Transaction_inv in H as (this & Hfields & _ & _).
  pose proof (payloadsPresent_constructor_fields _ _ Hfields)
    as (_ & Hone & _).
  apply constructor_fields_inv in Hfields.
  destruct Hfields as (Hvalid & Htype & _ & _ & _ & _ & _ & _ & _ & _ & _
                       & Hgh & _).
  destruct Hbad as [Hbad | [Hbad | Hbad]].
  - congruence.
  - apply Hbad. congruence.
  - exact (Hgh Hbad).
Qed.

Lemma decode_params_envelope obj params :
  decode_params obj = Ok params ->
  p_type params = Enc.type obj
  /\ p_suggestedParams params = decode_suggestedParams obj
  /\ p_appCallParams params
     = (if String.eqb (Enc.type obj) TransactionType.appl
        then p_appCallParams params else None)
  /\ forall app, p_appCallParams params = Some app ->
       decode_appCallParams obj = Ok app.
Proof.
  unfold decode_params. intros H.
  destruct (negb (isTransactionType (Enc.type obj))); [ discriminate | ].
  destruct (String.eqb (Enc.type obj) TransactionType.pay) eqn:H1;
    [ apply String.eqb_eq in H1; rewrite H1 in *; injection H as <-;
      cbn; repeat split; intros app [=] | ].
  destruct (String.eqb (Enc.type obj) TransactionType.keyreg) eqn:H2;
    [ apply String.eqb_eq in H2; rewrite H2 in *; injection H as <-;
      cbn; repeat split; intros app [=] | ].
  destruct (String.eqb (Enc.type obj) TransactionType.acfg) eqn:H3;
    [ apply String.eqb_eq in H3; rewrite H3 in *; injection H as <-;
      cbn; repeat split; intros app [=] | ].
  destruct (String.eqb (Enc.type obj) TransactionType.axfer) eqn:H4;
    [ apply String.eqb_eq in H4; rewrite H4 in *; injection H as <-;
      cbn; repeat split; intros app [=] | ].
  destruct (String.eqb (Enc.type obj) TransactionType.afrz) eqn:H5;
    [ apply String.eqb_eq in H5; rewrite H5 in *; injection H as <-;
      cbn; repeat split; intros app [=] | ].
  destruct (String.eqb (Enc.type obj) TransactionType.appl) eqn:H6.
  { destruct (decode_appCallParams obj) as [app0|]; [ | discriminate ].
    injection H as <-. cbn. repeat split. intros app [= <-]. reflexivity. }
  destruct (String.eqb (Enc.type obj) TransactionType.stpf) eqn:H7;
    [ injection H as <-; cbn; repeat split; intros app [=] | discriminate ].
Qed.

(** X10. Decoding takes the fee, the validity rounds and the group as they
    are written: the fee is the encoded fee (0 when the key is missing), it
    is never recomputed from the size nor raised to a minimum; the type is
    the encoded type. *)
Theorem decoding_takes_fee_as_written obj t :
  from_obj_for_encoding obj = Ok t ->
  fee t = orElse (Enc.fee obj) 0
  /\ firstValid t = orElse (Enc.fv obj) 0
  /\ lastValid t = Enc.lv obj
  /\ type t = Enc.type obj
  /\ group t = orElse (Enc.grp obj) [].
Proof.
  intros H. apply from_obj_for_encoding_inv in H
      as (params & txn & Hdec & Hnew & Hgrp).
  apply decode_params_envelope in Hdec as (Hty & Hsp & _).
  pose proof (new_Transaction_group _ _ Hnew) as Hgroup.
  apply new_Transaction_inv in Hnew as (this & Hfields & Hdet & Htxn).
  apply constructor_fields_inv in Hfields.
  destruct Hfields as (_ & Htype & _ & _ & _ & _ & _ & _ & Hfv & Hlv & _).
  rewrite Hsp in Hdet, Hfv, Hlv.
  cbn [decode_suggestedParams sp_firstValid sp_lastValid] in Hfv, Hlv.
  apply ensureUint64_Ok in Hfv as (Hfv & _), Hlv as (Hlv & _).
  unfold determine_fee, ensureBoolean in Hdet.
  cbn [decode_suggestedParams sp_fee sp_flatFee orElse negb] in Hdet.
  destruct (ensureUint64 (orElse (Enc.fee obj) 0)) as [fee0|] eqn:Hfee;
    [ | discriminate ].
  apply ensureUint64_Ok in Hfee as (-> & _).
  injection Hdet as Hdet.
  assert (Hcore : fee txn = orElse (Enc.fee obj) 0
                  /\ firstValid txn = orElse (Enc.fv obj) 0
                  /\ lastValid txn = Enc.lv obj
                  /\ type txn = Enc.type obj).
  { rewrite <- Hdet. cbn [set_fee fee firstValid lastValid type].
    repeat split; congruence. }
  destruct Hcore as (H1 & H2 & H3 & H4).
  destruct (Enc.grp obj) as [grp|].
  - destruct Hgrp as (_ & ->). cbn. auto.
  - subst t. cbn [orElse]. auto.
Qed.

Lemma decode_box_appIndex foreignApps box reference :
  decode_box foreignApps box = Ok reference ->
  br_appIndex reference = 0
  \/ In (br_appIndex reference) (orElse foreignApps []).
Proof.
  unfold decode_box. intros H.
  destruct (ensureSafeUnsignedInteger (orElse (Enc.i box) 0))
    as [index|] eqn:Hidx; [ | discriminate ].
  apply ensureSafeUnsignedInteger_safe in Hidx. unfold safeUnsigned in Hidx.
  destruct (index =? 0) eqn:Hz; [ injection H as <-; left; reflexivity | ].
  apply Z.eqb_neq in Hz.
  destruct foreignApps as [apps|]; [ | discriminate ].
  destruct (Z.of_nat (List.length apps) <? index) eqn:Hlt; [ discriminate | ].
  apply Z.ltb_ge in Hlt. injection H as <-. right. cbn.
  apply nth_In. lia.
Qed.

Lemma mapM_Forall2 {A B} (f : A -> result B) xs ys :
  mapM f xs = Ok ys -> Forall2 (fun x y => f x = Ok y) xs ys.
Proof.
  revert ys. induction xs as [|x rest IH]; intros ys; cbn.
  - intros [= <-]. constructor.
  - destruct (f x) as [y|] eqn:Hx; [ | discriminate ].
    destruct (mapM f rest) as [tail|]; [ | discriminate ].
    intros [= <-]. constructor; auto.
Qed.

Lemma mapM_ensureUint64_same xs ys : mapM ensureUint64 xs = Ok ys -> ys = xs.
Proof.
  intros H. apply mapM_Forall2 in H.
  induction H as [|x y xs ys Hxy _ IH]; [ reflexivity | ].
  apply ensureUint64_Ok in Hxy as (-> & _). congruence.
Qed.

Lemma boxes_keep_appIndex (P : Z -> Prop) references boxes :
  Forall2 (fun reference box => ensureBoxReference reference = Ok box)
    references boxes ->
  Forall (fun reference => P (br_appIndex reference)) references ->
  Forall (fun box => P (box_appIndex box)) boxes.
Proof.
  induction 1 as [|reference box refs boxes Hone _ IH]; intros Hall;
    [ constructor | ].
  inversion Hall as [|? ? Hhead Htail]; subst.
  constructor; [ | apply IH; exact Htail ].
  unfold ensureBoxReference, ensureUint8Array in Hone.
  destruct (ensureUint64 (br_appIndex reference)) as [idx|] eqn:Hidx;
    [ | discriminate ].
  apply ensureUint64_Ok in Hidx as (-> & _). injection Hone as <-.
  exact Hhead.
Qed.

(** X11. In a decoded application call every box reference names
    application 0 or one of the call's foreign applications. *)
Theorem decoded_box_names_foreign_app obj t ap :
  from_obj_for_encoding obj = Ok t ->
  applicationCall t = Some ap ->
  Forall (fun box => box_appIndex box = 0
                     \/ In (box_appIndex box) (ap_appForeignApps ap))
    (ap_boxes ap).
Proof.
  intros H Hap. apply from_obj_for_encoding_inv in H
      as (params & txn & Hdec & Hnew & Hgrp).
  assert (Hap' : applicationCall txn = Some ap).
  { destruct (Enc.grp obj); [ destruct Hgrp as (_ & ->) | subst t ];
      exact Hap. }
  clear Hgrp Hap t.
  apply decode_params_envelope in Hdec as (_ & _ & _ & Happ).
  apply new_Transaction_inv in Hnew as (this & Hfields & _ & Htxn).
  rewrite Htxn in Hap'. cbn [set_fee applicationCall] in Hap'.
  apply constructor_fields_inv in Hfields.
  destruct Hfields as (_ & _ & _ & _ & _ & _ & _ & _ & _ & _ & _ & _ & _
                       & _ & _ & _ & _ & _ & _ & _ & Hc & _).
  eapply whenPresent_inv in Hc as (app & Hsome & Hc); [ | exact Hap' ].
  specialize (Happ _ Hsome).
  unfold decode_appCallParams in Happ.
  destruct (ensureSafeUnsignedInteger (orElse (Enc.apan obj) 0));
    [ | discriminate ].
  destruct (match Enc.apbx obj with
            | Some apbx => b <- mapM (decode_box (Enc.apfa obj)) apbx ;;
                           Ok (Some b)
            | None => Ok None
            end) as [decoded|] eqn:Hboxes; [ | discriminate ].
  injection Happ as <-.
  unfold constructor_applicationCall, ensureArray in Hc.
  cbn [app_appId app_onComplete app_numLocalInts app_numLocalByteSlices
       app_numGlobalInts app_numGlobalByteSlices app_extraPages
       app_approvalProgram app_clearProgram app_appArgs app_accounts
       app_foreignApps app_foreignAssets app_boxes] in Hc.
  ok_steps Hc. injection Hc as <-. cbn [ap_boxes ap_appForeignApps].
  match goal with
  | Hf : mapM ensureUint64 (orElse (Enc.apfa obj) []) = Ok _ |- _ =>
      apply mapM_ensureUint64_same in Hf; subst
  end.
  match goal with
  | Hb : mapM ensureBoxReference (orElse decoded []) = Ok ?boxes |- _ =>
      apply mapM_Forall2 in Hb; rename Hb into Hrefs
  end.
  assert (Hdecoded : Forall (fun reference =>
             br_appIndex reference = 0
             \/ In (br_appIndex reference) (orElse (Enc.apfa obj) []))
            (orElse decoded [])).
  { destruct (Enc.apbx obj) as [apbx|]; [ | injection Hboxes as <-; constructor ].
    destruct (mapM (decode_box (Enc.apfa obj)) apbx) as [b|] eqn:Hb;
      [ | discriminate ].
    injection Hboxes as <-. cbn [orElse].
    eapply mapM_Forall; [ | exact Hb ].
    intros x y Hxy. eapply decode_box_appIndex. exact Hxy. }
  exact (boxes_keep_appIndex
           (fun index => index = 0 \/ In index (orElse (Enc.apfa obj) []))
           _ _ Hrefs Hdecoded).
Qed.

End ConstructorInvariants.

Lemma constructed_payload_matches_type_witness :
  exists t,
    new_Transaction (E := Sample.externals)
      (Sample.payment_params (Some true) 1000) = Ok t
    /\ isTransactionType (type t) = true /\ payloadsPresent t = [type t].
Proof.
  eexists. split; [ vm_compute; reflexivity | ].
  apply (@constructed_payload_matches_type Sample.externals
           (Sample.payment_params (Some true) 1000)).
  vm_compute. reflexivity.
Defined.

Lemma constructed_has_encoding_witness :
  exists t obj,
    new_Transaction (E := Sample.externals) (Sample.payment_params None 20)
    = Ok t
    /\ get_obj_for_encoding t = Ok obj
    /\ Enc.type obj = TransactionType.pay
    /\ toByte (E := Sample.externals) t = Sample.encode obj
    /\ exists id, txID (E := Sample.externals) t = Ok id
                  /\ (String.length id <= 52)%nat.
Proof.
  do 2 eexists. split; [ vm_compute; reflexivity | ].
  match goal with
  | |- get_obj_for_encoding ?t0 = _ /\ _ =>
      destruct (@constructed_has_encoding Sample.externals
                  (Sample.payment_params None 20) t0
                  ltac:(vm_compute; reflexivity)
                  ltac:(intros ap Hap; discriminate Hap))
        as (obj & Hobj & Hty & _ & Hbytes & _ & Hid)
  end.
  vm_compute in Hobj. injection Hobj as <-.
  split; [ vm_compute; reflexivity | ].
  split; [ exact Hty | ].
  split; [ exact Hbytes | ].
  match type of Hid with
  | forall id, ?r = Ok id -> _ => assert (Hok : exists id, r = Ok id)
  end.
  { eexists. vm_compute. reflexivity. }
  destruct Hok as (id & Hok).
  exists id. split; [ exact Hok | exact (Hid _ Hok) ].
Defined.

Lemma keyreg_key_lengths_witness :
  exists t kr,
    new_Transaction (E := Sample.externals)
      (Sample.keyreg_params (Some true)
         (Sample.keyreg_votes None (Some 1))) = Ok t
    /\ keyreg t = Some kr
    /\ kr_voteKey kr = Some (Sample.key x01)
    /\ has_length KEYREG_VOTE_KEY_LENGTH (kr_voteKey kr)
    /\ has_length KEYREG_SELECTION_KEY_LENGTH (kr_selectionKey kr)
    /\ has_length KEYREG_STATE_PROOF_KEY_LENGTH (kr_stateProofKey kr).
Proof.
  do 2 eexists. split; [ vm_compute; reflexivity | ].
  split; [ reflexivity | ]. split; [ reflexivity | ].
  eapply (@keyreg_key_lengths Sample.externals
            (Sample.keyreg_params (Some true)
         (Sample.keyreg_votes None (Some 1))));
    [ vm_compute; reflexivity | reflexivity ].
Defined.

Lemma zero_lease_is_absent_witness :
  exists t,
    new_Transaction (E := Sample.externals)
      (SigningSample.payment_with_lease Sample.zeroKey) = Ok t
    /\ lease t = None.
Proof.
  eexists. split; [ vm_compute; reflexivity | ].
  eapply (@zero_lease_is_absent Sample.externals
            (SigningSample.payment_with_lease Sample.zeroKey));
    [ vm_compute; reflexivity | reflexivity | vm_compute; reflexivity ].
Defined.

Lemma constructed_numbers_in_range_witness :
  exists t,
    new_Transaction (E := Sample.externals)
      (Sample.appCall_params (Some [9; 7]) (Sample.boxOf 7)) = Ok t
    /\ uint64 (firstValid t) /\ uint64 (lastValid t) /\ 0 <= fee t
    /\ forall ap, applicationCall t = Some ap ->
         uint64 (ap_appId ap)
         /\ safeUnsigned (E := Sample.externals) (ap_extraPages ap)
         /\ Forall uint64 (ap_appForeignApps ap)
         /\ ap_appOnComplete ap = 0.
Proof.
  eexists. split; [ vm_compute; reflexivity | ].
  pose proof (@constructed_numbers_in_range Sample.externals
                (Sample.appCall_params (Some [9; 7]) (Sample.boxOf 7)) _
                ltac:(vm_compute; reflexivity))
    as (Hfv & Hlv & Hfee & _ & _ & _ & _ & _ & Hap & _ & Hoc).
  split; [ exact Hfv | ]. split; [ exact Hlv | ]. split; [ exact Hfee | ].
  intros ap Hp.
  destruct (Hap ap Hp) as (Hid & _ & _ & _ & _ & Hep & Hfa & _).
  split; [ exact Hid | ]. split; [ exact Hep | ]. split; [ exact Hfa | ].
  exact (Hoc ap _ Hp eq_refl).
Defined.

Lemma constructor_rejects_type_mismatch_witness :
  fieldsPresent SigningSample.two_payloads
  <> [p_type SigningSample.two_payloads]
  /\ throws (new_Transaction (E := Sample.externals)
               SigningSample.two_payloads).
Proof.
  assert (Hne : fieldsPresent SigningSample.two_payloads
                <> [p_type SigningSample.two_payloads])
    by (vm_compute; intros H; discriminate H).
  split; [ exact Hne | ].
  apply (@constructor_rejects_type_mismatch Sample.externals).
  right. left. exact Hne.
Defined.

Lemma decoding_takes_fee_as_written_witness :
  exists t,
    from_obj_for_encoding (E := Sample.externals)
      (Sample.encoded_payment None None) = Ok t
    /\ fee t = 1000 /\ firstValid t = 1 /\ lastValid t = 1001
    /\ type t = TransactionType.pay /\ group t = [].
Proof.
  eexists. split; [ vm_compute; reflexivity | ].
  apply (@decoding_takes_fee_as_written Sample.externals
           (Sample.encoded_payment None None)).
  vm_compute. reflexivity.
Defined.

Lemma decoded_box_names_foreign_app_witness :
  exists t0 obj t ap,
    new_Transaction (E := Sample.externals)
      (Sample.appCall_params (Some [9]) (Sample.boxOf 9)) = Ok t0
    /\ get_obj_for_encoding t0 = Ok obj
    /\ from_obj_for_encoding (E := Sample.externals) obj = Ok t
    /\ applicationCall t = Some ap
    /\ Forall (fun box => box_appIndex box = 0
                          \/ In (box_appIndex box) (ap_appForeignApps ap))
         (ap_boxes ap).
Proof.
  do 4 eexists. split; [ vm_compute; reflexivity | ].
  split; [ vm_compute; reflexivity | ].
  match goal with
  | |- from_obj_for_encoding ?o = _ /\ _ => pose (obj := o)
  end.
  split; [ vm_compute; reflexivity | ].
  split; [ reflexivity | ].
  eapply (@decoded_box_names_foreign_app Sample.externals obj);
    [ vm_compute; reflexivity | reflexivity ].
Defined.

(** ** Encoding, signing and decoding *)

Section SigningFacts.

Context {E : Externals} {S : SigningExternals}.

Lemma get_obj_for_encoding_set_group t grp obj :
  get_obj_for_encoding t = Ok obj ->
  get_obj_for_encoding (set_group t grp) = Ok (with_grp obj (nonEmpty grp)).
Proof.
  unfold get_obj_for_encoding.
  cbn [set_group payment keyreg assetConfig assetTransfer assetFreeze
       applicationCall stateProof].
  destruct (payment t); [ intros [= <-]; reflexivity | ].
  destruct (keyreg t); [ intros [= <-]; reflexivity | ].
  destruct (assetConfig t); [ intros [= <-]; reflexivity | ].
  destruct (assetTransfer t); [ intros [= <-]; reflexivity | ].
  destruct (assetFreeze t); [ intros [= <-]; reflexivity | ].
  destruct (applicationCall t) as [ap|].
  { unfold forEncoding_applicationCall.
    destruct (match ap_boxes ap with
              | [] => Ok None
              | _ :: _ =>
                  b <- translateBoxReferences (ap_boxes ap)
                         (ap_appForeignApps ap) (ap_appId ap) ;;
                  Ok (Some b)
              end); [ intros [= <-]; reflexivity | discriminate ]. }
  destruct (stateProof t); [ intros [= <-]; reflexivity | discriminate ].
Qed.

Lemma decode_params_with_grp obj value :
  decode_params (with_grp obj value) = decode_params obj.
Proof. reflexivity. Qed.

Lemma from_obj_for_encoding_with_grp obj t grp :
  from_obj_for_encoding obj = Ok t ->
  Enc.grp obj = None ->
  List.length grp = ALGORAND_TRANSACTION_GROUP_LENGTH ->
  from_obj_for_encoding (with_grp obj (Some grp)) = Ok (set_group t grp).
Proof.
  unfold from_obj_for_encoding. rewrite decode_params_with_grp.
  intros H Hnone Hlen. rewrite Hnone in H.
  destruct (decode_params obj) as [params|]; [ | discriminate ].
  destruct (new_Transaction params) as [txn|]; [ | discriminate ].
  injection H as <-. cbn [with_grp Enc.grp]. unfold ensureUint8Array.
  rewrite Hlen. reflexivity.
Qed.

(** X12. A transaction that survives the round trip through its canonical
    encoding still does once a 32-byte group id is attached: what
    [encodeUnsignedTransaction] writes for the grouped transaction,
    [decodeUnsignedTransaction] reads back as the grouped transaction,
    provided the msgpack encoder accepts that object and the decoder reads
    back what it wrote. *)
Theorem grouped_transaction_roundtrip t obj grp :
  get_obj_for_encoding t = Ok obj ->
  from_obj_for_encoding obj = Ok t ->
  group t = [] ->
  List.length grp = ALGORAND_TRANSACTION_GROUP_LENGTH ->
  (exists written,
     encode_transaction (with_grp obj (Some grp)) = Ok written
     /\ decode_transaction written = Ok (with_grp obj (Some grp))) ->
  exists encoded,
    encodeUnsignedTransaction (set_group t grp) = Ok encoded
    /\ decodeUnsignedTransaction encoded = Ok (set_group t grp).
Proof.
  intros Hobj Hdec Hgroup Hlen (written & Hwritten & Hcodec).
  pose proof (get_obj_for_encoding_envelope _ _ Hobj) as (_ & Hgrp & _).
  rewrite Hgroup in Hgrp. cbn [nonEmpty] in Hgrp.
  assert (Hsome : nonEmpty grp = Some grp).
  { destruct grp; [ discriminate Hlen | reflexivity ]. }
  unfold encodeUnsignedTransaction, decodeUnsignedTransaction.
  rewrite (get_obj_for_encoding_set_group _ grp _ Hobj), Hsome.
  exists written. split; [ exact Hwritten | ].
  rewrite Hcodec. apply from_obj_for_encoding_with_grp; assumption.
Qed.

(** X13. Decoding what [signTxn] wrote gives the transaction back, with the
    raw signature of its bytes to sign, no multisig, and the signer's public
    key as auth-address exactly when its address text differs from the
    sender's; provided the msgpack codec reads the signed object back and
    the transaction survives its own round trip. *)
Theorem signTxn_decodes t sk blob :
  signTxn t sk = Ok blob ->
  (forall sTxn, signTxn_sTxn t sk = Ok sTxn ->
     decode_signed (encode_signed sTxn) = Ok sTxn) ->
  (forall obj, get_obj_for_encoding t = Ok obj ->
     from_obj_for_encoding obj = Ok t) ->
  exists signature signerKey,
    rawSignTxn t sk = Ok signature
    /\ keyPairFromSecretKey sk = Ok signerKey
    /\ decodeSignedTransaction blob
       = Ok {| st_sig := Some signature; st_txn := t; st_msig := None;
               st_lsig := None;
               st_sgnr :=
                 if String.eqb (encodeAddress signerKey)
                      (encodeAddress (publicKey (sender t)))
                 then None else Some signerKey |}.
Proof.
  unfold signTxn. intros H Hcodec Hround.
  destruct (signTxn_sTxn t sk) as [sTxn|] eqn:Hs; [ | discriminate ].
  injection H as <-. specialize (Hcodec _ eq_refl).
  unfold signTxn_sTxn in Hs.
  destruct (rawSignTxn t sk) as [signature|]; [ | discriminate ].
  destruct (get_obj_for_encoding t) as [obj|] eqn:Hobj; [ | discriminate ].
  destruct (keyPairFromSecretKey sk) as [signerKey|]; [ | discriminate ].
  injection Hs as <-. specialize (Hround _ eq_refl).
  exists signature, signerKey. split; [ reflexivity | ].
  split; [ reflexivity | ].
  unfold decodeSignedTransaction. rewrite Hcodec.
  cbn [Enc.txn Enc.sig Enc.msig Enc.lsig Enc.sgnr]. rewrite Hround.
  destruct (String.eqb (encodeAddress signerKey)
              (encodeAddress (publicKey (sender t)))); reflexivity.
Qed.

(** X14. [attachSignature] refuses a signature of invalid length before
    anything else.  Otherwise the signed object carries the signature as
    given and the transaction's canonical encoding, and names an
    auth-address exactly when the signer's address text is not the
    sender's: then it is the public key that text decodes to. *)
Theorem attachSignature_spec t signerAddr signature :
  (isValidSignatureLength (List.length signature) = false ->
     attachSignature t signerAddr signature = Err "Invalid signature length")
  /\ (forall sTxn,
        attachSignature_sTxn t signerAddr signature = Ok sTxn ->
        isValidSignatureLength (List.length signature) = true
        /\ Enc.sig sTxn = Some signature
        /\ get_obj_for_encoding t = Ok (Enc.txn sTxn)
        /\ Enc.msig sTxn = None
        /\ (signerAddr = encodeAddress (publicKey (sender t)) ->
              Enc.sgnr sTxn = None)
        /\ (signerAddr <> encodeAddress (publicKey (sender t)) ->
              exists signer,
                decodeAddress signerAddr = Ok signer
                /\ Enc.sgnr sTxn = Some (publicKey signer))).
Proof.
  unfold attachSignature, attachSignature_sTxn. split.
  - intros ->. reflexivity.
  - intros sTxn H.
    destruct (isValidSignatureLength (List.length signature));
      cbn [negb] in H; [ | discriminate ].
    destruct (get_obj_for_encoding t) as [obj|]; [ | discriminate ].
    destruct (String.eqb signerAddr (encodeAddress (publicKey (sender t))))
      eqn:Hsame; cbn [negb] in H.
    + apply String.eqb_eq in Hsame. injection H as <-. cbn.
      repeat split; try reflexivity. intros Hne. contradiction.
    + apply String.eqb_neq in Hsame.
      destruct (decodeAddress signerAddr) as [signer|]; [ | discriminate ].
      injection H as <-. cbn.
      repeat split; try reflexivity; [ intros Heq; contradiction | ].
      intros _. exists signer. split; reflexivity.
Qed.

Lemma signed_slots_unsigned pks v_ thr_ :
  signed_slots {| Enc.v := v_; Enc.thr := thr_;
                  Enc.subsig := map (fun pk_ => {| Enc.pk := pk_;
                                                   Enc.s := None |}) pks |}
  = 0.
Proof.
  unfold signed_slots. cbn [Enc.subsig].
  induction pks as [|pk_ rest IH]; [ reflexivity | exact IH ].
Qed.

Lemma verifyMultisig_needs_signed toBeVerified msig expected :
  signed_slots msig < Enc.thr msig ->
  verifyMultisig toBeVerified msig expected = false.
Proof.
  intros Hlt. unfold verifyMultisig.
  rewrite countSigned_signed_slots.
  destruct (Z.of_nat (List.length (Enc.subsig msig)) <? Enc.thr msig);
    [ reflexivity | ].
  destruct (fromMultisigPreImg (Enc.v msig) (Enc.thr msig)
              (map Enc.pk (Enc.subsig msig))); [ | reflexivity ].
  destruct (negb (arrayEqual a expected)); [ reflexivity | ].
  apply Z.ltb_lt in Hlt. rewrite Hlt. reflexivity.
Qed.

(** X15. The blob of [createMultisigTransaction] lists the keys of the
    given addresses in order, with the version and threshold given, and
    carries no signature; it names the multisig address as auth-address
    exactly when that address differs from the sender's.  With a threshold
    of at least 1 it passes [verifyMultisig] for no message and no key. *)
Theorem createMultisigTransaction_is_unsigned txn metadata signedTxn :
  createMultisigTransaction_signedTxn txn metadata = Ok signedTxn ->
  exists msig pks msigAddr,
    Enc.msig signedTxn = Some msig
    /\ publicKeysOf (mm_addrs metadata) = Ok pks
    /\ map Enc.pk (Enc.subsig msig) = pks
    /\ Enc.v msig = mm_version metadata
    /\ Enc.thr msig = mm_threshold metadata
    /\ signed_slots msig = 0
    /\ Enc.sig signedTxn = None
    /\ get_obj_for_encoding txn = Ok (Enc.txn signedTxn)
    /\ fromMultisigPreImg (mm_version metadata) (mm_threshold metadata) pks
       = Ok msigAddr
    /\ Enc.sgnr signedTxn
       = (if String.eqb (senderAddrOf (Enc.txn signedTxn))
               (encodeAddress msigAddr)
          then None else Some msigAddr)
    /\ (1 <= mm_threshold metadata ->
        forall toBeVerified expected,
          verifyMultisig toBeVerified msig expected = false).
Proof.
  unfold createMultisigTransaction_signedTxn. intros H.
  destruct (publicKeysOf (mm_addrs metadata)) as [pks|]; [ | discriminate ].
  destruct (get_obj_for_encoding txn) as [obj|]; [ | discriminate ].
  destruct (fromMultisigPreImg (mm_version metadata) (mm_threshold metadata)
              pks) as [msigAddr|] eqn:Haddr; [ | discriminate ].
  injection H as <-. cbn [Enc.msig Enc.sig Enc.txn Enc.sgnr].
  eexists _, pks, msigAddr.
  split; [ reflexivity | ]. split; [ reflexivity | ].
  cbn [Enc.subsig Enc.v Enc.thr].
  split; [ rewrite map_map; cbn [Enc.pk]; apply map_id | ].
  split; [ reflexivity | ]. split; [ reflexivity | ].
  split; [ apply signed_slots_unsigned | ].
  split; [ reflexivity | ]. split; [ reflexivity | ].
  split; [ exact Haddr | ].
  split.
  - destruct (String.eqb (senderAddrOf obj) (encodeAddress msigAddr));
      reflexivity.
  - intros Hthr toBeVerified expected.
    apply verifyMultisig_needs_signed.
    rewrite signed_slots_unsigned. cbn [Enc.thr]. lia.
Qed.

Lemma publicKeysOf_read_back pks :
  keys_read_back pks -> publicKeysOf (map encodeAddress pks) = Ok pks.
Proof.
  unfold publicKeysOf. induction 1 as [|pk_ rest (a & Ha & Hpk) _ IH];
    [ reflexivity | ].
  cbn [map mapM]. rewrite Ha, IH, Hpk. reflexivity.
Qed.

Lemma key_among_slots myPk pks :
  existsb (fun subsig => bytesEqual (Enc.pk subsig) myPk)
    (map (fun pk_ => {| Enc.pk := pk_; Enc.s := None |}) pks)
  = key_among myPk pks.
Proof.
  unfold key_among. induction pks as [|pk_ rest IH]; [ reflexivity | ].
  cbn [map existsb Enc.pk]. rewrite IH. reflexivity.
Qed.

Lemma signSlot_slots myPk rawSig pks :
  map (signSlot myPk rawSig)
    (map (fun pk_ => {| Enc.pk := pk_; Enc.s := None |}) pks)
  = map (slotAfterSigning myPk rawSig) pks.
Proof.
  rewrite map_map. apply map_ext. intros pk_.
  unfold signSlot, slotAfterSigning. cbn [Enc.pk].
  destruct (bytesEqual pk_ myPk); reflexivity.
Qed.

(** What [createMultisigTransactionWithSignature] computes when the codecs
    read back the unsigned blob and the key texts. *)
Lemma createMultisigTransactionWithSignature_run
    txn rawSig myPk metadata unsigned :
  createMultisigTransaction_signedTxn txn (metadataOfPks metadata)
  = Ok unsigned ->
  decode_signed (encode_signed unsigned) = Ok unsigned ->
  keys_read_back (mp_pks metadata) ->
  createMultisigTransactionWithSignature_signedTxn txn rawSig myPk metadata
  = if key_among myPk (mp_pks metadata) then
      Ok {| Enc.msig :=
              Some {| Enc.v := mp_version metadata;
                      Enc.thr := mp_threshold metadata;
                      Enc.subsig := map (slotAfterSigning myPk rawSig)
                                      (mp_pks metadata) |};
            Enc.txn := Enc.txn unsigned;
            Enc.sig := None; Enc.lsig := None;
            Enc.sgnr := Enc.sgnr unsigned |}
    else Err MULTISIG_KEY_NOT_EXIST_ERROR_MSG.
Proof.
  intros Hunsigned Hcodec Hkeys.
  unfold createMultisigTransactionWithSignature_signedTxn,
    createMultisigTransaction.
  change {| mm_version := mp_version metadata;
            mm_threshold := mp_threshold metadata;
            mm_addrs := map encodeAddress (mp_pks metadata) |}
    with (metadataOfPks metadata).
  rewrite Hunsigned, Hcodec.
  unfold createMultisigTransaction_signedTxn in Hunsigned.
  cbn [metadataOfPks mm_version mm_threshold mm_addrs] in Hunsigned.
  rewrite (publicKeysOf_read_back _ Hkeys) in Hunsigned.
  destruct (get_obj_for_encoding txn) as [obj|]; [ | discriminate ].
  destruct (fromMultisigPreImg (mp_version metadata) (mp_threshold metadata)
              (mp_pks metadata)) as [msigAddr|] eqn:Haddr; [ | discriminate ].
  injection Hunsigned as <-.
  cbn [Enc.msig Enc.subsig Enc.v Enc.thr Enc.txn Enc.sig Enc.lsig Enc.sgnr].
  rewrite key_among_slots, signSlot_slots.
  destruct (key_among myPk (mp_pks metadata)); cbn [negb];
    [ | reflexivity ].
  destruct (negb (String.eqb (senderAddrOf obj) (encodeAddress msigAddr)));
    reflexivity.
Qed.

(** X16. [createMultisigTransactionWithSignature] throws "Key does not
    exist" when none of the multisig keys is the signer's key.  Otherwise
    its blob lists the keys in order, each slot of the signer's key carrying
    the raw signature and every other slot none, over the same transaction
    and with the auth-address of the unsigned blob.  (The codecs are
    assumed to read back the unsigned blob and the key texts.) *)
Theorem createMultisigTransactionWithSignature_slots
    txn rawSig myPk metadata unsigned :
  createMultisigTransaction_signedTxn txn (metadataOfPks metadata)
  = Ok unsigned ->
  decode_signed (encode_signed unsigned) = Ok unsigned ->
  keys_read_back (mp_pks metadata) ->
  (key_among myPk (mp_pks metadata) = false ->
     createMultisigTransactionWithSignature txn rawSig myPk metadata
     = Err MULTISIG_KEY_NOT_EXIST_ERROR_MSG)
  /\ (key_among myPk (mp_pks metadata) = true ->
        exists signedTxn msig,
          createMultisigTransactionWithSignature_signedTxn
            txn rawSig myPk metadata = Ok signedTxn
          /\ Enc.msig signedTxn = Some msig
          /\ Enc.subsig msig
             = map (slotAfterSigning myPk rawSig) (mp_pks metadata)
          /\ Enc.v msig = mp_version metadata
          /\ Enc.thr msig = mp_threshold metadata
          /\ Enc.txn signedTxn = Enc.txn unsigned
          /\ Enc.sgnr signedTxn = Enc.sgnr unsigned
          /\ Enc.sig signedTxn = None).
Proof.
  intros Hunsigned Hcodec Hkeys.
  pose proof (createMultisigTransactionWithSignature_run
                txn rawSig myPk metadata unsigned Hunsigned Hcodec Hkeys)
    as Hrun.
  split; intros Hkey; rewrite Hkey in Hrun.
  - unfold createMultisigTransactionWithSignature. rewrite Hrun. reflexivity.
  - do 2 eexists. split; [ exact Hrun | ].
    cbn. repeat split; reflexivity.
Qed.

(** X17. A raw multisig signature of invalid length is refused:
    [partialSignWithMultisigSignature] throws the signature-length error
    before it looks at the signer or the transaction, and
    [appendSignRawMultisigSignature] never returns a blob for it. *)
Theorem raw_multisig_signature_length_checked signature :
  isValidSignatureLength (List.length signature) = false ->
  (forall txn metadata signerAddr,
     partialSignWithMultisigSignature txn metadata signerAddr signature
     = Err MULTISIG_SIGNATURE_LENGTH_ERROR_MSG)
  /\ (forall blob metadata signerAddr,
        throws (appendSignRawMultisigSignature blob metadata signerAddr
                  signature)).
Proof.
  intros Hbad.
  assert (Hpartial : forall txn metadata signerAddr,
            partialSignWithMultisigSignature txn metadata signerAddr signature
            = Err MULTISIG_SIGNATURE_LENGTH_ERROR_MSG).
  { intros txn metadata signerAddr.
    unfold partialSignWithMultisigSignature. rewrite Hbad. reflexivity. }
  split; [ exact Hpartial | ].
  intros blob metadata signerAddr. apply not_ok_throws. intros out H.
  unfold appendSignRawMultisigSignature in H.
  destruct (publicKeysOf (mm_addrs metadata)) as [pks|]; [ | discriminate ].
  destruct (decode_signed blob) as [multisigTxObj|]; [ | discriminate ].
  destruct (from_obj_for_encoding (Enc.txn multisigTxObj)) as [msigTxn|];
    [ | discriminate ].
  rewrite Hpartial in H. discriminate.
Qed.

Lemma verified_slots_after_signing toBeVerified myPk rawSig pks v_ thr_ :
  key_among myPk pks = true ->
  (forall a b, bytesEqual a b = true -> a = b) ->
  nacl_verify toBeVerified rawSig myPk = true ->
  1 <= verified_slots toBeVerified
         {| Enc.v := v_; Enc.thr := thr_;
            Enc.subsig := map (slotAfterSigning myPk rawSig) pks |}.
Proof.
  intros Hkey Heq Hverify. unfold verified_slots, key_among in *.
  cbn [Enc.subsig].
  induction pks as [|pk_ rest IH]; [ discriminate Hkey | ].
  cbn [existsb map filter] in *.
  unfold slot_verifies at 1, slotAfterSigning at 1. cbn [Enc.s Enc.pk].
  destruct (bytesEqual pk_ myPk) eqn:Hb; cbv iota.
  - apply Heq in Hb. subst pk_. cbn [slotAfterSigning Enc.pk].
    rewrite Hverify. cbn [List.length]. lia.
  - cbn [orb] in Hkey. specialize (IH Hkey). exact IH.
Qed.

Lemma map_pk_slotAfterSigning myPk rawSig pks :
  map Enc.pk (map (slotAfterSigning myPk rawSig) pks) = pks.
Proof. rewrite map_map. cbn [slotAfterSigning Enc.pk]. apply map_id. Qed.

Lemma verifyMultisig_enough toBeVerified msig expected :
  Enc.thr msig <= verified_slots toBeVerified msig ->
  preimage_address_is msig expected ->
  verifyMultisig toBeVerified msig expected = true.
Proof.
  intros Hthr Haddr. unfold verifyMultisig. unfold preimage_address_is in Haddr.
  rewrite Haddr, countSigned_signed_slots, countVerified_verified_slots.
  pose proof (verified_le_signed toBeVerified msig) as Hvs.
  pose proof (signed_le_length msig) as Hsl.
  rewrite (proj2 (arrayEqual_true expected expected) eq_refl). cbn [negb].
  destruct (Z.ltb_spec (Z.of_nat (List.length (Enc.subsig msig)))
              (Enc.thr msig)); [ lia | ].
  destruct (Z.ltb_spec (signed_slots msig) (Enc.thr msig)); [ lia | ].
  destruct (Z.ltb_spec (verified_slots toBeVerified msig) (Enc.thr msig));
    [ lia | reflexivity ].
Qed.

(** X18. With a threshold of at most 1, the blob of
    [signMultisigTransaction] carries a multisig that passes
    [verifyMultisig] for the transaction's bytes to sign and the multisig
    address, and the id returned is the transaction's id.  This assumes a
    signature made with a secret key verifies under that key's public key,
    that [bytesEqual] holds of equal arrays only, and that the codecs read
    back the unsigned blob and the key texts. *)
Theorem signMultisigTransaction_verifies txn metadata sk txid blob :
  signMultisigTransaction txn metadata sk = Ok (txid, blob) ->
  mm_threshold metadata <= 1 ->
  (forall pks, publicKeysOf (mm_addrs metadata) = Ok pks ->
     keys_read_back pks) ->
  (forall pks unsigned,
     publicKeysOf (mm_addrs metadata) = Ok pks ->
     createMultisigTransaction_signedTxn txn
       (metadataOfPks (withPks metadata pks)) = Ok unsigned ->
     decode_signed (encode_signed unsigned) = Ok unsigned) ->
  (forall toBeVerified signature signerKey,
     nacl_sign toBeVerified sk = Ok signature ->
     keyPairFromSecretKey sk = Ok signerKey ->
     nacl_verify toBeVerified signature signerKey = true) ->
  (forall a b, bytesEqual a b = true -> a = b) ->
  exists signedTxn msig toBeVerified msigAddr,
    blob = encode_signed signedTxn
    /\ Enc.msig signedTxn = Some msig
    /\ bytesToSign txn = Ok toBeVerified
    /\ preimage_address_is msig msigAddr
    /\ verifyMultisig toBeVerified msig msigAddr = true
    /\ txID txn = Ok txid.
Proof.
  intros H Hthr Hkeys Hcodec Hnacl Hequal.
  unfold signMultisigTransaction, partialSignTxn in H.
  destruct (publicKeysOf (mm_addrs metadata)) as [pks|] eqn:Hpks;
    [ | discriminate ].
  specialize (Hkeys _ eq_refl). specialize (Hcodec pks).
  assert (Hcodec' := fun unsigned => Hcodec unsigned eq_refl).
  clear Hcodec. rename Hcodec' into Hcodec.
  destruct (keyPairFromSecretKey sk) as [myPk|] eqn:Hpk; [ | discriminate ].
  unfold rawSignTxn in H.
  destruct (bytesToSign txn) as [toBeVerified|] eqn:Hbytes; [ | discriminate ].
  destruct (nacl_sign toBeVerified sk) as [rawSig|] eqn:Hsig;
    [ | discriminate ].
  specialize (Hnacl _ _ _ Hsig eq_refl).
  unfold createMultisigTransactionWithSignature in H.
  destruct (createMultisigTransaction_signedTxn txn
              (metadataOfPks (withPks metadata pks))) as [unsigned|] eqn:Hu.
  2:{ unfold createMultisigTransactionWithSignature_signedTxn,
        createMultisigTransaction in H.
      change {| mm_version := mp_version (withPks metadata pks);
                mm_threshold := mp_threshold (withPks metadata pks);
                mm_addrs := map encodeAddress (mp_pks (withPks metadata pks)) |}
        with (metadataOfPks (withPks metadata pks)) in H.
      rewrite Hu in H. discriminate. }
  specialize (Hcodec _ eq_refl).
  rewrite (createMultisigTransactionWithSignature_run
             txn rawSig myPk (withPks metadata pks) unsigned Hu Hcodec Hkeys)
    in H.
  cbn [withPks mp_pks mp_version mp_threshold] in H.
  destruct (key_among myPk pks) eqn:Hkey; [ | discriminate ].
  destruct (txID txn) as [id|]; [ | discriminate ].
  injection H as <- <-.
  unfold createMultisigTransaction_signedTxn in Hu.
  cbn [metadataOfPks withPks mm_version mm_threshold mm_addrs mp_version
       mp_threshold mp_pks] in Hu.
  rewrite (publicKeysOf_read_back _ Hkeys) in Hu.
  destruct (get_obj_for_encoding txn) as [obj|]; [ | discriminate ].
  destruct (fromMultisigPreImg (mm_version metadata) (mm_threshold metadata)
              pks) as [msigAddr|] eqn:Haddr; [ | discriminate ].
  do 2 eexists. exists toBeVerified, msigAddr.
  split; [ reflexivity | ]. split; [ reflexivity | ].
  split; [ reflexivity | ].
  assert (Hpre : preimage_address_is
                   {| Enc.v := mm_version metadata;
                      Enc.thr := mm_threshold metadata;
                      Enc.subsig := map (slotAfterSigning myPk rawSig) pks |}
                   msigAddr).
  { unfold preimage_address_is. cbn [Enc.v Enc.thr Enc.subsig].
    rewrite map_pk_slotAfterSigning. exact Haddr. }
  split; [ exact Hpre | ].
  split; [ | reflexivity ].
  apply verifyMultisig_enough; [ | exact Hpre ].
  pose proof (verified_slots_after_signing toBeVerified myPk rawSig pks
                (mm_version metadata) (mm_threshold metadata)
                Hkey Hequal Hnacl) as Hone.
  cbn [Enc.thr]. lia.
Qed.

End SigningFacts.

Lemma grouped_transaction_roundtrip_witness :
  exists t,
    SigningSample.payment = Ok t
    /\ exists encoded,
         encodeUnsignedTransaction (E := SigningSample.externals)
           (set_group t (Sample.key x07)) = Ok encoded
         /\ decodeUnsignedTransaction (E := SigningSample.externals)
              (S := SigningSample.signing) encoded
            = Ok (set_group t (Sample.key x07)).
Proof.
  eexists. split; [ vm_compute; reflexivity | ].
  apply (@grouped_transaction_roundtrip SigningSample.externals
           SigningSample.signing _ (Sample.encoded_payment None None)
           (Sample.key x07));
    try (vm_compute; reflexivity).
  eexists. split; vm_compute; reflexivity.
Defined.

Lemma signTxn_decodes_witness :
  exists t blob,
    SigningSample.payment = Ok t
    /\ signTxn (E := SigningSample.externals) (S := SigningSample.signing)
         t (Sample.key x0c) = Ok blob
    /\ exists signature signerKey,
         rawSignTxn (E := SigningSample.externals)
           (S := SigningSample.signing) t (Sample.key x0c) = Ok signature
         /\ keyPairFromSecretKey (SigningExternals := SigningSample.signing)
              (Sample.key x0c) = Ok signerKey
         /\ decodeSignedTransaction (E := SigningSample.externals) blob
            = Ok {| st_sig := Some signature; st_txn := t; st_msig := None;
                    st_lsig := None;
                    st_sgnr :=
                      if String.eqb
                           (encodeAddress (Externals := SigningSample.externals)
                              signerKey)
                           (encodeAddress (Externals := SigningSample.externals)
                              (publicKey (sender t)))
                      then None else Some signerKey |}.
Proof.
  do 2 eexists. split; [ vm_compute; reflexivity | ].
  match goal with
  | |- signTxn ?t0 _ = _ /\ _ => pose (t := t0)
  end.
  split; [ vm_compute; reflexivity | ].
  apply (@signTxn_decodes SigningSample.externals SigningSample.signing t).
  - vm_compute. reflexivity.
  - intros sTxn Hs. vm_compute in Hs. injection Hs as <-.
    vm_compute. reflexivity.
  - intros obj Hobj. vm_compute in Hobj. injection Hobj as <-.
    vm_compute. reflexivity.
Defined.

Lemma createMultisigTransaction_is_unsigned_witness :
  exists t signedTxn,
    SigningSample.payment = Ok t
    /\ createMultisigTransaction_signedTxn (E := SigningSample.externals)
         t (SigningSample.metadata 2) = Ok signedTxn
    /\ exists msig,
         Enc.msig signedTxn = Some msig
         /\ signed_slots msig = 0
         /\ forall toBeVerified expected,
              verifyMultisig (E := SigningSample.externals)
                toBeVerified msig expected = false.
Proof.
  do 2 eexists. split; [ vm_compute; reflexivity | ].
  match goal with
  | |- createMultisigTransaction_signedTxn ?t0 _ = _ /\ _ => pose (t := t0)
  end.
  split; [ vm_compute; reflexivity | ].
  match goal with
  | |- exists msig, Enc.msig ?s = _ /\ _ => pose (signedTxn := s)
  end.
  destruct (@createMultisigTransaction_is_unsigned SigningSample.externals
              t (SigningSample.metadata 2) signedTxn
              ltac:(vm_compute; reflexivity))
    as (msig & pks & msigAddr & Hmsig & _ & _ & _ & _ & Hzero & _ & _ & _
        & _ & Hnever).
  exists msig. split; [ exact Hmsig | ]. split; [ exact Hzero | ].
  apply Hnever. vm_compute. intros H. discriminate H.
Defined.

Lemma createMultisigTransactionWithSignature_slots_witness :
  exists t unsigned,
    SigningSample.payment = Ok t
    /\ createMultisigTransaction_signedTxn (E := SigningSample.externals)
         t (metadataOfPks (E := SigningSample.externals)
              (withPks (SigningSample.metadata 1)
                 [Sample.key x0b; Sample.key x0c])) = Ok unsigned
    /\ createMultisigTransactionWithSignature
         (E := SigningSample.externals) (S := SigningSample.signing)
         t [x05] (Sample.key x0d)
         (withPks (SigningSample.metadata 1) [Sample.key x0b; Sample.key x0c])
       = Err MULTISIG_KEY_NOT_EXIST_ERROR_MSG
    /\ exists signedTxn msig,
         createMultisigTransactionWithSignature_signedTxn
           (E := SigningSample.externals) (S := SigningSample.signing)
           t [x05] (Sample.key x0c)
           (withPks (SigningSample.metadata 1)
              [Sample.key x0b; Sample.key x0c]) = Ok signedTxn
         /\ Enc.msig signedTxn = Some msig
         /\ Enc.subsig msig
            = [ {| Enc.pk := Sample.key x0b; Enc.s := None |};
                {| Enc.pk := Sample.key x0c; Enc.s := Some [x05] |} ].
Proof.
  do 2 eexists. split; [ vm_compute; reflexivity | ].
  match goal with
  | |- createMultisigTransaction_signedTxn ?t0 _ = _ /\ _ => pose (t := t0)
  end.
  split; [ vm_compute; reflexivity | ].
  assert (Hkeys : keys_read_back (E := SigningSample.externals)
                    [Sample.key x0b; Sample.key x0c]).
  { repeat constructor; eexists; split; vm_compute; reflexivity. }
  split.
  - eapply (@createMultisigTransactionWithSignature_slots
              SigningSample.externals SigningSample.signing t [x05]
              (Sample.key x0d)
              (withPks (SigningSample.metadata 1)
                 [Sample.key x0b; Sample.key x0c]));
      [ vm_compute; reflexivity | vm_compute; reflexivity | exact Hkeys
      | vm_compute; reflexivity ].
  - edestruct (@createMultisigTransactionWithSignature_slots
                 SigningSample.externals SigningSample.signing t [x05]
                 (Sample.key x0c)
                 (withPks (SigningSample.metadata 1)
                    [Sample.key x0b; Sample.key x0c]))
      as (_ & Hslots);
      [ vm_compute; reflexivity | vm_compute; reflexivity | exact Hkeys | ].
    destruct (Hslots ltac:(vm_compute; reflexivity))
      as (signedTxn & msig & Hrun & Hmsig & Hsub & _).
    exists signedTxn, msig. split; [ exact Hrun | ].
    split; [ exact Hmsig | ]. rewrite Hsub. vm_compute. reflexivity.
Defined.

Lemma raw_multisig_signature_length_checked_witness :
  isValidSignatureLength (SigningExternals := SigningSample.signing)
    (List.length [x01]) = false
  /\ (forall txn metadata signerAddr,
        partialSignWithMultisigSignature
          (E := SigningSample.externals) (S := SigningSample.signing)
          txn metadata signerAddr [x01]
        = Err MULTISIG_SIGNATURE_LENGTH_ERROR_MSG)
  /\ (forall blob metadata signerAddr,
        throws (appendSignRawMultisigSignature
                  (E := SigningSample.externals) (S := SigningSample.signing)
                  blob metadata signerAddr [x01])).
Proof.
  split; [ reflexivity | ].
  apply (@raw_multisig_signature_length_checked SigningSample.externals
           SigningSample.signing [x01]).
  reflexivity.
Defined.

Lemma signMultisigTransaction_verifies_witness :
  exists t txid blob,
    SigningSample.payment = Ok t
    /\ signMultisigTransaction
         (E := SigningSample.externals) (S := SigningSample.signing)
         t (SigningSample.metadata 1) (Sample.key x0c) = Ok (txid, blob)
    /\ exists signedTxn msig toBeVerified msigAddr,
         blob = encode_signed (Externals := SigningSample.externals) signedTxn
         /\ Enc.msig signedTxn = Some msig
         /\ bytesToSign (E := SigningSample.externals) t = Ok toBeVerified
         /\ preimage_address_is (E := SigningSample.externals) msig msigAddr
         /\ verifyMultisig (E := SigningSample.externals)
              toBeVerified msig msigAddr = true
         /\ txID (E := SigningSample.externals) t = Ok txid.
Proof.
  do 3 eexists. split; [ vm_compute; reflexivity | ].
  match goal with
  | |- signMultisigTransaction ?t0 _ _ = _ /\ _ => pose (t := t0)
  end.
  split; [ vm_compute; reflexivity | ].
  eapply (@signMultisigTransaction_verifies SigningSample.externals
            SigningSample.signing t (SigningSample.metadata 1)
            (Sample.key x0c)).
  - vm_compute. reflexivity.
  - vm_compute. intros H. discriminate H.
  - intros pks H. vm_compute in H. injection H as <-.
    repeat constructor; eexists; split; vm_compute; reflexivity.
  - intros pks unsigned Hpks Hu. vm_compute in Hpks. injection Hpks as <-.
    vm_compute in Hu. injection Hu as <-. vm_compute. reflexivity.
  - intros toBeVerified signature signerKey Hsig Hkey.
    cbn in Hsig, Hkey. injection Hsig as <-. injection Hkey as <-.
    apply arrayEqual_true. reflexivity.
  - intros a b H. apply arrayEqual_true. exact H.
Defined.

(** ** More on the multisig coordinator *)

Section MultisigFacts.

Context {E : Externals}.

(** X19. A successful merge returns the first blob's transaction, version,
    threshold and keys, in the same order; a slot of the result carries a
    signature exactly when some input blob carries that signature in that
    slot. *)
Theorem merged_signatures_are_the_union blobs merged :
  mergeMultisigTransactions_signedTxn blobs = Ok merged ->
  exists first firstMsig msig,
    decodes_at blobs 0 first
    /\ Enc.msig first = Some firstMsig
    /\ Enc.msig merged = Some msig
    /\ Enc.txn merged = Enc.txn first
    /\ Enc.v msig = Enc.v firstMsig
    /\ Enc.thr msig = Enc.thr firstMsig
    /\ map Enc.pk (Enc.subsig msig) = map Enc.pk (Enc.subsig firstMsig)
    /\ Enc.sig merged = None
    /\ forall slot sg,
         sig_at (Enc.subsig msig) slot = Some sg
         <-> exists blob, In blob blobs /\ contributes blob slot sg.
Proof.
  intros H. pose proof H as Hinv.
  apply merge_signedTxn_inv in Hinv
      as (refTxID & refAuthAddr & refMsigAddr & first & firstMsig & msig
          & _ & Hfirst & Hfm & Hmsig & Htxn & Hv & Hthr & Hpk & _ & _ & _
          & Hcontrib & Hprov).
  exists first, firstMsig, msig.
  repeat (split; [ assumption | ]).
  split.
  - unfold mergeMultisigTransactions_signedTxn in H.
    destruct (List.length blobs <? 2)%nat; [ discriminate | ].
    destruct blobs as [|blob0 others]; [ discriminate | ].
    destruct (decode_signed blob0) as [refSigTx|]; [ | discriminate ].
    destruct (Enc.msig refSigTx) as [refMsig|]; [ | discriminate ].
    destruct (from_obj_for_encoding (Enc.txn refSigTx)) as [refTxn|];
      [ | discriminate ].
    destruct (txID refTxn) as [refId|]; [ | discriminate ].
    destruct (msigAddrOf refMsig) as [refAddr|]; [ | discriminate ].
    destruct (merge_loop refMsig refId (authAddrOf refSigTx) refAddr
                (Enc.subsig refMsig) others) as [newSubsigs|];
      [ | discriminate ].
    destruct (match authAddrOf refSigTx with
              | Some authAddr =>
                  d <- decodeAddress authAddr ;; Ok (Some (publicKey d))
              | None => Ok None
              end) as [sgnr_|]; [ | discriminate ].
    injection H as <-. reflexivity.
  - intros slot sg. split.
    + apply Hprov.
    + intros (blob & Hin & Hc). eapply Hcontrib; eassumption.
Qed.

End MultisigFacts.

Section SimulateFacts.

Context {E : Externals}.

(** X21. What [encodeUnsignedSimulateTransaction] writes decodes, through
    [decodeSignedTransaction], to the transaction with no signature, no
    multisig, no logic signature and no auth-address; provided the msgpack
    codec reads the object back and the transaction survives its own round
    trip. *)
Theorem simulate_blob_is_unsigned t blob :
  encodeUnsignedSimulateTransaction t = Ok blob ->
  (forall obj, get_obj_for_encoding t = Ok obj ->
     decode_signed
       (encode_signed {| Enc.sig := None; Enc.txn := obj; Enc.msig := None;
                         Enc.lsig := None; Enc.sgnr := None |})
     = Ok {| Enc.sig := None; Enc.txn := obj; Enc.msig := None;
             Enc.lsig := None; Enc.sgnr := None |}) ->
  (forall obj, get_obj_for_encoding t = Ok obj ->
     from_obj_for_encoding obj = Ok t) ->
  decodeSignedTransaction blob
  = Ok {| st_sig := None; st_txn := t; st_msig := None; st_lsig := None;
          st_sgnr := None |}.
Proof.
  unfold encodeUnsignedSimulateTransaction. intros H Hcodec Hround.
  destruct (get_obj_for_encoding t) as [obj|]; [ | discriminate ].
  injection H as <-. unfold decodeSignedTransaction.
  rewrite (Hcodec _ eq_refl). cbn [Enc.txn Enc.sig Enc.msig Enc.lsig Enc.sgnr].
  rewrite (Hround _ eq_refl). reflexivity.
Qed.

End SimulateFacts.

Lemma simulate_blob_is_unsigned_witness :
  exists t blob,
    SigningSample.payment = Ok t
    /\ encodeUnsignedSimulateTransaction (E := SigningSample.externals) t
       = Ok blob
    /\ decodeSignedTransaction (E := SigningSample.externals) blob
       = Ok {| st_sig := None; st_txn := t; st_msig := None; st_lsig := None;
               st_sgnr := None |}.
Proof.
  do 2 eexists. split; [ vm_compute; reflexivity | ].
  match goal with
  | |- encodeUnsignedSimulateTransaction ?t0 = _ /\ _ => pose (t := t0)
  end.
  split; [ vm_compute; reflexivity | ].
  apply (@simulate_blob_is_unsigned SigningSample.externals t).
  - vm_compute. reflexivity.
  - intros obj Hobj. vm_compute in Hobj. injection Hobj as <-.
    vm_compute. reflexivity.
  - intros obj Hobj. vm_compute in Hobj. injection Hobj as <-.
    vm_compute. reflexivity.
Defined.

Lemma merged_signatures_are_the_union_witness :
  exists merged,
    mergeMultisigTransactions_signedTxn (E := Sample.externals)
      [[x00; x05; x00]; [x00; x00; x07]] = Ok merged
    /\ slot_signatures merged = [Some [x05]; Some [x07]]
    /\ exists first firstMsig msig,
         decodes_at (E := Sample.externals)
           [[x00; x05; x00]; [x00; x00; x07]] 0 first
         /\ Enc.msig first = Some firstMsig
         /\ Enc.msig merged = Some msig
         /\ Enc.txn merged = Enc.txn first
         /\ Enc.v msig = Enc.v firstMsig
         /\ Enc.thr msig = Enc.thr firstMsig
         /\ map Enc.pk (Enc.subsig msig) = map Enc.pk (Enc.subsig firstMsig)
         /\ Enc.sig merged = None
         /\ forall slot sg,
              sig_at (Enc.subsig msig) slot = Some sg
              <-> exists blob,
                    In blob [[x00; x05; x00]; [x00; x00; x07]]
                    /\ contributes (E := Sample.externals) blob slot sg.
Proof.
  eexists. split; [ vm_compute; reflexivity | ].
  split; [ vm_compute; reflexivity | ].
  apply (@merged_signatures_are_the_union Sample.externals
           [[x00; x05; x00]; [x00; x00; x07]]).
  vm_compute. reflexivity.
Defined.

(** ** Appending a signature to a multisig blob *)

Section AppendFacts.

Context {E : Externals} {S : SigningExternals}.

Lemma sig_at_slotAfterSigning myPk rawSig pks slot sg :
  sig_at (map (slotAfterSigning myPk rawSig) pks) slot = Some sg
  <-> sg = rawSig
      /\ exists pk_, nth_error pks slot = Some pk_
                     /\ bytesEqual pk_ myPk = true.
Proof.
  unfold sig_at. rewrite nth_error_map.
  destruct (nth_error pks slot) as [pk_|]; cbn [option_map].
  - unfold slotAfterSigning. cbn [Enc.s].
    destruct (bytesEqual pk_ myPk) eqn:Hb.
    + split.
      * intros [= <-]. split; [ reflexivity | ]. exists pk_. auto.
      * intros (-> & _). reflexivity.
    + split; [ discriminate | ].
      intros (_ & pk' & [= <-] & Hb'). congruence.
  - split; [ discriminate | ]. intros (_ & pk' & Hnone & _). discriminate.
Qed.

(** X22. [appendSignMultisigTransaction] returns the id of the transaction
    inside the blob, and a blob whose multisig carries, slot by slot, every
    signature the given blob carried, and the new raw signature in the
    slots of the signer's key; no other signature appears.  (The codecs are
    assumed to read back the key texts, the unsigned blob and the partially
    signed blob that the function builds on the way.) *)
Theorem appendSignMultisigTransaction_adds_signature
    multisigTxnBlob metadata sk txid out
    multisigTxObj msigTxn pks myPk toBeSigned rawSig :
  appendSignMultisigTransaction multisigTxnBlob metadata sk = Ok (txid, out) ->
  decode_signed multisigTxnBlob = Ok multisigTxObj ->
  from_obj_for_encoding (Enc.txn multisigTxObj) = Ok msigTxn ->
  publicKeysOf (mm_addrs metadata) = Ok pks ->
  keyPairFromSecretKey sk = Ok myPk ->
  bytesToSign msigTxn = Ok toBeSigned ->
  nacl_sign toBeSigned sk = Ok rawSig ->
  keys_read_back pks ->
  (forall unsigned,
     createMultisigTransaction_signedTxn msigTxn
       (metadataOfPks (withPks metadata pks)) = Ok unsigned ->
     reads_back unsigned) ->
  (forall partial,
     createMultisigTransactionWithSignature_signedTxn msigTxn rawSig myPk
       (withPks metadata pks) = Ok partial ->
     reads_back partial) ->
  exists merged msig,
    out = encode_signed merged
    /\ Enc.msig merged = Some msig
    /\ Enc.txn merged = Enc.txn multisigTxObj
    /\ txID msigTxn = Ok txid
    /\ forall slot sg,
         sig_at (Enc.subsig msig) slot = Some sg
         <-> blob_sig_at multisigTxObj slot = Some sg
             \/ (sg = rawSig
                 /\ exists pk_, nth_error pks slot = Some pk_
                                /\ bytesEqual pk_ myPk = true).
Proof.
  intros H Hdec Htxn Hpks Hpk Hbytes Hsig Hkeys Hunsigned Hpartial.
  unfold appendSignMultisigTransaction, partialSignTxn, rawSignTxn in H.
  rewrite Hpks, Hdec, Htxn, Hpk, Hbytes, Hsig in H.
  unfold createMultisigTransactionWithSignature in H.
  destruct (createMultisigTransactionWithSignature_signedTxn msigTxn rawSig
              myPk (withPks metadata pks)) as [partial|] eqn:Hp;
    [ | discriminate ].
  specialize (Hpartial _ eq_refl). unfold reads_back in Hpartial.
  destruct (createMultisigTransaction_signedTxn msigTxn
              (metadataOfPks (withPks metadata pks))) as [unsigned|] eqn:Hu.
  2:{ unfold createMultisigTransactionWithSignature_signedTxn,
        createMultisigTransaction in Hp.
      change {| mm_version := mp_version (withPks metadata pks);
                mm_threshold := mp_threshold (withPks metadata pks);
                mm_addrs := map encodeAddress (mp_pks (withPks metadata pks)) |}
        with (metadataOfPks (withPks metadata pks)) in Hp.
      rewrite Hu in Hp. discriminate. }
  specialize (Hunsigned _ eq_refl). unfold reads_back in Hunsigned.
  rewrite (createMultisigTransactionWithSignature_run
             msigTxn rawSig myPk (withPks metadata pks) unsigned
             Hu Hunsigned Hkeys) in Hp.
  cbn [withPks mp_pks mp_version mp_threshold] in Hp.
  destruct (key_among myPk pks); [ | discriminate ].
  injection Hp as Hp.
  destruct (txID msigTxn) as [id|]; [ | discriminate ].
  unfold mergeMultisigTransactions in H.
  destruct (mergeMultisigTransactions_signedTxn
              [multisigTxnBlob; encode_signed partial]) as [merged|] eqn:Hm;
    [ | discriminate ].
  injection H as <- <-.
  apply merge_signedTxn_inv in Hm
      as (refTxID & refAuthAddr & refMsigAddr & first & firstMsig & msig
          & _ & (blob0 & Hnth & Hfirst) & _ & Hmsig & Hsame & _ & _ & _ & _
          & _ & _ & Hcontrib & Hprov).
  cbn in Hnth. injection Hnth as <-.
  rewrite Hdec in Hfirst. injection Hfirst as <-.
  exists merged, msig.
  split; [ reflexivity | ]. split; [ exact Hmsig | ].
  split; [ exact Hsame | ]. split; [ reflexivity | ].
  assert (Hgiven : forall slot sg,
            contributes multisigTxnBlob slot sg
            <-> blob_sig_at multisigTxObj slot = Some sg).
  { intros slot sg. unfold contributes. split.
    - intros (st & Hst & Hs). rewrite Hdec in Hst. injection Hst as <-.
      exact Hs.
    - intros Hs. exists multisigTxObj. auto. }
  assert (Hnew : forall slot sg,
            contributes (encode_signed partial) slot sg
            <-> sg = rawSig
                /\ exists pk_, nth_error pks slot = Some pk_
                               /\ bytesEqual pk_ myPk = true).
  { intros slot sg. rewrite <- sig_at_slotAfterSigning.
    unfold contributes. rewrite Hpartial. rewrite <- Hp.
    unfold blob_sig_at. cbn [Enc.msig Enc.subsig]. split.
    - intros (st & [= <-] & Hs). exact Hs.
    - intros Hs. eexists. split; [ reflexivity | exact Hs ]. }
  intros slot sg. split.
  - intros Hs. apply Hprov in Hs as (blob & [<- | [<- | []]] & Hc).
    + left. apply Hgiven. exact Hc.
    + right. apply Hnew. exact Hc.
  - intros [Hs | Hs].
    + apply (Hcontrib multisigTxnBlob); [ left; reflexivity | ].
      apply Hgiven. exact Hs.
    + apply (Hcontrib (encode_signed partial));
        [ right; left; reflexivity | ].
      apply Hnew. exact Hs.
Qed.

End AppendFacts.

Lemma appendSignMultisigTransaction_adds_signature_witness :
  exists t blob txid out,
    SigningSample.payment = Ok t
    /\ createMultisigTransaction (E := SigningSample.externals)
         t (SigningSample.metadata_of_sender) = Ok blob
    /\ appendSignMultisigTransaction
         (E := SigningSample.externals) (S := SigningSample.signing)
         blob (SigningSample.metadata_of_sender) (Sample.key x0c) = Ok (txid, out)
    /\ exists merged msig rawSig,
         out = encode_signed (Externals := SigningSample.externals) merged
         /\ Enc.msig merged = Some msig
         /\ sig_at (Enc.subsig msig) 0 = None
         /\ sig_at (Enc.subsig msig) 1 = Some rawSig.
Proof.
  do 4 eexists. split; [ vm_compute; reflexivity | ].
  split; [ vm_compute; reflexivity | ].
  match goal with
  | |- appendSignMultisigTransaction ?b _ _ = _ /\ _ => pose (blob := b)
  end.
  split; [ vm_compute; reflexivity | ].
  edestruct (@appendSignMultisigTransaction_adds_signature
               SigningSample.externals SigningSample.signing blob
               (SigningSample.metadata_of_sender) (Sample.key x0c))
    as (merged & msig & Hout & Hmsig & _ & _ & Hslots);
    [ vm_compute; reflexivity
    | vm_compute; reflexivity
    | vm_compute; reflexivity
    | vm_compute; reflexivity
    | vm_compute; reflexivity
    | vm_compute; reflexivity
    | vm_compute; reflexivity
    | repeat constructor; eexists; split; vm_compute; reflexivity
    | intros unsigned Hu; vm_compute in Hu; injection Hu as <-;
      vm_compute; reflexivity
    | intros partial Hp; vm_compute in Hp; injection Hp as <-;
      vm_compute; reflexivity
    | ].
  exists merged, msig. eexists.
  split; [ exact Hout | ]. split; [ exact Hmsig | ].
  split.
  - destruct (sig_at (Enc.subsig msig) 0) as [sg|] eqn:Hs; [ | reflexivity ].
    apply Hslots in Hs as [Hs | (_ & pk_ & Hnth & Hb)].
    + vm_compute in Hs. discriminate Hs.
    + vm_compute in Hnth. injection Hnth as <-. vm_compute in Hb.
      discriminate Hb.
  - apply Hslots. right. split; [ reflexivity | ].
    exists (Sample.key x0c). split; vm_compute; reflexivity.
Defined.
